(** * SYN port scanner ([nasl_builtin_synscan.c]): shallow embedding

    The scanner encodes the send time of every probe in the TCP sequence
    number, keeps the outstanding probes in a linked list keyed by the
    destination port, and derives its capture deadline from a round-trip
    estimate.  This file embeds the timestamp codec, the in-flight table,
    the frame parser, the round-trip discovery ([find_rtt]) and the scan
    engine ([sendpacket], [v6_sendpacket], [scan]) and states the
    properties of the specification over them.

    Conventions.
    - C integers are [Z]; every conversion the C code performs implicitly
      (to [unsigned long], [unsigned int], [unsigned short], [long]) is
      written out.
    - The environment (clock, raw socket, capture handle) is an explicit
      [state] threaded through a small state monad.
    - [struct list *] is a Rocq [list packet]: [next] is the tail, [NULL]
      is [[]]; the [prev] pointers carry no further information. *)

From Stdlib Require Import String ZArith List Bool Lia Sorted.
Import ListNotations.
Local Open Scope Z_scope.

(** ** Platform: byte order and width of [long] *)

Inductive byte_order := LittleEndian | BigEndian.
Inductive data_model := ILP32 | LP64.

Class platform := { endian : byte_order; model : data_model }.

Section Model.
Context {P : platform}.

Definition ulong_bits : Z := match model with ILP32 => 32 | LP64 => 64 end.

(** Conversion to [unsigned long] (also [size_t]). *)
Definition ulong (x : Z) : Z := x mod 2 ^ ulong_bits.

(** Conversion to [long] ([time_t], [suseconds_t]), two's complement. *)
Definition slong (x : Z) : Z :=
  (x + 2 ^ (ulong_bits - 1)) mod 2 ^ ulong_bits - 2 ^ (ulong_bits - 1).

Definition uint32 (x : Z) : Z := x mod 4294967296.
Definition ushort (x : Z) : Z := x mod 65536.

(** Byte reversal of a 32-bit value. *)
Definition bswap32 (x : Z) : Z :=
  (x mod 256) * 16777216 + (x / 256 mod 256) * 65536
  + (x / 65536 mod 256) * 256 + x / 16777216 mod 256.

(** [htonl]/[ntohl] take and return [uint32_t]. *)
Definition htonl (x : Z) : Z :=
  match endian with
  | BigEndian => uint32 x
  | LittleEndian => bswap32 (uint32 x)
  end.

Definition ntohl (x : Z) : Z := htonl x.

(** ** Timestamp codec *)

Record struct_timeval := mk_tv { tv_sec : Z; tv_usec : Z }.

(** [maketime], as a function of the reading [gettimeofday] stored in [tv]. *)
Definition maketime (tv : struct_timeval) : Z :=
  let ret := Z.lor (Z.shiftl (Z.land (tv_sec tv) 0xF) 28)
                   (Z.shiftr (Z.land (tv_usec tv) 0xFFFFFFF0) 4) in
  htonl ret.

(** The loop [while (tv_usec >= 1000000) { tv_usec -= 1000000; tv_sec++; }].
    [tv_usec] starts below [2^32], so 4295 rounds are more than it can take. *)
Fixpoint carry_usec (fuel : nat) (sec usec : Z) : struct_timeval :=
  match fuel with
  | O => mk_tv sec usec
  | S fuel' =>
      if 1000000 <=? usec then carry_usec fuel' (sec + 1) (usec - 1000000)
      else mk_tv sec usec
  end.

Definition timeval (val : Z) : struct_timeval :=
  let val := ntohl val in
  let h := uint32 (Z.shiftr (Z.land val 0xF0000000) 28) in
  let l := uint32 (Z.shiftl (Z.land val 0x0FFFFFFF) 4) in
  let ret := carry_usec 4295 (slong h) (slong l) in
  if 2 <? tv_sec ret then mk_tv 2 0 else ret.

(** [compute_rtt], as a function of the clock reading taken by its call of
    [maketime]. *)
Definition compute_rtt (tv : struct_timeval) (then_ : Z) : Z :=
  let now := maketime tv in
  let a := ntohl now in
  let b := ntohl then_ in
  if a <? b then 0
  else
    let res := a - b in
    let res := if Z.shiftl 1 28 <=? res then Z.shiftl 1 28 else res in
    htonl res.

(** [packetdead]; the subtraction is done in [unsigned long]. *)
Definition packetdead (tv : struct_timeval) (then_ rtt : Z) : bool :=
  let now := maketime tv in
  let then_ := ntohl then_ in
  let now := ntohl now in
  Z.shiftl 2 28 <=? ulong (now - then_).

(** The deadline arithmetic at the head of [sendpacket] and
    [v6_sendpacket]; [/] and [%] of C truncate toward zero. *)
Definition wait_deadline (rtt_tv : struct_timeval) : struct_timeval :=
  let sec := slong (tv_sec rtt_tv * 1000) in
  let sec := Z.quot sec 8 in
  let usec := slong (tv_usec rtt_tv + slong (Z.rem sec 1000 * 1000)) in
  let sec := Z.quot sec 1000 in
  if 1 <=? sec then mk_tv 1 0 else mk_tv sec usec.

(** ** In-flight table *)

Definition NUM_RETRIES : Z := 2.

(** One node of [struct list]. *)
Record packet := mk_packet { dport : Z; when : Z; retries : Z }.

Fixpoint get_packet (l : list packet) (port : Z) : option packet :=
  match l with
  | [] => None
  | p :: next => if dport p =? port then Some p else get_packet next port
  end.

(** The node [get_packet] returns, updated in place by [add_packet]. *)
Fixpoint touch_packet (l : list packet) (port ack : Z) : list packet :=
  match l with
  | [] => []
  | p :: next =>
      if dport p =? port then mk_packet (dport p) ack (retries p + 1) :: next
      else p :: touch_packet next port ack
  end.

Definition add_packet (l : list packet) (port ack : Z) : list packet :=
  match get_packet l port with
  | Some _ => touch_packet l port ack
  | None => mk_packet port ack 0 :: l
  end.

Fixpoint rm_packet (l : list packet) (port : Z) : list packet :=
  match l with
  | [] => []
  | p :: next => if dport p =? port then next else p :: rm_packet next port
  end.

(** ** Captured frames *)

Inductive family := AF_INET | AF_INET6.

(** A frame handed out by the capture: the bytes from the end of the
    datalink prefix on ([res + skip]) and the captured length [len]. *)
Record frame := mk_frame { pkt : list Z; len : Z }.

Definition byte_at (bytes : list Z) (off : Z) : Z :=
  nth (Z.to_nat off) bytes 0.

Definition TH_SYN : Z := 0x02.
Definition TH_RST : Z := 0x04.
Definition TH_ACK : Z := 0x10.
Definition sizeof_tcphdr : Z := 20.

(** Offset of the TCP header, or [None] for the [NULL] result.  [ip_hl] is
    the low nibble of the first byte; the comparison is done in [size_t]. *)
Definition extracttcp (f : frame) : option Z :=
  let ip_hl := Z.land (byte_at (pkt f) 0) 0xF in
  if ulong (len f) <? ulong (ip_hl * 4 + sizeof_tcphdr) then None
  else Some (ip_hl * 4).

Definition v6_extracttcp (f : frame) : option Z := Some 40.

Definition tcp_of (f : frame) (fam : family) : option Z :=
  match fam with
  | AF_INET => extracttcp f
  | AF_INET6 => v6_extracttcp f
  end.

(** Header fields as the integers the wire carries (most significant byte
    first), that is, after [ntohs]/[ntohl]. *)
Definition th_sport_h (f : frame) (tcp : Z) : Z :=
  byte_at (pkt f) tcp * 256 + byte_at (pkt f) (tcp + 1).

Definition th_ack_h (f : frame) (tcp : Z) : Z :=
  byte_at (pkt f) (tcp + 8) * 16777216 + byte_at (pkt f) (tcp + 9) * 65536
  + byte_at (pkt f) (tcp + 10) * 256 + byte_at (pkt f) (tcp + 11).

Definition th_flags (f : frame) (tcp : Z) : Z := byte_at (pkt f) (tcp + 13).

Definition extractack (f : frame) (fam : family) : Z :=
  match tcp_of f fam with
  | None => ulong (-1)
  | Some tcp => htonl (th_ack_h f tcp - 1)
  end.

Definition extractsport (f : frame) (fam : family) : Z :=
  match tcp_of f fam with
  | None => 0
  | Some tcp => ushort (th_sport_h f tcp)
  end.

Definition issynack (f : frame) (fam : family) : bool :=
  match tcp_of f fam with
  | None => false
  | Some tcp => th_flags f tcp =? Z.lor TH_SYN TH_ACK
  end.

(** ** Environment *)

(** What the program does to the outside, newest event first in [trace].
    [Snapshot] is not an effect: it records the value [scan] has just
    assigned to its variable [packets]. *)
Inductive event :=
| Sendto (port seq flags result : Z)
| Close_soc
| Bpf_close
| Bpf_next_tv (deadline : struct_timeval)
| Bpf_next
| Scanner_add_port (port : Z)
| Comm_send_status (current total : Z)
| Plug_set_key (key : string)
| Snapshot (packets : list packet).

Record state := mk_state {
  clock : nat -> struct_timeval;   (* successive [gettimeofday] readings *)
  ticks : nat;                     (* readings taken so far *)
  sendto_result : nat -> Z;        (* results of the successive [sendto] calls *)
  sends : nat;                     (* [sendto] calls made so far *)
  captured : list (option frame);  (* results of the coming capture calls;
                                      once used up, every call times out *)
  rawsocket_result : Z;
  openbpf_result : Z;
  trace : list event
}.

Definition M (A : Type) : Type := state -> A * state.

Definition ret {A} (a : A) : M A := fun s => (a, s).

Definition bind {A B} (m : M A) (k : A -> M B) : M B :=
  fun s => let '(a, s') := m s in k a s'.

Notation "x <- m ;; k" := (bind m (fun x => k))
  (at level 61, m at next level, right associativity).
Notation "' pat <- m ;; k" := (bind m (fun x => match x with pat => k end))
  (at level 61, pat pattern, m at next level, right associativity).
Notation "m ;; k" := (bind m (fun _ => k))
  (at level 61, right associativity).

Definition emit (e : event) : M unit :=
  fun s => (tt, mk_state (clock s) (ticks s) (sendto_result s) (sends s)
                  (captured s) (rawsocket_result s) (openbpf_result s)
                  (e :: trace s)).

Definition gettimeofday : M struct_timeval :=
  fun s => (clock s (ticks s),
            mk_state (clock s) (S (ticks s)) (sendto_result s) (sends s)
              (captured s) (rawsocket_result s) (openbpf_result s) (trace s)).

(** [sendto] of the packet [mktcp] built for [port], [seq] and [flags]. *)
Definition sendto (port seq flags : Z) : M Z :=
  fun s => let e := sendto_result s (sends s) in
           (e, mk_state (clock s) (ticks s) (sendto_result s) (S (sends s))
                 (captured s) (rawsocket_result s) (openbpf_result s)
                 (Sendto port seq flags e :: trace s)).

(** One capture call: the head of [captured], a timeout when it is used up. *)
Definition next_frame : M (option (option frame * list (option frame))) :=
  fun s => match captured s with
           | [] => (None, s)
           | r :: rest =>
               (Some (r, rest),
                mk_state (clock s) (ticks s) (sendto_result s) (sends s)
                  rest (rawsocket_result s) (openbpf_result s) (trace s))
           end.

Definition set_captured (rest : list (option frame)) : M unit :=
  fun s => (tt, mk_state (clock s) (ticks s) (sendto_result s) (sends s)
                  rest (rawsocket_result s) (openbpf_result s) (trace s)).

Definition rawsocket (fam : family) : M Z := fun s => (rawsocket_result s, s).
Definition openbpf : M Z := fun s => (openbpf_result s, s).

(** One call of [bpf_next_tv] (or of [bpf_next], without a deadline). *)
Definition capture_call (deadline : option struct_timeval)
  : M (option frame) :=
  emit (match deadline with Some tv => Bpf_next_tv tv | None => Bpf_next end);;
  r <- next_frame;;
  match r with
  | Some (res, _) => ret res
  | None => ret None
  end.

Definition pending : M (list (option frame)) := fun s => (captured s, s).

(** ** Sweep of the table *)

(** The traversal of [rm_dead_packets] from node [p] on; [packetdead]
    reads the clock once per node.  Returns the nodes kept and the value
    left in [*retry]. *)
Fixpoint rm_dead_packets_from (p : list packet) (rtt retry : Z)
  : M (list packet * Z) :=
  match p with
  | [] => ret ([], retry)
  | e :: next =>
      tv <- gettimeofday;;
      if packetdead tv (when e) rtt then
        if retries e <? NUM_RETRIES then
          '(l, retry') <- rm_dead_packets_from next rtt (dport e);;
          ret (e :: l, retry')
        else rm_dead_packets_from next rtt retry
      else
        '(l, retry') <- rm_dead_packets_from next rtt retry;;
        ret (e :: l, retry')
  end.

Definition rm_dead_packets (l : list packet) (rtt : Z) : M (list packet * Z) :=
  rm_dead_packets_from l rtt 0.

(** ** The sending routine *)

(** The body of [if (res != NULL) { ... }] in [sendpacket], up to the
    [goto again].  Returns the new [packets] and [*rtt]. *)
Definition reply (ack : Z) (res : frame) (packets : list packet) (rtt : Z)
  : M (list packet * Z) :=
  let sport := extractsport res AF_INET in
  let synack := issynack res AF_INET in
  let rack := uint32 (extractack res AF_INET) in
  rtt' <- (if synack then
             emit (Scanner_add_port sport);;
             _ <- sendto sport (uint32 (ack + 1)) TH_RST;;
             tv <- gettimeofday;;
             let rtt := compute_rtt tv rack in
             ret (if Z.shiftl 1 28 <=? ntohl rtt then Z.shiftl 1 28 else rtt)
           else ret rtt);;
  ret (rm_packet packets sport, rtt').

(** The loop at the label [again]; [frames] is what the capture still
    holds. *)
Fixpoint drain (frames : list (option frame)) (ack : Z)
  (rtt_tv : struct_timeval) (packets : list packet) (rtt : Z)
  : M (list packet * Z) :=
  emit (Bpf_next_tv rtt_tv);;
  match frames with
  | [] => ret (packets, rtt)
  | None :: rest => set_captured rest;; ret (packets, rtt)
  | Some res :: rest =>
      set_captured rest;;
      '(packets, rtt) <- reply ack res packets rtt;;
      drain rest ack (mk_tv 0 0) packets rtt
  end.

(** The block [if (dport != 0) { ... }] of [sendpacket] and
    [v6_sendpacket]: the flag tells whether it left the function with
    [return NULL]. *)
Definition probe (port ack : Z) (packets : list packet)
  : M (bool * list packet) :=
  if negb (port =? 0) then
    let packets := add_packet packets (ushort port) ack in
    e <- sendto (ushort port) ack TH_SYN;;
    if e <? 0 then emit Close_soc;; emit Bpf_close;; ret (true, [])
    else ret (false, packets)
  else ret (false, packets).

(** [sendpacket]; the result is the returned list ([[]] for [NULL]) and
    the value of [*rtt] on return. *)
Definition sendpacket (port : Z) (packets : list packet) (rtt : Z)
  (sniff : Z) : M (list packet * Z) :=
  tv <- gettimeofday;;
  let ack := maketime tv in
  let rtt_tv := wait_deadline (timeval rtt) in
  '(failed, packets) <- probe port ack packets;;
  if failed : bool then ret ([], rtt)
  else if negb (sniff =? 0) then
    frames <- pending;; drain frames ack rtt_tv packets rtt
  else ret (packets, rtt).

Definition v6_sendpacket (port : Z) (packets : list packet) (rtt : Z)
  (sniff : Z) : M (list packet * Z) :=
  tv <- gettimeofday;;
  let ack := maketime tv in
  '(failed, packets) <- probe port ack packets;;
  if failed : bool then ret ([], rtt)
  else if negb (sniff =? 0) then
    res <- capture_call None;;
    match res with
    | Some res =>
        let sport := extractsport res AF_INET6 in
        let synack := issynack res AF_INET6 in
        (if synack then
           emit (Scanner_add_port sport);;
           _ <- sendto sport (uint32 (ack + 1)) TH_RST;; ret tt
         else ret tt);;
        ret (rm_packet packets sport, rtt)
    | None => ret (packets, rtt)
    end
  else ret (packets, rtt).

(** ** The scan engine *)

Definition send (fam : family) :=
  match fam with
  | AF_INET => sendpacket
  | AF_INET6 => v6_sendpacket
  end.

(** [packets = f (...)] in [scan]: run [f] and record the value assigned. *)
Definition assign {A} (m : M (list packet * A)) : M (list packet * A) :=
  r <- m;; emit (Snapshot (fst r));; ret r.

(** The loop [for (i = 0; i < num; i += 2)] from index [i] on; [ports] is
    [ports[i..num-1]]. *)
Fixpoint scan_ports (fam : family) (ports : list Z) (i num : Z)
  (packets : list packet) (rtt : Z) : M (list packet * Z) :=
  match ports with
  | [] => ret (packets, rtt)
  | p0 :: rest =>
      (if Z.rem i 100 =? 0 then emit (Comm_send_status i num) else ret tt);;
      '(packets, rtt) <- assign (send fam p0 packets rtt 0);;
      match rest with
      | [] => ret (packets, rtt)
      | p1 :: rest' =>
          '(packets, rtt) <- assign (send fam p1 packets rtt 1);;
          scan_ports fam rest' (i + 2) num packets rtt
      end
  end.

(** The loop [while (retry != 0 && i < 2)]; [left] is [2 - i]. *)
Fixpoint resend (left : nat) (retry : Z) (packets : list packet) (rtt : Z)
  : M (list packet * Z * Z) :=
  match left with
  | O => ret (packets, rtt, retry)
  | S left' =>
      if retry =? 0 then ret (packets, rtt, retry)
      else
        '(packets, rtt) <- assign (sendpacket retry packets rtt 0);;
        '(packets, retry) <- assign (rm_dead_packets packets rtt);;
        resend left' retry packets rtt
  end.

(** The loop [while (packets != NULL)]; the result is [false] when [fuel]
    rounds did not empty the table. *)
Fixpoint retry_loop (fuel : nat) (packets : list packet) (rtt : Z) : M bool :=
  match packets with
  | [] => ret true
  | _ :: _ =>
      match fuel with
      | O => ret false
      | S fuel' =>
          '(packets, retry) <- assign (rm_dead_packets packets rtt);;
          '(packets, rtt, retry) <- resend 2 retry packets rtt;;
          '(packets, rtt) <- assign (sendpacket retry packets rtt 1);;
          retry_loop fuel' packets rtt
      end
  end.

(** [scan]: [fam] is the outcome of [IN6_IS_ADDR_V4MAPPED (dst6)], [ports]
    the array [getpts] returned.  The result is the return value, [None]
    when the retry loop is still running after [fuel] rounds. *)
Definition scan (fam : family) (ports : list Z) (rtt : Z) (fuel : nat)
  : M (option Z) :=
  let num := Z.of_nat (length ports) in
  soc <- rawsocket fam;;
  if soc <? 0 then ret (Some (-1))
  else
    bpf <- openbpf;;
    '(packets, rtt) <- scan_ports fam ports 0 num [] rtt;;
    finished <- match fam with
                | AF_INET => retry_loop fuel packets rtt
                | AF_INET6 => ret true
                end;;
    if finished : bool then
      emit (Comm_send_status num num);;
      emit Close_soc;;
      emit Bpf_close;;
      (if 65535 <=? num then emit (Plug_set_key "Host/full_scan") else ret tt);;
      ret (Some 0)
    else ret None.

(** The round-trip estimate [plugin_run_synscan] hands to [scan]. *)
Definition initial_rtt : Z := htonl (Z.shiftl 1 28).

(** ** Round-trip discovery *)

(** The array [ports] of [find_rtt], without its terminating 0. *)
Definition beacons : list Z :=
  [21; 22; 34; 25; 53; 79; 80; 110; 113; 135; 139; 143; 264; 389; 443; 993;
   1454; 1723; 3389; 8080].

(** The first loop of [find_rtt] from [ports[i]] on; [use] holds the [num]
    ports found so far.  [None] stands for the [return -1] after a failed
    [sendto]. *)
Fixpoint find_beacons (ports : list Z) (use : list Z) : M (option (list Z)) :=
  match ports with
  | [] => ret (Some use)
  | p :: rest =>
      tv <- gettimeofday;;
      let ack := maketime tv in
      e <- sendto p ack TH_SYN;;
      if e <? 0 then emit Close_soc;; emit Bpf_close;; ret None
      else
        res <- capture_call (Some (mk_tv 1 0));;
        match res with
        | Some _ =>
            let use := use ++ [p] in
            if 3 <=? Z.of_nat (length use) then ret (Some use)
            else find_beacons rest use
        | None => find_beacons rest use
        end
  end.

(** The local variables of the second loop of [find_rtt]. *)
Record rtt_vars := mk_vars {
  j : Z; n : Z; err : Z; noresend : Z; max : Z; max_max : Z
}.

(** The update of [max] and [max_max] by a sample [val]. *)
Definition take_sample (val : Z) (v : rtt_vars) : rtt_vars :=
  if negb (val =? 0) && (max_max v <? val) then
    if negb (max v =? 0) then
      if val <? ulong (max v * 2) then
        mk_vars (j v) (n v) (err v) (noresend v) (max_max v) val
      else v
    else mk_vars (j v) (n v) (err v) (noresend v) (max_max v) val
  else v.

(** How the second loop of [find_rtt] is left: by the [return 0] inside
    it, or because [j < 10] fails; with the variables at that point. *)
Inductive loop_exit :=
| Aborted (v : rtt_vars)
| Completed (v : rtt_vars).

(** The loop [for (j = 0, n = 0; j < 10; j++, n++)] from the state [v] of
    its variables on; [None] when [fuel] rounds were not enough. *)
Fixpoint measure (fuel : nat) (use : list Z) (v : rtt_vars)
  : M (option loop_exit) :=
  if j v <? 10 then
    match fuel with
    | O => ret None
    | S fuel' =>
        tv <- gettimeofday;;
        let ack := maketime tv in
        let port := nth (Z.to_nat (Z.rem (n v) (Z.of_nat (length use)))) use 0 in
        _ <- sendto port ack TH_SYN;;
        res <- capture_call (Some (mk_tv 1 0));;
        match res with
        | Some res =>
            now <- gettimeofday;;
            let val := compute_rtt now (extractack res AF_INET) in
            let v := mk_vars (j v) (n v) (err v) 0 (max v) (max_max v) in
            let v := take_sample val v in
            measure fuel' use
              (mk_vars (j v + 1) (n v + 1) (err v) (noresend v) (max v)
                 (max_max v))
        | None =>
            let v := mk_vars (j v - 1) (n v) (err v + 1) (noresend v + 1)
                       (max v) (max_max v) in
            let v := if 4 <? noresend v
                     then mk_vars (j v) (n v) (err v) 0 (max v) (max_max v)
                     else v in
            if 10 <? err v then ret (Some (Aborted v))
            else
              measure fuel' use
                (mk_vars (j v + 1) (n v + 1) (err v) (noresend v) (max v)
                   (max_max v))
        end
    end
  else ret (Some (Completed v)).

(** Ten replies and ten tolerated silences bound the rounds of the loop. *)
Definition measure_rounds : nat := 21.

(** What [find_rtt] does on leaving the loop: the return value and the
    value stored in [*rtt]. *)
Definition finish (exit : loop_exit) : M (Z * Z) :=
  match exit with
  | Aborted _ => ret (0, htonl (Z.shiftl 1 28))
  | Completed v =>
      emit Close_soc;;
      emit Bpf_close;;
      let max := if max v =? 0 then htonl (Z.shiftl 1 28) else max v in
      ret (1, max)
  end.

(** [find_rtt]: the return value and the value of [*rtt] on return. *)
Definition find_rtt (rtt : Z) : M (option (Z * Z)) :=
  soc <- rawsocket AF_INET;;
  if soc <? 0 then ret (Some (-1, rtt))
  else
    bpf <- openbpf;;
    if bpf <? 0 then emit Close_soc;; ret (Some (-1, rtt))
    else
      found <- find_beacons beacons [];;
      match found with
      | None => ret (Some (-1, rtt))
      | Some [] =>
          emit Bpf_close;; emit Close_soc;;
          ret (Some (0, htonl (Z.shiftl 1 28)))
      | Some use =>
          r <- measure measure_rounds use (mk_vars 0 0 0 0 0 0);;
          match r with
          | Some exit => r <- finish exit;; ret (Some r)
          | None => ret None
          end
      end.

(** The results of the next [k] capture calls (a used-up capture times
    out), and the replies and silences among them. *)
Fixpoint results (tape : list (option frame)) (k : nat)
  : list (option frame) :=
  match k with
  | O => []
  | S k' =>
      match tape with
      | [] => None :: results [] k'
      | r :: rest => r :: results rest k'
      end
  end.

Definition replies (l : list (option frame)) : Z :=
  Z.of_nat (length (filter (fun r => match r with Some _ => true
                                             | None => false end) l)).

Definition silences (l : list (option frame)) : Z :=
  Z.of_nat (length (filter (fun r => match r with Some _ => false
                                              | None => true end) l)).

(** [max] is 0 or lies strictly between 0 and [max_max]. *)
Definition maxima_ok (v : rtt_vars) : Prop :=
  (max v = 0 /\ 0 <= max_max v) \/ 0 < max v < max_max v.




(** ** The sweep as the specification words it *)

(** The [k] clock readings [rm_dead_packets] takes on a table of [k]
    nodes, and the state with the clock advanced past them. *)
Definition readings (s : state) (k : nat) : list struct_timeval :=
  map (fun i => clock s (i + ticks s)%nat) (seq 0 k).

Definition advance (s : state) (k : nat) : state :=
  mk_state (clock s) (k + ticks s) (sendto_result s) (sends s) (captured s)
    (rawsocket_result s) (openbpf_result s) (trace s).

(** An entry, with the reading [now] it is judged at, is dead when
    [now - then >= 2 * 2^28]. *)
Definition dead (rtt : Z) (x : packet * struct_timeval) : bool :=
  packetdead (snd x) (when (fst x)) rtt.

(** Dead with the retry count below the ceiling: a retry candidate. *)
Definition retry_candidate (rtt : Z) (x : packet * struct_timeval) : bool :=
  dead rtt x && (retries (fst x) <? NUM_RETRIES).


(** Dead with the retry count not below the ceiling. *)
Definition expired (rtt : Z) (x : packet * struct_timeval) : bool :=
  dead rtt x && negb (retries (fst x) <? NUM_RETRIES).

(** The pruned table and the retry port: the port of the last retry
    candidate, [none] when there is no candidate. *)
Definition sweep_spec (drop : packet * struct_timeval -> bool) (rtt : Z)
  (none : Z) (l : list (packet * struct_timeval)) : list packet * Z :=
  (map fst (filter (fun x => negb (drop x)) l),
   last (map (fun x => dport (fst x)) (filter (retry_candidate rtt) l)) none).

(** Number of entries the table holds for [port]. *)
Definition entries_for (l : list packet) (port : Z) : nat :=
  length (filter (fun e => dport e =? port) l).

(** ** Invariants of a run *)

(** [l] is [l'] with some nodes unlinked. *)
Inductive sublist {A : Type} : list A -> list A -> Prop :=
| sublist_nil : sublist [] []
| sublist_skip a l l' : sublist l l' -> sublist l (a :: l')
| sublist_keep a l l' : sublist l l' -> sublist (a :: l) (a :: l').

(** A SYN for [port] went out (its [sendto] did not fail) in [tr]. *)
Definition sent (port : Z) (tr : list event) : Prop :=
  exists seq r, In (Sendto port seq TH_SYN r) tr /\ 0 <= r.

(** Every entry is for a port of 1 to 65535; under [strict] no port has
    two entries and no retry count exceeds [NUM_RETRIES]. *)
Definition table_ok (strict : bool) (l : list packet) : Prop :=
  Forall (fun e => 0 < dport e < 65536) l
  /\ (strict = true ->
      NoDup (map dport l) /\ Forall (fun e => retries e <= NUM_RETRIES) l).

(** Every table [scan] has held so far was [table_ok], and a SYN had gone
    out for each of its entries. *)
Fixpoint hist_ok (strict : bool) (tr : list event) : Prop :=
  match tr with
  | [] => True
  | Snapshot l :: older =>
      table_ok strict l
      /\ (forall p, In p (map dport l) -> sent p older)
      /\ hist_ok strict older
  | _ :: older => hist_ok strict older
  end.

Definition quiet (e : event) : Prop :=
  match e with Snapshot _ => False | _ => True end.

(** [s'] comes after [s], with no table recorded in between. *)
Definition grows (s s' : state) : Prop :=
  exists new, trace s' = new ++ trace s /\ Forall quiet new.

(** What [scan] may pass as a port to the sending routine while it holds
    [packets]. *)
Definition port_ok (strict : bool) (port : Z) (packets : list packet) : Prop :=
  port = 0
  \/ (0 < port < 65536
      /\ (strict = true ->
          forall e, get_packet packets port = Some e ->
                    retries e < NUM_RETRIES)).

(** The state of [scan] between two statements. *)
Definition scan_inv (strict : bool) (packets : list packet) (s : state)
  : Prop :=
  table_ok strict packets
  /\ (forall p, In p (map dport packets) -> sent p (trace s))
  /\ hist_ok strict (trace s).

(** ** The plugin entry point *)

(** [plugin_run_synscan]: [localhost] is the outcome of [islocalhost],
    [fam] and [ports] are what [scan] makes of the host address and of the
    preference [port_range].  The function returns [NULL] on every path,
    so the result only tells whether it has returned ([None]: [scan] is
    still running after [fuel] rounds). *)
Definition plugin_run_synscan (localhost : bool) (fam : family)
  (ports : list Z) (fuel : nat) : M (option unit) :=
  if localhost then ret (Some tt)
  else
    let rtt := htonl (Z.shiftl 1 28) in
    r <- scan fam ports rtt fuel;;
    match r with
    | Some _ =>
        emit (Plug_set_key "Host/scanned");;
        emit (Plug_set_key "Host/scanners/synscan");;
        ret (Some tt)
    | None => ret None
    end.

End Model.

(** * Sample platforms and inputs *)

Definition linux_x86_64 : platform :=
  {| endian := LittleEndian; model := LP64 |}.

(** The four bytes of a 32-bit value, most significant first. *)
Definition be32 (x : Z) : list Z :=
  [x / 16777216 mod 256; x / 65536 mod 256; x / 256 mod 256; x mod 256].

(** An IPv4 frame (after the datalink prefix) with a header of [ip_hl]
    words, followed by a TCP header from port [sport] that acknowledges
    [ack] with the given flags; [caplen] is the captured length. *)
Definition tcp_frame (ip_hl sport ack flags caplen : Z) : frame :=
  mk_frame ((64 + ip_hl) :: repeat 0 (Z.to_nat (ip_hl * 4 - 1))
            ++ [sport / 256; sport mod 256; 17; 89] ++ be32 0 ++ be32 ack
            ++ [80; flags; 16; 0; 0; 0; 0; 0]) caplen.

(** The acknowledgement number a peer returns for a probe stamped at the
    reading [tv]: the sequence number plus one. *)
Definition echo (tv : struct_timeval) : Z :=
  ntohl (P := linux_x86_64) (maketime (P := linux_x86_64) tv) + 1.

(** A SYN|ACK from [port] for the probe stamped at [tv], on Ethernet. *)
Definition synack (port : Z) (tv : struct_timeval) : option frame :=
  Some (tcp_frame 5 port (echo tv) (Z.lor TH_SYN TH_ACK) 54).

(** An environment: the clock readings [clk] (the last one repeats), the
    results [res] of [sendto] (then 40, the bytes of a probe), the capture
    results [frames], the descriptors [soc] and [bpf]. *)
Definition world (clk : list struct_timeval) (res : list Z)
  (frames : list (option frame)) (soc bpf : Z) : state :=
  mk_state (fun k => nth k clk (last clk (mk_tv 0 0))) 0
    (fun k => nth k res 40) 0 frames soc bpf [].


(** A probe to port 80 leaves at 1700000015.9 s and its SYN|ACK is handled
    at 1700000016.0001 s, the seconds having passed a multiple of 16. *)
Definition wrap_world : state :=
  world [mk_tv 1700000015 900000; mk_tv 1700000016 100] []
    [synack 80 (mk_tv 1700000015 900000)] 3 4.

(** Every [sendto] fails, from the first probe on. *)
Definition send_fails_world : state :=
  world [mk_tv 100 0] [-1; -1; -1] [] 3 4.

(** The raw socket opens, the capture does not. *)
Definition no_filter_world : state := world [mk_tv 100 0] [] [] 3 (-1).

(** A silent target; the clock stands still. *)
Definition silent_world : state := world [mk_tv 100 0] [] [] 3 4.

(** A silent target; every clock reading is one second after the one
    before. *)
Definition ticking_world : state :=
  mk_state (fun k => mk_tv (Z.of_nat k) 0) 0 (fun _ => 40) 0 [] 3 4 [].

(** As [ticking_world], with port 80 answering its probe by a SYN|ACK. *)
Definition open_port_world : state :=
  mk_state (fun k => mk_tv (Z.of_nat k) 0) 0 (fun _ => 40) 0
    [synack 80 (mk_tv 1 0)] 3 4 [].



(** A frame with a 60-byte IP header of which 54 bytes were captured. *)
Definition short_frame : frame := tcp_frame 15 80 1 (Z.lor TH_SYN TH_ACK) 54.



(** A SYN|ACK from port 80 on Ethernet, cut short by the capture: 50
    bytes were captured, 14 of them the datalink prefix, so that the frame
    holds the 20 bytes of its IP header and the first 16 of its TCP
    header. *)
Definition cut_frame : frame :=
  mk_frame
    (firstn 36 (pkt (tcp_frame 5 80 (echo (mk_tv 1 0)) (Z.lor TH_SYN TH_ACK)
                       54))) 50.

(** The capture holds [cut_frame]; the clock reads 1 s and then 1.0016 s. *)
Definition cut_frame_world : state :=
  world [mk_tv 1 0; mk_tv 1 1600] [] [Some cut_frame] 3 4.

(** Effects only: the trace without the recorded tables, oldest first. *)
Definition effects (tr : list event) : list event :=
  filter (fun e => match e with Snapshot _ => false | _ => true end) (rev tr).

(** * Packet construction *)

Section Wire.
Context {P : platform}.

Definition uchar (x : Z) : Z := x mod 256.

(** [htons] takes and returns [uint16_t]. *)
Definition htons (x : Z) : Z :=
  match endian with
  | BigEndian => ushort x
  | LittleEndian => (ushort x mod 256) * 256 + ushort x / 256
  end.

(** The bytes a [u_short] and a 32-bit object hold in memory, lowest
    address first, and the [u_short] two bytes in memory make up. *)
Definition store16 (x : Z) : list Z :=
  match endian with
  | LittleEndian => [x mod 256; x / 256 mod 256]
  | BigEndian => [x / 256 mod 256; x mod 256]
  end.

Definition store32 (x : Z) : list Z :=
  match endian with
  | LittleEndian =>
      [x mod 256; x / 256 mod 256; x / 65536 mod 256; x / 16777216 mod 256]
  | BigEndian =>
      [x / 16777216 mod 256; x / 65536 mod 256; x / 256 mod 256; x mod 256]
  end.

Definition load16 (b0 b1 : Z) : Z :=
  match endian with
  | LittleEndian => b0 + 256 * b1
  | BigEndian => 256 * b0 + b1
  end.

(** The loop [while (n > 1) { sum += *p++; n -= 2; }] of [in_cksum] on
    the bytes [p] points to (at least [n] of them); returns [sum], the
    bytes from [p] on and [n] as the loop leaves them. *)
Fixpoint cksum_words (p : list Z) (n : Z) (sum : Z) : Z * list Z * Z :=
  match p with
  | b0 :: b1 :: rest =>
      if 1 <? n then cksum_words rest (n - 2) (ulong (sum + load16 b0 b1))
      else (sum, p, n)
  | _ => (sum, p, n)
  end.

Definition in_cksum (p : list Z) (n : Z) : Z :=
  let '(sum, p, n) := cksum_words p n 0 in
  let sum := if n =? 1 then ulong (sum + load16 (hd 0 p) 0) else sum in
  let sum := ulong (Z.shiftr sum 16 + Z.land sum 0xffff) in
  let sum := ulong (sum + Z.shiftr sum 16) in
  let answer := ushort (Z.lnot sum) in
  answer.

Definition IPPROTO_TCP : Z := 6.
Definition sizeof_ip : Z := 20.

(** The 20 bytes of [struct ip] as [mktcp] fills them, with [ip_sum]
    holding [sum]; [id] is the value [rand ()] returned, [src] and [dst]
    are the [s_addr] members. *)
Definition ip_header (id src dst sum : Z) : list Z :=
  [4 * 16 + 5; 0] ++ store16 (ushort (sizeof_ip + sizeof_tcphdr))
  ++ store16 (ushort id) ++ store16 0 ++ [64; IPPROTO_TCP]
  ++ store16 sum ++ store32 src ++ store32 dst.

(** The 20 bytes of [struct tcphdr] with sequence number [seq],
    acknowledgement [ackno], window [win] and [th_sum] holding [sum]. *)
Definition tcp_header (sport dport seq ackno flag win sum : Z) : list Z :=
  store16 (htons sport) ++ store16 (htons dport) ++ store32 (uint32 seq)
  ++ store32 ackno ++ [5 * 16 + 0; uchar flag] ++ store16 win
  ++ store16 sum ++ store16 0.

(** The first 12 bytes of [struct pseudohdr]. *)
Definition pseudo_header (src dst : Z) : list Z :=
  store32 src ++ store32 dst ++ [0; IPPROTO_TCP]
  ++ store16 (htons sizeof_tcphdr).

(** [mktcp]: the 40 bytes of the static buffer [pkt] on return. *)
Definition mktcp (id src sport dst dport th_ack flag : Z) : list Z :=
  let ip_sum := in_cksum (ip_header id src dst 0) sizeof_ip in
  let tcpsumdata :=
    pseudo_header src dst ++ tcp_header sport dport th_ack 0 flag 4096 0 in
  let th_sum := in_cksum tcpsumdata (12 + sizeof_tcphdr) in
  ip_header id src dst ip_sum
  ++ tcp_header sport dport th_ack 0 flag 4096 th_sum.

(** [mktcpv6]: the 20 bytes of its static buffer; [rnd] is the value
    [rand ()] returned.  [th_x2] is never written and keeps the 0 of
    static storage. *)
Definition mktcpv6 (rnd sport dport th_ack flag : Z) : list Z :=
  tcp_header sport dport th_ack (htonl rnd) flag (htons 5760) 2.

(** The sum [in_cksum] folds: the 16-bit words of the buffer, a last odd
    byte counting as the word it makes with a zero byte after it. *)
Fixpoint wsum (p : list Z) : Z :=
  match p with
  | b0 :: b1 :: rest => load16 b0 b1 + wsum rest
  | [b0] => load16 b0 0
  | [] => 0
  end.

Definition is_byte (b : Z) : Prop := 0 <= b < 256.

(** The sequence number of a header as the wire carries it (most
    significant byte first): what the peer adds one to in its reply. *)
Definition th_seq_h (f : frame) (tcp : Z) : Z :=
  byte_at (pkt f) (tcp + 4) * 16777216 + byte_at (pkt f) (tcp + 5) * 65536
  + byte_at (pkt f) (tcp + 6) * 256 + byte_at (pkt f) (tcp + 7).

End Wire.

(** * Observations on a run *)

Section Observations.
Context {P : platform}.

(** The capture [tape] holds a SYN|ACK from [port]. *)
Definition from_synack (fam : family) (tape : list (option frame))
  (port : Z) : Prop :=
  exists f, In (Some f) tape /\ issynack f fam = true
            /\ extractsport f fam = port.

(** What the sending routine does once its probe is out, having taken the
    frames [used] from the capture: it waits for frames, and reports and
    resets the ports SYN|ACKs came from. *)
Definition reply_event (fam : family) (used : list (option frame))
  (e : event) : Prop :=
  match e with
  | Sendto p _ fl _ => fl = TH_RST /\ from_synack fam used p
  | Scanner_add_port p => from_synack fam used p
  | Bpf_next_tv _ | Bpf_next => True
  | _ => False
  end.

(** The events of the block [if (dport != 0) { ... }] (newest first),
    [res] being the result of its [sendto]. *)
Definition probe_events (port ack res : Z) : list event :=
  if port =? 0 then []
  else if res <? 0
       then [Bpf_close; Close_soc; Sendto (ushort port) ack TH_SYN res]
       else [Sendto (ushort port) ack TH_SYN res].

Definition is_syn (port : Z) (e : event) : bool :=
  match e with
  | Sendto p _ fl _ => (p =? port) && (fl =? TH_SYN)
  | _ => false
  end.

(** Number of SYN probes handed to [sendto] for [port]. *)
Definition syn_count (port : Z) (tr : list event) : nat :=
  length (filter (is_syn port) tr).

(** What the loops of [scan] may do for the port array [ports] with the
    capture [tape]. *)
Definition scan_event (ports : list Z) (fam : family)
  (tape : list (option frame)) (e : event) : Prop :=
  match e with
  | Sendto p _ fl _ =>
      (fl = TH_SYN /\ In p ports /\ p <> 0)
      \/ (fl = TH_RST /\ from_synack fam tape p)
  | Scanner_add_port p => from_synack fam tape p
  | Plug_set_key _ => False
  | _ => True
  end.

(** The events of [scan] after its loops (newest first). *)
Definition scan_end (num : Z) : list event :=
  (if 65535 <=? num then [Plug_set_key "Host/full_scan"] else [])
  ++ [Bpf_close; Close_soc; Comm_send_status num num].

Definition is_close (e : event) : bool :=
  match e with
  | Close_soc | Bpf_close => true
  | _ => false
  end.

(** The frames the loop at [again] handles: those before the first
    timeout. *)
Fixpoint leading (frames : list (option frame)) : list frame :=
  match frames with
  | Some f :: rest => f :: leading rest
  | _ => []
  end.

(** [scan] between two statements, for the port array [ports] and the
    capture [tape] it started with: [rem] is what the main loop has still
    to send to.  The ports of the table are listed ones, the capture is
    what is left of [tape], the events so far are [scan_event]s, and every
    listed port the main loop is past has had its SYN handed to
    [sendto]. *)
Definition run_inv (ports : list Z) (fam : family)
  (tape : list (option frame)) (rem : list Z) (packets : list packet)
  (s : state) : Prop :=
  incl rem ports
  /\ (forall p, In p (map dport packets) -> In p ports /\ p <> 0)
  /\ (exists used, tape = used ++ captured s)
  /\ Forall (scan_event ports fam tape) (trace s)
  /\ (forall p, In p ports -> p <> 0 ->
        In p rem \/ exists seq r, In (Sendto p seq TH_SYN r) (trace s)).

(** A port [scan] may hand to the sending routine: 0 or a listed one. *)
Definition listed (ports : list Z) (port : Z) (packets : list packet)
  : Prop :=
  port = 0 \/ (In port ports /\ port <> 0).

(** The table against the SYNs counted in [tr]: one entry per port, each
    with a retry count of at most [NUM_RETRIES] that is one less than the
    number of SYNs for its port; no port has had more than
    [NUM_RETRIES + 1]. *)
Definition count_ok (packets : list packet) (tr : list event) : Prop :=
  NoDup (map dport packets)
  /\ (forall e, In e packets ->
        0 <= dport e < 65536
        /\ retries e <= NUM_RETRIES
        /\ Z.of_nat (syn_count (dport e) tr) = retries e + 1)
  /\ (forall p, Z.of_nat (syn_count p tr) <= NUM_RETRIES + 1).

(** [count_ok] with the ports [rem] still to come in the main loop: they
    are distinct, in no entry, and without a SYN so far. *)
Definition count_inv (rem : list Z) (packets : list packet) (s : state)
  : Prop :=
  NoDup rem
  /\ Forall (fun p => 0 <= p < 65536) rem
  /\ (forall p, In p rem ->
        ~ In p (map dport packets) /\ syn_count p (trace s) = 0%nat)
  /\ count_ok packets (trace s).

(** The retry port the sweep hands out: 0 or the port of an entry below
    the retry ceiling. *)
Definition retry_ok (port : Z) (packets : list packet) : Prop :=
  port = 0
  \/ exists e, In e packets /\ dport e = port /\ retries e < NUM_RETRIES.

(** No handle has been closed, and no [sendto] fails. *)
Definition open_inv (rem : list Z) (packets : list packet) (s : state)
  : Prop :=
  (forall k, 0 <= sendto_result s k)
  /\ Forall (fun e => is_close e = false) (trace s).

End Observations.

(** * Properties *)

Section Properties.
Context {P : platform}.

(** ** Integer conversions and byte order *)

Lemma ulong_bits_cases : ulong_bits = 32 \/ ulong_bits = 64.
Proof. unfold ulong_bits; destruct model; auto. Qed.

Lemma ulong_small x : 0 <= x < 4294967296 -> ulong x = x.
Proof.
  intros H; unfold ulong; apply Z.mod_small.
  destruct ulong_bits_cases as [-> | ->]; lia.
Qed.

Lemma slong_small x : 0 <= x < 2147483648 -> slong x = x.
Proof.
  intros H; unfold slong.
  destruct ulong_bits_cases as [-> | ->]; rewrite Z.mod_small; lia.
Qed.

Lemma uint32_small x : 0 <= x < 4294967296 -> uint32 x = x.
Proof. intros H; unfold uint32; now apply Z.mod_small. Qed.

Lemma uint32_range x : 0 <= uint32 x < 4294967296.
Proof. unfold uint32; apply Z.mod_pos_bound; lia. Qed.

Lemma bswap32_range x : 0 <= bswap32 x < 4294967296.
Proof.
  unfold bswap32.
  pose proof (Z.mod_pos_bound x 256).
  pose proof (Z.mod_pos_bound (x / 256) 256).
  pose proof (Z.mod_pos_bound (x / 65536) 256).
  pose proof (Z.mod_pos_bound (x / 16777216) 256).
  lia.
Qed.

Lemma bswap32_bytes a b c d :
  0 <= a < 256 -> 0 <= b < 256 -> 0 <= c < 256 -> 0 <= d < 256 ->
  bswap32 (a * 16777216 + b * 65536 + c * 256 + d)
  = d * 16777216 + c * 65536 + b * 256 + a.
Proof.
  intros Ha Hb Hc Hd; unfold bswap32.
  set (x := a * 16777216 + b * 65536 + c * 256 + d).
  assert (E0 : x mod 256 = d).
  { symmetry; apply (Z.mod_unique x 256 (a * 65536 + b * 256 + c) d);
      [left; lia | unfold x; lia]. }
  assert (D1 : x / 256 = a * 65536 + b * 256 + c).
  { symmetry; apply (Z.div_unique x 256 _ d); [left; lia | unfold x; lia]. }
  assert (D2 : x / 65536 = a * 256 + b).
  { symmetry; apply (Z.div_unique x 65536 _ (c * 256 + d));
      [left; lia | unfold x; lia]. }
  assert (D3 : x / 16777216 = a).
  { symmetry; apply (Z.div_unique x 16777216 _ (b * 65536 + c * 256 + d));
      [left; lia | unfold x; lia]. }
  rewrite E0, D1, D2, D3.
  assert (E1 : (a * 65536 + b * 256 + c) mod 256 = c).
  { symmetry; apply (Z.mod_unique _ 256 (a * 256 + b) c); [left; lia | lia]. }
  assert (E2 : (a * 256 + b) mod 256 = b).
  { symmetry; apply (Z.mod_unique _ 256 a b); [left; lia | lia]. }
  rewrite E1, E2, (Z.mod_small a 256) by lia.
  reflexivity.
Qed.

Lemma bswap32_involutive x : 0 <= x < 4294967296 -> bswap32 (bswap32 x) = x.
Proof.
  intros Hx.
  pose proof (Z.mod_pos_bound x 256).
  pose proof (Z.mod_pos_bound (x / 256) 256).
  pose proof (Z.mod_pos_bound (x / 65536) 256).
  assert (H3 : 0 <= x / 16777216 < 256).
  { split; [apply Z.div_pos; lia | apply Z.div_lt_upper_bound; lia]. }
  assert (B : bswap32 x = (x mod 256) * 16777216 + (x / 256 mod 256) * 65536
                          + (x / 65536 mod 256) * 256 + x / 16777216).
  { unfold bswap32; now rewrite (Z.mod_small (x / 16777216) 256). }
  rewrite B, bswap32_bytes by lia.
  assert (x / 256 / 256 = x / 65536) by
    (rewrite Z.div_div by lia; reflexivity).
  assert (x / 65536 / 256 = x / 16777216) by
    (rewrite Z.div_div by lia; reflexivity).
  pose proof (Z.div_mod x 256); pose proof (Z.div_mod (x / 256) 256);
    pose proof (Z.div_mod (x / 65536) 256); lia.
Qed.

Lemma htonl_range x : 0 <= htonl x < 4294967296.
Proof.
  unfold htonl; destruct endian; [apply bswap32_range | apply uint32_range].
Qed.

Lemma ntohl_range x : 0 <= ntohl x < 4294967296.
Proof. apply htonl_range. Qed.

Lemma ntohl_htonl x : 0 <= x < 4294967296 -> ntohl (htonl x) = x.
Proof.
  intros Hx; unfold ntohl, htonl; destruct endian.
  - rewrite (uint32_small x), (uint32_small (bswap32 x)) by
      (auto using bswap32_range).
    now apply bswap32_involutive.
  - rewrite (uint32_small x) by assumption; now apply uint32_small.
Qed.

(** ** Timestamp codec *)



Lemma carry_usec_neg fuel sec usec :
  usec < 1000000 -> carry_usec fuel sec usec = mk_tv sec usec.
Proof.
  intros H; destruct fuel; simpl; auto.
  destruct (1000000 <=? usec) eqn:E; auto. apply Z.leb_le in E; lia.
Qed.


(** The two fields [maketime] packs do not overlap. *)
Lemma lor_fields a b :
  0 <= a -> 0 <= b < 2 ^ 28 -> Z.lor (Z.shiftl a 28) b = a * 2 ^ 28 + b.
Proof.
  intros Ha Hb.
  assert (L : Z.land (Z.shiftl a 28) b = 0).
  { apply Z.bits_inj'; intros k Hk.
    rewrite Z.land_spec, Z.bits_0.
    destruct (Z_lt_le_dec k 28).
    - rewrite Z.shiftl_spec_low by lia; reflexivity.
    - rewrite <- (Z.mod_small b (2 ^ 28)) by lia.
      rewrite Z.mod_pow2_bits_high by lia. apply andb_false_r. }
  pose proof (Z.add_lor_land (Z.shiftl a 28) b) as E.
  rewrite L in E. rewrite Z.shiftl_mul_pow2 in * by lia. lia.
Qed.

Lemma usec_field u :
  Z.shiftr (Z.land u 0xFFFFFFF0) 4 = (u / 16) mod 2 ^ 28.
Proof.
  rewrite Z.shiftr_land.
  change (Z.shiftr 0xFFFFFFF0 4) with (Z.ones 28).
  rewrite Z.land_ones, Z.shiftr_div_pow2 by lia. reflexivity.
Qed.

Lemma sec_field s : Z.land s 0xF = s mod 16.
Proof. change 0xF with (Z.ones 4). now rewrite Z.land_ones by lia. Qed.

(** The host-order value [maketime] encodes. *)
Lemma ntohl_maketime tv :
  ntohl (maketime tv)
  = (tv_sec tv mod 16) * 2 ^ 28 + (tv_usec tv / 16) mod 2 ^ 28.
Proof.
  unfold maketime.
  pose proof (Z.mod_pos_bound (tv_sec tv) 16).
  pose proof (Z.mod_pos_bound (tv_usec tv / 16) (2 ^ 28)).
  rewrite usec_field, sec_field, lor_fields by lia.
  apply ntohl_htonl. lia.
Qed.

Lemma high_field v : 0 <= v < 4294967296 ->
  Z.shiftr (Z.land v 0xF0000000) 28 = v / 2 ^ 28.
Proof.
  intros H. rewrite Z.shiftr_land.
  change (Z.shiftr 0xF0000000 28) with (Z.ones 4).
  rewrite Z.land_ones, Z.shiftr_div_pow2 by lia.
  apply Z.mod_small. split; [apply Z.div_pos; lia|].
  apply Z.div_lt_upper_bound; lia.
Qed.

Lemma low_field v : Z.shiftl (Z.land v 0x0FFFFFFF) 4 = (v mod 2 ^ 28) * 16.
Proof.
  change 0x0FFFFFFF with (Z.ones 28).
  rewrite Z.land_ones, Z.shiftl_mul_pow2 by lia. reflexivity.
Qed.

(** [timeval] in terms of the host-order value it decodes. *)
Lemma timeval_unfold val :
  timeval val
  = let v := ntohl val in
    let ret := carry_usec 4295 (v / 2 ^ 28) (slong ((v mod 2 ^ 28) * 16)) in
    if 2 <? tv_sec ret then mk_tv 2 0 else ret.
Proof.
  unfold timeval. cbv zeta.
  pose proof (ntohl_range val) as Hv.
  rewrite high_field, low_field by assumption.
  assert (0 <= ntohl val / 2 ^ 28 < 16).
  { split; [apply Z.div_pos; lia | apply Z.div_lt_upper_bound; lia]. }
  pose proof (Z.mod_pos_bound (ntohl val) (2 ^ 28)).
  rewrite !uint32_small by lia.
  rewrite (slong_small (ntohl val / 2 ^ 28)) by lia.
  reflexivity.
Qed.


(** A reading encoded and decoded again; [usec] is below one second as
    [gettimeofday] returns it. *)
Lemma timeval_maketime sec usec :
  0 <= usec < 1000000 ->
  timeval (maketime (mk_tv sec usec))
  = if 2 <? sec mod 16 then mk_tv 2 0
    else mk_tv (sec mod 16) (16 * (usec / 16)).
Proof.
  intros Hu. rewrite timeval_unfold; cbv zeta.
  rewrite ntohl_maketime; cbn [tv_sec tv_usec].
  pose proof (Z.mod_pos_bound sec 16) as Hs.
  assert (Hq : 0 <= usec / 16 < 62500).
  { split; [apply Z.div_pos; lia | apply Z.div_lt_upper_bound; lia]. }
  rewrite (Z.mod_small (usec / 16)) by lia.
  set (v := sec mod 16 * 2 ^ 28 + usec / 16).
  assert (Eh : v / 2 ^ 28 = sec mod 16).
  { symmetry; apply (Z.div_unique v (2 ^ 28) _ (usec / 16));
      [left; lia | unfold v; lia]. }
  assert (El : v mod 2 ^ 28 = usec / 16).
  { symmetry; apply (Z.mod_unique v (2 ^ 28) (sec mod 16) _);
      [left; lia | unfold v; lia]. }
  rewrite Eh, El, slong_small by lia.
  rewrite carry_usec_neg by lia. cbn [tv_sec].
  destruct (2 <? sec mod 16); [reflexivity | f_equal; lia].
Qed.

(** ** In-flight table: [get_packet], [add_packet], [rm_packet] *)

Lemma get_packet_none_filter l port :
  get_packet l port = None -> filter (fun e => dport e =? port) l = [].
Proof.
  induction l as [|e l IH]; cbn; [reflexivity|].
  destruct (dport e =? port); [discriminate | exact IH].
Qed.

Lemma get_packet_some_port l port e :
  get_packet l port = Some e -> dport e = port /\ In e l.
Proof.
  induction l as [|x l IH]; cbn; [discriminate|].
  destruct (dport x =? port) eqn:E.
  - intros [= ->]. apply Z.eqb_eq in E. auto.
  - intros H. destruct (IH H). auto.
Qed.

Lemma get_packet_touch l port ack e :
  get_packet l port = Some e ->
  get_packet (touch_packet l port ack) port
  = Some (mk_packet port ack (retries e + 1)).
Proof.
  induction l as [|x l IH]; cbn; [discriminate|].
  destruct (dport x =? port) eqn:E.
  - intros [= ->]. cbn. rewrite E. apply Z.eqb_eq in E. now rewrite E.
  - intros H. cbn. rewrite E. auto.
Qed.

Lemma get_packet_touch_other l port ack q :
  q <> port ->
  get_packet (touch_packet l port ack) q = get_packet l q.
Proof.
  intros Hq. induction l as [|x l IH]; cbn; [reflexivity|].
  destruct (dport x =? port) eqn:E.
  - apply Z.eqb_eq in E. cbn.
    destruct (dport x =? q) eqn:F; [apply Z.eqb_eq in F; lia | reflexivity].
  - cbn. destruct (dport x =? q); [reflexivity | exact IH].
Qed.

Lemma touch_packet_ports l port ack :
  map dport (touch_packet l port ack) = map dport l.
Proof.
  induction l as [|x l IH]; cbn; [reflexivity|].
  destruct (dport x =? port); cbn; [reflexivity | now rewrite IH].
Qed.

Lemma entries_for_ports l l' port :
  map dport l = map dport l' -> entries_for l port = entries_for l' port.
Proof.
  unfold entries_for. revert l'.
  induction l as [|x l IH]; intros [|y l']; cbn; try discriminate; auto.
  intros [= E1 E2]. rewrite E1.
  destruct (dport y =? port); cbn; auto.
Qed.

(** C10 (as amended).  For every table [t] that holds no entry for the
    port [p], and timestamps [w1], [w2], [add (add (t, p, w1), p, w2)] is
    [t] with one entry put in front, and this is its only entry for [p],
    with retry count 1 and [when = w2].  If [t] already holds an entry for
    [p], with retry count [r], the entry found for [p] after the two calls
    has retry count [r + 2].  More generally, [add] increments the retry
    count and overwrites [when] if an entry for the port exists (leaving
    the number of entries per port and the entries of other ports as they
    are), and otherwise puts a fresh entry with retry count 0 in front. *)
Theorem add_twice_fresh_port t p w1 w2 :
  (get_packet t p = None ->
   add_packet (add_packet t p w1) p w2 = mk_packet p w2 1 :: t
   /\ entries_for (add_packet (add_packet t p w1) p w2) p = 1%nat
   /\ get_packet (add_packet (add_packet t p w1) p w2) p
      = Some (mk_packet p w2 1))
  /\ (forall e, get_packet t p = Some e ->
      get_packet (add_packet (add_packet t p w1) p w2) p
      = Some (mk_packet p w2 (retries e + 2)))
  /\ (forall e, get_packet t p = Some e ->
      get_packet (add_packet t p w1) p
      = Some (mk_packet p w1 (retries e + 1))
      /\ (forall q, entries_for (add_packet t p w1) q = entries_for t q)
      /\ (forall q, q <> p ->
          get_packet (add_packet t p w1) q = get_packet t q))
  /\ (get_packet t p = None -> add_packet t p w1 = mk_packet p w1 0 :: t).
Proof.
  split; [|split; [|split]].
  - intros H.
    assert (E0 : add_packet t p w1 = mk_packet p w1 0 :: t)
      by (unfold add_packet; now rewrite H).
    rewrite E0.
    assert (E : add_packet (mk_packet p w1 0 :: t) p w2 = mk_packet p w2 1 :: t).
    { unfold add_packet. cbn [get_packet touch_packet dport retries].
      now rewrite Z.eqb_refl. }
    rewrite E. unfold entries_for. cbn [get_packet filter dport].
    rewrite Z.eqb_refl.
    rewrite get_packet_none_filter by assumption. auto.
  - intros e H. unfold add_packet at 2. rewrite H.
    pose proof (get_packet_touch t p w1 e H) as H1.
    unfold add_packet. rewrite H1.
    rewrite (get_packet_touch _ p w2 _ H1). cbn. do 2 f_equal. lia.
  - intros e H. unfold add_packet. rewrite H.
    split; [now apply get_packet_touch|]. split.
    + intros q. apply entries_for_ports, touch_packet_ports.
    + intros q Hq. now apply get_packet_touch_other.
  - intros H. unfold add_packet. now rewrite H.
Qed.

(** ** Sweep *)


Lemma readings_succ s k :
  readings s (S k) = clock s (ticks s) :: readings (advance s 1) k.
Proof.
  unfold readings. cbn [seq map]. f_equal.
  rewrite <- seq_shift, map_map. apply map_ext. intros i.
  cbn. f_equal. lia.
Qed.

Lemma advance_advance s k : advance (advance s 1) k = advance s (S k).
Proof. unfold advance. cbn. f_equal. lia. Qed.

Lemma advance_0 s : advance s 0 = s.
Proof. destruct s; reflexivity. Qed.

Lemma last_cons {A} (a : A) l d : last (a :: l) d = last l a.
Proof.
  revert a d. induction l as [|b l IH]; intros a d; [reflexivity|].
  change (last (a :: b :: l) d) with (last (b :: l) d).
  now rewrite !IH.
Qed.


(** The traversal computes the specification's sweep, whatever value
    [*retry] holds when it starts. *)
Lemma rm_dead_packets_from_spec l : forall rtt retry s,
  rm_dead_packets_from l rtt retry s
  = (sweep_spec (expired rtt) rtt retry (combine l (readings s (length l))),
     advance s (length l)).
Proof.
  induction l as [|e l IH]; intros rtt retry s.
  - cbn. now rewrite advance_0.
  - cbn [rm_dead_packets_from length]. rewrite readings_succ.
    unfold bind at 1.
    change (gettimeofday s) with (clock s (ticks s), advance s 1).
    cbv iota beta.
    unfold sweep_spec. cbn [combine filter map].
    unfold expired, retry_candidate, dead. cbn [fst snd].
    destruct (packetdead (clock s (ticks s)) (when e) rtt); cbn [andb negb].
    + destruct (retries e <? NUM_RETRIES); cbn [negb map].
      * unfold bind. rewrite IH, advance_advance. unfold ret, sweep_spec.
        cbn [fst]. now rewrite last_cons.
      * now rewrite IH, advance_advance.
    + unfold bind. rewrite IH, advance_advance. reflexivity.
Qed.







(** ** Unlinking nodes *)

Lemma sublist_refl {A} (l : list A) : sublist l l.
Proof. induction l; [apply sublist_nil | now apply sublist_keep]. Qed.

Lemma sublist_nil_l {A} (l : list A) : sublist [] l.
Proof. induction l; [apply sublist_nil | now apply sublist_skip]. Qed.

Lemma sublist_trans {A} (l1 l2 l3 : list A) :
  sublist l1 l2 -> sublist l2 l3 -> sublist l1 l3.
Proof.
  intros H12 H23. revert l1 H12.
  induction H23 as [|a l2 l3 _ IH|a l2 l3 _ IH]; intros l1 H12.
  - exact H12.
  - apply sublist_skip. auto.
  - inversion H12; subst; [apply sublist_skip | apply sublist_keep]; auto.
Qed.

Lemma sublist_In {A} (l l' : list A) x : sublist l l' -> In x l -> In x l'.
Proof. induction 1; cbn; intuition. Qed.

Lemma sublist_map {A B} (f : A -> B) l l' :
  sublist l l' -> sublist (map f l) (map f l').
Proof.
  induction 1; cbn;
    [apply sublist_nil | now apply sublist_skip | now apply sublist_keep].
Qed.

Lemma sublist_NoDup {A} (l l' : list A) : sublist l l' -> NoDup l' -> NoDup l.
Proof.
  induction 1 as [|a l l' H IH|a l l' H IH]; intros N.
  - constructor.
  - inversion N; auto.
  - inversion N; subst. constructor; auto.
    intros Hin. eauto using sublist_In.
Qed.

Lemma sublist_Forall {A} (Q : A -> Prop) l l' :
  sublist l l' -> Forall Q l' -> Forall Q l.
Proof.
  induction 1; intros F; auto; inversion F; subst; auto.
Qed.

Lemma rm_packet_sublist l port : sublist (rm_packet l port) l.
Proof.
  induction l as [|e l IH]; cbn; [apply sublist_nil|].
  destruct (dport e =? port);
    [apply sublist_skip, sublist_refl | now apply sublist_keep].
Qed.

Lemma table_ok_sublist strict l l' :
  sublist l l' -> table_ok strict l' -> table_ok strict l.
Proof.
  intros S [R B]. split; [eauto using sublist_Forall|].
  intros E. destruct (B E) as [N F]. split.
  - eapply sublist_NoDup; [apply sublist_map; eassumption | assumption].
  - eauto using sublist_Forall.
Qed.

(** ** Traces *)

Lemma grows_refl s : grows s s.
Proof. exists []. split; [reflexivity | constructor]. Qed.

Lemma grows_trans s1 s2 s3 : grows s1 s2 -> grows s2 s3 -> grows s1 s3.
Proof.
  intros (n1 & E1 & Q1) (n2 & E2 & Q2). exists (n2 ++ n1). split.
  - now rewrite E2, E1, app_assoc.
  - apply Forall_app; auto.
Qed.

Lemma grows_step s s' e :
  trace s' = e :: trace s -> quiet e -> grows s s'.
Proof. intros E Q. exists [e]. split; [exact E | repeat constructor; exact Q]. Qed.

Lemma grows_same s s' : trace s' = trace s -> grows s s'.
Proof. intros E. exists []. split; [exact E | constructor]. Qed.

Lemma sent_app p new tr : sent p tr -> sent p (new ++ tr).
Proof.
  intros (seq & r & H & Hr). exists seq, r. split; [|exact Hr].
  apply in_or_app; auto.
Qed.

Lemma grows_sent s s' p : grows s s' -> sent p (trace s) -> sent p (trace s').
Proof. intros (new & -> & _). apply sent_app. Qed.

Lemma hist_ok_app strict new tr :
  Forall quiet new -> hist_ok strict tr -> hist_ok strict (new ++ tr).
Proof.
  induction 1 as [|e new Q _ IH]; intros H; cbn; [exact H|].
  destruct e; cbn in Q; try contradiction; auto.
Qed.

Lemma grows_hist_ok strict s s' :
  grows s s' -> hist_ok strict (trace s) -> hist_ok strict (trace s').
Proof. intros (new & -> & Q). now apply hist_ok_app. Qed.

(** Every recorded table of a good history is good, and a SYN went out
    for each of its entries before it was recorded. *)
Lemma hist_ok_snapshot strict tr : forall newer l older,
  hist_ok strict tr -> tr = newer ++ Snapshot l :: older ->
  table_ok strict l /\ forall p, In p (map dport l) -> sent p older.
Proof.
  induction tr as [|e tr IH]; intros newer l older H E.
  - destruct newer; discriminate.
  - destruct newer as [|e' newer]; cbn in E.
    + injection E as -> ->. cbn in H. tauto.
    + injection E as -> E. apply (IH newer l older); [|exact E].
      destruct e'; cbn in H; tauto.
Qed.

(** ** The sending routine keeps to the table protocol *)

Lemma rm_dead_packets_from_post l : forall rtt retry s l' retry' s',
  rm_dead_packets_from l rtt retry s = (l', retry', s') ->
  sublist l' l
  /\ trace s' = trace s
  /\ (retry' = retry
      \/ exists e, In e l' /\ dport e = retry' /\ retries e < NUM_RETRIES).
Proof.
  induction l as [|e l IH]; intros rtt retry s l' retry' s' E.
  - cbn in E. injection E as <- <- <-. repeat split; auto. apply sublist_nil.
  - cbn [rm_dead_packets_from] in E. unfold bind at 1 in E.
    change (gettimeofday s) with (clock s (ticks s), advance s 1) in E.
    cbv iota beta in E.
    destruct (packetdead (clock s (ticks s)) (when e) rtt).
    + destruct (retries e <? NUM_RETRIES) eqn:R.
      * unfold bind in E.
        destruct (rm_dead_packets_from l rtt (dport e) (advance s 1))
          as [[l1 r1] s1] eqn:E1.
        apply IH in E1. destruct E1 as (S & T & C).
        injection E as <- <- <-.
        split; [now apply sublist_keep|]. split; [exact T|].
        right. destruct C as [-> | (e' & I & D & B)].
        -- exists e. apply Z.ltb_lt in R. cbn; auto.
        -- exists e'. cbn; auto.
      * apply IH in E. destruct E as (S & T & C).
        split; [now apply sublist_skip|]. split; [exact T | exact C].
    + unfold bind in E.
      destruct (rm_dead_packets_from l rtt retry (advance s 1))
        as [[l1 r1] s1] eqn:E1.
      apply IH in E1. destruct E1 as (S & T & C).
      injection E as <- <- <-.
      split; [now apply sublist_keep|]. split; [exact T|].
      destruct C as [-> | (e' & I & D & B)]; [now left|].
      right. exists e'. cbn; auto.
Qed.

Lemma reply_post ack res packets rtt s packets' rtt' s' :
  reply ack res packets rtt s = (packets', rtt', s') ->
  sublist packets' packets /\ grows s s'.
Proof.
  unfold reply, bind. destruct (issynack res AF_INET); cbn;
    intros E; injection E as <- <- <-.
  - split; [apply rm_packet_sublist|].
    eexists [_; _]. cbn. split; [reflexivity | repeat constructor].
  - split; [apply rm_packet_sublist | apply grows_refl].
Qed.

Lemma drain_post frames : forall ack rtt_tv packets rtt s packets' rtt' s',
  drain frames ack rtt_tv packets rtt s = (packets', rtt', s') ->
  sublist packets' packets /\ grows s s'.
Proof.
  induction frames as [|[res|] rest IH];
    intros ack rtt_tv packets rtt s packets' rtt' s' E.
  - cbn in E. injection E as <- <- <-. split; [apply sublist_refl|].
    eapply grows_step; [reflexivity | exact I].
  - cbn [drain] in E. unfold bind at 1 2 3 in E. cbn [emit set_captured] in E.
    match type of E with
    | context [reply ack res packets rtt ?s0] =>
        destruct (reply ack res packets rtt s0) as [[p1 r1] s1] eqn:E1
    end.
    apply reply_post in E1. destruct E1 as [S G].
    apply IH in E. destruct E as [S' G'].
    split; [eauto using sublist_trans|].
    eapply grows_trans; [|exact G'].
    eapply grows_trans; [|exact G].
    eapply grows_step; [reflexivity | exact I].
  - cbn in E. injection E as <- <- <-. split; [apply sublist_refl|].
    eapply grows_step; [reflexivity | exact I].
Qed.

Lemma probe_post port ack packets s failed packets1 s1 :
  probe port ack packets s = (failed, packets1, s1) ->
  grows s s1
  /\ (failed = false ->
      packets1 = (if port =? 0 then packets
                  else add_packet packets (ushort port) ack)
      /\ (port <> 0 -> sent (ushort port) (trace s1))).
Proof.
  unfold probe. destruct (port =? 0) eqn:Z0; cbn [negb].
  - intros E. injection E as <- <- <-. split; [now apply grows_same|].
    intros _. split; [reflexivity|]. apply Z.eqb_eq in Z0. tauto.
  - unfold bind, sendto.
    destruct (sendto_result s (sends s) <? 0) eqn:F; cbn;
      intros E; injection E as <- <- <-.
    + split; [|discriminate].
      eexists [_; _; _]. cbn. split; [reflexivity | repeat constructor].
    + split; [eapply grows_step; [reflexivity | exact I]|].
      intros _. split; [reflexivity|]. intros _.
      eexists _, _. split; [left; reflexivity|]. apply Z.ltb_ge in F. exact F.
Qed.

Lemma sendpacket_post port packets rtt sniff s packets' rtt' s' :
  sendpacket port packets rtt sniff s = (packets', rtt', s') ->
  grows s s'
  /\ sublist packets'
       (if port =? 0 then packets
        else add_packet packets (ushort port) (maketime (clock s (ticks s))))
  /\ (packets' <> [] -> port <> 0 -> sent (ushort port) (trace s')).
Proof.
  unfold sendpacket. unfold bind at 1.
  change (gettimeofday s) with (clock s (ticks s), advance s 1).
  cbv iota beta zeta. unfold bind at 1.
  destruct (probe port (maketime (clock s (ticks s))) packets (advance s 1))
    as [[failed packets1] s1] eqn:E1.
  apply probe_post in E1. destruct E1 as [G1 H1].
  assert (G0 : grows s s1)
    by (eapply grows_trans; [apply grows_same; reflexivity | exact G1]).
  clear G1.
  destruct failed.
  - intros E. injection E as <- <- <-.
    split; [exact G0|]. split; [apply sublist_nil_l | tauto].
  - destruct (H1 eq_refl) as [-> Hs].
    destruct (negb (sniff =? 0)).
    + unfold bind, pending. intros E. apply drain_post in E.
      destruct E as [S G]. split; [eauto using grows_trans|].
      split; [exact S|]. intros _ Hp. eauto using grows_sent.
    + intros E. injection E as <- <- <-.
      split; [exact G0|]. split; [apply sublist_refl | auto].
Qed.

Lemma v6_sendpacket_post port packets rtt sniff s packets' rtt' s' :
  v6_sendpacket port packets rtt sniff s = (packets', rtt', s') ->
  grows s s'
  /\ sublist packets'
       (if port =? 0 then packets
        else add_packet packets (ushort port) (maketime (clock s (ticks s))))
  /\ (packets' <> [] -> port <> 0 -> sent (ushort port) (trace s')).
Proof.
  unfold v6_sendpacket. unfold bind at 1.
  change (gettimeofday s) with (clock s (ticks s), advance s 1).
  cbv iota beta zeta. unfold bind at 1.
  destruct (probe port (maketime (clock s (ticks s))) packets (advance s 1))
    as [[failed packets1] s1] eqn:E1.
  apply probe_post in E1. destruct E1 as [G1 H1].
  assert (G0 : grows s s1)
    by (eapply grows_trans; [apply grows_same; reflexivity | exact G1]).
  clear G1.
  destruct failed.
  - intros E; inversion E; subst; clear E.
    split; [exact G0|]. split; [apply sublist_nil_l | tauto].
  - destruct (H1 eq_refl) as [-> Hs].
    destruct (negb (sniff =? 0)).
    + unfold capture_call, bind, emit, next_frame, ret. cbn [captured].
      destruct (captured s1) as [|[res|] rest].
      * cbn. intros E; inversion E; subst; clear E.
        assert (G2 : grows s1 (mk_state (clock s1) (ticks s1)
                       (sendto_result s1) (sends s1) [] (rawsocket_result s1)
                       (openbpf_result s1) (Bpf_next :: trace s1)))
          by (eapply grows_step; [reflexivity | exact I]).
        split; [eauto using grows_trans|].
        split; [apply sublist_refl|]. intros _ Hp. eauto using grows_sent.
      * destruct (issynack res AF_INET6); cbn;
          intros E; inversion E; subst; clear E.
        -- match goal with
           | |- grows s ?s2 /\ _ =>
               assert (G2 : grows s1 s2)
                 by (eexists [_; _; _]; cbn; split;
                     [reflexivity | repeat constructor])
           end.
           split; [eauto using grows_trans|].
           split; [apply rm_packet_sublist|]. intros _ Hp.
           eauto using grows_sent.
        -- match goal with
           | |- grows s ?s2 /\ _ =>
               assert (G2 : grows s1 s2)
                 by (eapply grows_step; [reflexivity | exact I])
           end.
           split; [eauto using grows_trans|].
           split; [apply rm_packet_sublist|]. intros _ Hp.
           eauto using grows_sent.
      * cbn. intros E; inversion E; subst; clear E.
        match goal with
        | |- grows s ?s2 /\ _ =>
            assert (G2 : grows s1 s2)
              by (eapply grows_step; [reflexivity | exact I])
        end.
        split; [eauto using grows_trans|].
        split; [apply sublist_refl|]. intros _ Hp. eauto using grows_sent.
    + intros E; inversion E; subst; clear E.
      split; [exact G0|]. split; [apply sublist_refl | auto].
Qed.

(** ** [add_packet] keeps a good table good *)

Lemma get_packet_in_ports l port e :
  get_packet l port = Some e -> In port (map dport l).
Proof.
  intros H. destruct (get_packet_some_port _ _ _ H) as [<- I].
  now apply in_map.
Qed.

Lemma get_packet_NoDup l e :
  NoDup (map dport l) -> In e l -> get_packet l (dport e) = Some e.
Proof.
  induction l as [|x l IH]; cbn; [contradiction|].
  intros N [-> | I].
  - now rewrite Z.eqb_refl.
  - inversion N as [|? ? Nx Nl]; subst.
    destruct (dport x =? dport e) eqn:E; [|auto].
    apply Z.eqb_eq in E. exfalso. apply Nx. rewrite E. now apply in_map.
Qed.

Lemma touch_packet_Forall (Q : packet -> Prop) l port ack :
  Forall Q l ->
  (forall e, get_packet l port = Some e ->
             Q (mk_packet (dport e) ack (retries e + 1))) ->
  Forall Q (touch_packet l port ack).
Proof.
  induction 1 as [|x l Qx F IH]; cbn; [constructor|].
  destruct (dport x =? port); intros H; constructor; auto.
Qed.

Lemma add_packet_ports l port ack p :
  In p (map dport (add_packet l port ack)) -> p = port \/ In p (map dport l).
Proof.
  unfold add_packet. destruct (get_packet l port).
  - rewrite touch_packet_ports. auto.
  - cbn. intuition.
Qed.

Lemma add_packet_table_ok strict l port ack :
  table_ok strict l -> 0 < port < 65536 ->
  (strict = true ->
   forall e, get_packet l port = Some e -> retries e < NUM_RETRIES) ->
  table_ok strict (add_packet l port ack).
Proof.
  intros [R B] Hp Hr. unfold add_packet.
  destruct (get_packet l port) as [e|] eqn:G.
  - split.
    + apply touch_packet_Forall; [exact R|].
      intros e' G'. cbn. rewrite Forall_forall in R.
      apply R. now destruct (get_packet_some_port _ _ _ G').
    + intros E. destruct (B E) as [N F]. split.
      * now rewrite touch_packet_ports.
      * apply touch_packet_Forall; [exact F|].
        intros e' G'. cbn. rewrite G in G'. specialize (Hr E e' G'). lia.
  - split.
    + constructor; [exact Hp | exact R].
    + intros E. destruct (B E) as [N F]. split.
      * cbn. constructor; [|exact N].
        intros I. apply in_map_iff in I. destruct I as (x & Dx & Ix).
        pose proof (get_packet_NoDup l x N Ix) as Gx.
        rewrite Dx in Gx. congruence.
      * constructor; [cbn; unfold NUM_RETRIES; lia | exact F].
Qed.

Lemma ushort_small x : 0 <= x < 65536 -> ushort x = x.
Proof. intros H. unfold ushort. now apply Z.mod_small. Qed.

(** ** [scan] keeps its history good *)

Lemma send_inv strict fam port packets rtt sniff s packets' rtt' s' :
  send fam port packets rtt sniff s = (packets', rtt', s') ->
  scan_inv strict packets s -> port_ok strict port packets ->
  scan_inv strict packets' s'
  /\ (forall p, In p (map dport packets') ->
                p = port \/ In p (map dport packets)).
Proof.
  intros E (T & Se & H) Hp.
  assert (Post : grows s s'
    /\ sublist packets'
         (if port =? 0 then packets
          else add_packet packets (ushort port)
                 (maketime (clock s (ticks s))))
    /\ (packets' <> [] -> port <> 0 -> sent (ushort port) (trace s'))).
  { destruct fam; [now apply sendpacket_post in E
                  | now apply v6_sendpacket_post in E]. }
  clear E. destruct Post as (G & Sub & Snt).
  destruct (port =? 0) eqn:Z0.
  - assert (W : forall p, In p (map dport packets') -> In p (map dport packets))
      by (intros p; apply sublist_In, sublist_map, Sub).
    split; [|auto]. split; [eauto using table_ok_sublist|].
    split; [|eauto using grows_hist_ok].
    intros p I. eauto using grows_sent.
  - apply Z.eqb_neq in Z0. destruct Hp as [-> | [Hr Hf]]; [lia|].
    rewrite ushort_small in * by lia.
    set (ack := maketime (clock s (ticks s))) in *.
    assert (W : forall p, In p (map dport packets') ->
                          p = port \/ In p (map dport packets)).
    { intros p I. apply (add_packet_ports packets port ack).
      revert I. apply sublist_In, sublist_map, Sub. }
    split; [|exact W]. split.
    + eapply table_ok_sublist; [exact Sub|].
      now apply add_packet_table_ok.
    + split; [|eauto using grows_hist_ok].
      intros p I. destruct (W p I) as [-> | I'].
      * apply Snt; [|exact Z0]. intros ->. contradiction.
      * eauto using grows_sent.
Qed.

Lemma assign_post {A} (m : M (list packet * A)) s packets' a s' :
  assign m s = (packets', a, s') ->
  exists s1, m s = (packets', a, s1)
             /\ trace s' = Snapshot packets' :: trace s1.
Proof.
  unfold assign, bind, emit, ret. destruct (m s) as [[l x] s1]. cbn.
  intros E; inversion E; subst; clear E. eauto.
Qed.

Lemma scan_inv_snapshot strict packets s1 s' :
  trace s' = Snapshot packets :: trace s1 ->
  scan_inv strict packets s1 -> scan_inv strict packets s'.
Proof.
  intros E (T & Se & H). unfold scan_inv. rewrite E.
  split; [exact T|]. split.
  - intros p I. apply (sent_app p [_]), Se, I.
  - cbn. auto.
Qed.

Lemma rm_dead_packets_inv strict packets rtt s packets' retry s' :
  rm_dead_packets packets rtt s = (packets', retry, s') ->
  scan_inv strict packets s ->
  scan_inv strict packets' s'
  /\ (retry = 0
      \/ exists e, In e packets' /\ dport e = retry
                   /\ retries e < NUM_RETRIES).
Proof.
  intros E (T & Se & H). apply rm_dead_packets_from_post in E.
  destruct E as (Sub & Tr & C). split; [|exact C].
  unfold scan_inv. rewrite Tr.
  split; [eauto using table_ok_sublist|]. split; [|exact H].
  intros p I. apply Se. revert I. apply sublist_In, sublist_map, Sub.
Qed.

(** A retry port handed out by the sweep may be sent to. *)
Lemma retry_port_ok strict packets retry :
  table_ok strict packets ->
  (retry = 0
   \/ exists e, In e packets /\ dport e = retry /\ retries e < NUM_RETRIES) ->
  port_ok strict retry packets.
Proof.
  intros [R B] [-> | (e & I & D & L)]; [now left|]. right. split.
  - rewrite Forall_forall in R. rewrite <- D. now apply R.
  - intros E e' G. destruct (B E) as [N _].
    rewrite <- D, (get_packet_NoDup _ _ N I) in G. congruence.
Qed.

Lemma scan_inv_grows strict packets s s' :
  grows s s' -> scan_inv strict packets s -> scan_inv strict packets s'.
Proof.
  intros G (T & Se & H). split; [exact T|].
  split; [|eauto using grows_hist_ok]. intros p I. eauto using grows_sent.
Qed.

Lemma assign_send_inv strict fam port packets rtt sniff s packets' rtt' s' :
  assign (send fam port packets rtt sniff) s = (packets', rtt', s') ->
  scan_inv strict packets s -> port_ok strict port packets ->
  scan_inv strict packets' s'
  /\ (forall p, In p (map dport packets') ->
                p = port \/ In p (map dport packets)).
Proof.
  intros E Inv Hp. apply assign_post in E. destruct E as (s1 & E & Tr).
  destruct (send_inv strict _ _ _ _ _ _ _ _ _ E Inv Hp) as [Inv1 W].
  split; [eauto using scan_inv_snapshot | exact W].
Qed.

Lemma assign_sweep_inv strict packets rtt s packets' retry s' :
  assign (rm_dead_packets packets rtt) s = (packets', retry, s') ->
  scan_inv strict packets s ->
  scan_inv strict packets' s' /\ port_ok strict retry packets'.
Proof.
  intros E Inv. apply assign_post in E. destruct E as (s1 & E & Tr).
  destruct (rm_dead_packets_inv strict _ _ _ _ _ _ E Inv) as [Inv1 C].
  split; [eauto using scan_inv_snapshot|].
  destruct Inv1 as [T _]. now apply retry_port_ok.
Qed.

Lemma fresh_port_ok strict port packets :
  0 <= port < 65536 ->
  (strict = true -> ~ In port (map dport packets)) ->
  port_ok strict port packets.
Proof.
  intros R F. destruct (Z.eq_dec port 0) as [-> | N]; [now left|].
  right. split; [lia|]. intros E e G. exfalso.
  apply (F E). eauto using get_packet_in_ports.
Qed.

Lemma list_pair_ind {A} (Q : list A -> Prop) :
  Q [] -> (forall a, Q [a]) -> (forall a b l, Q l -> Q (a :: b :: l)) ->
  forall l, Q l.
Proof.
  intros Q0 Q1 Q2 l.
  assert (H : Q l /\ forall a, Q (a :: l)); [|tauto].
  induction l as [|b l [IH1 IH2]]; auto.
Qed.

Lemma scan_ports_inv strict fam ports :
  forall i num packets rtt s packets' rtt' s',
  scan_ports fam ports i num packets rtt s = (packets', rtt', s') ->
  Forall (fun p => 0 <= p < 65536) ports ->
  (strict = true ->
   NoDup ports /\ forall p, In p (map dport packets) -> ~ In p ports) ->
  scan_inv strict packets s -> scan_inv strict packets' s'.
Proof.
  induction ports as [|p0|p0 p1 rest IH] using list_pair_ind;
    intros i num packets rtt s packets' rtt' s' E R F Inv.
  - cbn in E. inversion E; subst. exact Inv.
  - cbn [scan_ports] in E. unfold bind at 1 in E.
    destruct ((if Z.rem i 100 =? 0 then emit (Comm_send_status i num)
               else ret tt) s) as [u s0] eqn:E0.
    assert (G0 : grows s s0).
    { destruct (Z.rem i 100 =? 0); inversion E0; subst;
        [eapply grows_step; [reflexivity | exact I] | apply grows_refl]. }
    unfold bind at 1 in E.
    destruct (assign (send fam p0 packets rtt 0) s0) as [[l1 r1] s1] eqn:E1.
    cbn in E. inversion E; subst.
    eapply assign_send_inv; [exact E1 | eauto using scan_inv_grows|].
    inversion R; subst. apply fresh_port_ok; [assumption|].
    intros St I0. destruct (F St) as [_ Fr]. apply (Fr _ I0). now left.
  - cbn [scan_ports] in E. unfold bind at 1 in E.
    destruct ((if Z.rem i 100 =? 0 then emit (Comm_send_status i num)
               else ret tt) s) as [u s0] eqn:E0.
    assert (G0 : grows s s0).
    { destruct (Z.rem i 100 =? 0); inversion E0; subst;
        [eapply grows_step; [reflexivity | exact I] | apply grows_refl]. }
    unfold bind at 1 in E.
    destruct (assign (send fam p0 packets rtt 0) s0) as [[l1 r1] s1] eqn:E1.
    unfold bind at 1 in E.
    destruct (assign (send fam p1 l1 r1 1) s1) as [[l2 r2] s2] eqn:E2.
    inversion R as [|? ? R0 R']; subst. inversion R' as [|? ? R1 R'']; subst.
    destruct (assign_send_inv strict _ _ _ _ _ _ _ _ _ E1) as [Inv1 W1].
    { eauto using scan_inv_grows. }
    { apply fresh_port_ok; [assumption|].
      intros St I0. destruct (F St) as [_ Fr]. apply (Fr _ I0). now left. }
    destruct (assign_send_inv strict _ _ _ _ _ _ _ _ _ E2 Inv1) as [Inv2 W2].
    { apply fresh_port_ok; [assumption|].
      intros St I1. destruct (F St) as [N Fr].
      destruct (W1 _ I1) as [-> | I0].
      - inversion N as [|? ? N0 _]; subst. apply N0. now left.
      - apply (Fr _ I0). right. now left. }
    apply (IH _ _ _ _ _ _ _ _ E); [assumption| |assumption].
    intros St. destruct (F St) as [N Fr].
    inversion N as [|? ? N0 N']; subst. inversion N' as [|? ? N1 N'']; subst.
    split; [assumption|]. intros p I2 Ip.
    destruct (W2 _ I2) as [-> | I1]; [contradiction|].
    destruct (W1 _ I1) as [-> | I0].
    + apply N0. now right.
    + apply (Fr _ I0). now do 2 right.
Qed.

Lemma resend_inv strict left : forall retry packets rtt s packets' rtt' retry' s',
  resend left retry packets rtt s = (packets', rtt', retry', s') ->
  scan_inv strict packets s -> port_ok strict retry packets ->
  scan_inv strict packets' s' /\ port_ok strict retry' packets'.
Proof.
  induction left as [|left IH];
    intros retry packets rtt s packets' rtt' retry' s' E Inv Hp.
  - cbn in E. inversion E; subst. auto.
  - cbn [resend] in E. destruct (retry =? 0).
    + inversion E; subst. auto.
    + unfold bind at 1 in E.
      destruct (assign (sendpacket retry packets rtt 0) s)
        as [[l1 r1] s1] eqn:E1.
      unfold bind at 1 in E.
      destruct (assign (rm_dead_packets l1 r1) s1) as [[l2 y2] s2] eqn:E2.
      destruct (assign_send_inv strict AF_INET _ _ _ _ _ _ _ _ E1 Inv Hp)
        as [Inv1 _].
      destruct (assign_sweep_inv strict _ _ _ _ _ _ E2 Inv1) as [Inv2 Hp2].
      eauto.
Qed.

Lemma retry_loop_inv strict fuel : forall packets rtt s finished s',
  retry_loop fuel packets rtt s = (finished, s') ->
  scan_inv strict packets s -> hist_ok strict (trace s').
Proof.
  induction fuel as [|fuel IH]; intros packets rtt s finished s' E Inv.
  - destruct packets; cbn in E; inversion E; subst; apply Inv.
  - destruct packets as [|e packets]; [inversion E; subst; apply Inv|].
    cbn [retry_loop] in E. unfold bind at 1 in E.
    destruct (assign (rm_dead_packets (e :: packets) rtt) s)
      as [[l1 y1] s1] eqn:E1.
    unfold bind at 1 in E.
    destruct (resend 2 y1 l1 rtt s1) as [[[l2 r2] y2] s2] eqn:E2.
    unfold bind at 1 in E.
    destruct (assign (sendpacket y2 l2 r2 1) s2) as [[l3 r3] s3] eqn:E3.
    destruct (assign_sweep_inv strict _ _ _ _ _ _ E1 Inv) as [Inv1 Hp1].
    destruct (resend_inv strict _ _ _ _ _ _ _ _ _ E2 Inv1 Hp1) as [Inv2 Hp2].
    destruct (assign_send_inv strict AF_INET _ _ _ _ _ _ _ _ E3 Inv2 Hp2)
      as [Inv3 _].
    eauto.
Qed.

(** Whatever the environment does, the history of [scan] is good: always
    for the port range of the entries, and also for their uniqueness and
    retry counts ([strict]) when no port is listed twice. *)
Lemma scan_hist_ok strict fam ports rtt fuel s :
  Forall (fun p => 0 <= p < 65536) ports ->
  (strict = true -> NoDup ports) ->
  hist_ok strict (trace s) ->
  hist_ok strict (trace (snd (scan fam ports rtt fuel s))).
Proof.
  intros R N H. unfold scan. unfold bind at 1. unfold rawsocket at 1.
  destruct (rawsocket_result s <? 0); [exact H|].
  unfold bind at 1. unfold openbpf at 1. unfold bind at 1.
  destruct (scan_ports fam ports 0 (Z.of_nat (length ports)) [] rtt s)
    as [[l1 r1] s1] eqn:E1.
  assert (Inv1 : scan_inv strict l1 s1).
  { apply (scan_ports_inv strict _ _ _ _ _ _ _ _ _ _ E1 R).
    - intros St. split; [auto|]. intros p [].
    - split; [|split; [intros p [] | exact H]].
      split; [constructor|]. intros _. split; constructor. }
  unfold bind at 1.
  assert (Hf : forall finished s2,
             (match fam with
              | AF_INET => retry_loop fuel l1 r1
              | AF_INET6 => ret true
              end) s1 = (finished, s2) -> hist_ok strict (trace s2)).
  { intros finished s2 E2. destruct fam.
    - eapply retry_loop_inv; eassumption.
    - inversion E2; subst. apply Inv1. }
  destruct ((match fam with
             | AF_INET => retry_loop fuel l1 r1
             | AF_INET6 => ret true
             end) s1) as [finished s2] eqn:E2.
  specialize (Hf _ _ eq_refl).
  destruct finished; [|exact Hf].
  unfold bind, emit. cbn.
  destruct (65535 <=? Z.of_nat (length ports)); cbn; exact Hf.
Qed.

(** C5 (as amended).  When no port is listed twice in the port array (of
    [unsigned short] values), then whatever the environment does and
    however long the run lasts, every entry of every table [scan] holds --
    after each call of the sending routine and of the sweep, in the main
    pairwise loop and in the tail retry loop -- has a retry count of at
    most [NUM_RETRIES] (it may reach [NUM_RETRIES]), and a SYN for its
    port went out before. *)
Theorem retries_bounded_without_duplicates
  fam ports rtt fuel s newer l older e :
  NoDup ports -> Forall (fun p => 0 <= p < 65536) ports -> trace s = [] ->
  trace (snd (scan fam ports rtt fuel s)) = newer ++ Snapshot l :: older ->
  In e l ->
  retries e <= NUM_RETRIES /\ sent (dport e) older.
Proof.
  intros N R T E I.
  assert (H : hist_ok true (trace (snd (scan fam ports rtt fuel s)))).
  { apply scan_hist_ok; [exact R | auto | rewrite T; exact Logic.I]. }
  destruct (hist_ok_snapshot true _ _ _ _ H E) as [[_ B] Se].
  destruct (B eq_refl) as [_ F]. rewrite Forall_forall in F.
  split; [now apply F | now apply Se, in_map].
Qed.

(** ** Malformed frames *)

Lemma rm_packet_absent l port : get_packet l port = None -> rm_packet l port = l.
Proof.
  induction l as [|e l IH]; cbn; [reflexivity|].
  destruct (dport e =? port); [discriminate|]. intros H. now rewrite IH.
Qed.

Lemma no_port_0 l :
  Forall (fun e => 0 < dport e < 65536) l -> get_packet l 0 = None.
Proof.
  induction 1 as [|e l He _ IH]; cbn; [reflexivity|].
  destruct (dport e =? 0) eqn:E; [apply Z.eqb_eq in E; lia | exact IH].
Qed.

Lemma get_packet_none_sublist (l l' : list packet) port :
  sublist l l' -> get_packet l' port = None -> get_packet l port = None.
Proof.
  induction 1 as [|a l l' _ IH|a l l' _ IH]; cbn; auto;
    destruct (dport a =? port); auto; discriminate.
Qed.

(** A frame that [extracttcp] rejects, its captured length [len] being
    below the offset of the end of the TCP header, is ignored and the scan
    continues: [extractsport] returns 0 and [issynack] 0 on it, so on a
    table without an entry for port 0 the reply handling of [sendpacket]
    reports no port, sends no RST and leaves table, round-trip estimate
    and environment as they are, and the drain loop goes on with the next
    capture call.  The table never holds an entry for port 0: the sending
    block and the reply handling keep it so, and no table [scan] ever
    holds has one, the port array being of [unsigned short] values.  The
    test is on [len], which counts the datalink prefix too, although the
    frame starts behind the prefix. *)
Theorem malformed_frame_ignored :
  (forall f, 0 <= len f < 4294967296 ->
     (extracttcp f = None
      <-> len f < 4 * Z.land (byte_at (pkt f) 0) 0xF + sizeof_tcphdr))
  /\ (forall f, extracttcp f = None ->
        extractsport f AF_INET = 0 /\ issynack f AF_INET = false)
  /\ (forall f ack packets rtt s,
        extracttcp f = None -> get_packet packets 0 = None ->
        reply ack f packets rtt s = (packets, rtt, s))
  /\ (forall f rest ack rtt_tv packets rtt s,
        extracttcp f = None -> get_packet packets 0 = None ->
        drain (Some f :: rest) ack rtt_tv packets rtt s
        = drain rest ack (mk_tv 0 0) packets rtt
            (mk_state (clock s) (ticks s) (sendto_result s) (sends s) rest
               (rawsocket_result s) (openbpf_result s)
               (Bpf_next_tv rtt_tv :: trace s)))
  /\ (forall port ack packets s failed packets1 s1,
        probe port ack packets s = (failed, packets1, s1) ->
        0 <= port < 65536 -> get_packet packets 0 = None ->
        get_packet packets1 0 = None)
  /\ (forall ack f packets rtt s packets' rtt' s',
        reply ack f packets rtt s = (packets', rtt', s') ->
        get_packet packets 0 = None -> get_packet packets' 0 = None)
  /\ (forall fam ports rtt fuel s newer l older,
        Forall (fun p => 0 <= p < 65536) ports -> trace s = [] ->
        trace (snd (scan fam ports rtt fuel s)) = newer ++ Snapshot l :: older ->
        get_packet l 0 = None).
Proof.
  assert (A : forall f, extracttcp f = None ->
                extractsport f AF_INET = 0 /\ issynack f AF_INET = false).
  { intros f H. unfold extractsport, issynack. cbn [tcp_of]. now rewrite H. }
  assert (B : forall f ack packets rtt s,
                extracttcp f = None -> get_packet packets 0 = None ->
                reply ack f packets rtt s = (packets, rtt, s)).
  { intros f ack packets rtt s H G. destruct (A f H) as [Es Ei].
    unfold reply. rewrite Es, Ei. unfold bind, ret.
    now rewrite rm_packet_absent. }
  split; [|split; [exact A | split; [exact B | split; [|split; [|split]]]]].
  - intros f Hl. unfold extracttcp. cbv zeta.
    change 0xF with (Z.ones 4). rewrite Z.land_ones by lia.
    pose proof (Z.mod_pos_bound (byte_at (pkt f) 0) (2 ^ 4)).
    rewrite !ulong_small by (unfold sizeof_tcphdr; lia).
    destruct (len f <? _) eqn:E.
    + apply Z.ltb_lt in E. split; [lia | reflexivity].
    + apply Z.ltb_ge in E. split; [discriminate | lia].
  - intros f rest ack rtt_tv packets rtt s H G.
    cbn [drain]. unfold bind at 1 2 3. cbn [emit set_captured].
    now rewrite B.
  - intros port ack packets s failed packets1 s1 E R G.
    unfold probe in E. destruct (port =? 0) eqn:Z0; cbn [negb] in E.
    + inversion E; subst. exact G.
    + apply Z.eqb_neq in Z0. unfold bind, sendto in E.
      destruct (sendto_result s (sends s) <? 0); cbn in E;
        inversion E; subst; [reflexivity|].
      rewrite ushort_small by assumption. unfold add_packet.
      destruct (get_packet packets port) eqn:Gp.
      * rewrite get_packet_touch_other; [exact G | lia].
      * cbn. destruct (port =? 0) eqn:Z1; [apply Z.eqb_eq in Z1; lia|].
        exact G.
  - intros ack f packets rtt s packets' rtt' s' E G.
    apply reply_post in E. destruct E as [Sub _].
    eauto using get_packet_none_sublist.
  - intros fam ports rtt fuel s newer l older R T E.
    assert (H : hist_ok false (trace (snd (scan fam ports rtt fuel s)))).
    { apply scan_hist_ok; [exact R | discriminate | rewrite T; exact I]. }
    destruct (hist_ok_snapshot false _ _ _ _ H E) as [[F _] _].
    now apply no_port_0.
Qed.

(** ** Round-trip discovery *)

Lemma compute_rtt_nonneg tv then_ : 0 <= compute_rtt tv then_.
Proof.
  unfold compute_rtt. cbv zeta.
  destruct (_ <? _); [lia | apply htonl_range].
Qed.

(** A sample either leaves [max] and [max_max] alone or becomes the new
    [max_max], the old one moving down to [max]. *)
Lemma take_sample_cases val v :
  take_sample val v = v
  \/ (take_sample val v
      = mk_vars (j v) (n v) (err v) (noresend v) (max_max v) val
      /\ val <> 0 /\ max_max v < val
      /\ (max v = 0 \/ val < ulong (max v * 2))).
Proof.
  unfold take_sample.
  destruct (val =? 0) eqn:E0; cbn [negb andb]; [now left|].
  destruct (max_max v <? val) eqn:E1; [|now left].
  apply Z.eqb_neq in E0. apply Z.ltb_lt in E1.
  destruct (max v =? 0) eqn:E2; cbn [negb].
  - apply Z.eqb_eq in E2. right. auto.
  - destruct (val <? ulong (max v * 2)) eqn:E3; [|now left].
    apply Z.ltb_lt in E3. right. auto.
Qed.

Lemma take_sample_counters val v :
  j (take_sample val v) = j v /\ n (take_sample val v) = n v
  /\ err (take_sample val v) = err v.
Proof.
  destruct (take_sample_cases val v) as [-> | [-> _]]; cbn; auto.
Qed.

Lemma take_sample_maxima val v :
  maxima_ok v -> maxima_ok (take_sample val v).
Proof.
  intros Q. destruct (take_sample_cases val v) as [-> | (-> & N & L & _)];
    [exact Q|].
  unfold maxima_ok in *. cbn. lia.
Qed.

Lemma measure_outcome fuel : forall use v s,
  0 <= j v <= 10 -> 0 <= err v <= 10 ->
  (10 - j v) + (10 - err v) <= Z.of_nat fuel -> maxima_ok v ->
  exists exit s' k,
    measure fuel use v s = (Some exit, s')
    /\ match exit with
       | Completed v' =>
           j v + replies (results (captured s) k) = 10
           /\ err v' = err v + silences (results (captured s) k)
           /\ err v' <= 10 /\ j v' = 10 /\ maxima_ok v'
       | Aborted v' =>
           err v + silences (results (captured s) k) = 11
           /\ j v + replies (results (captured s) k) < 10
           /\ err v' = 11
       end.
Proof.
  assert (Done : forall fuel use v s, j v = 10 -> 0 <= err v <= 10 ->
            maxima_ok v ->
            exists exit s' k,
              measure fuel use v s = (Some exit, s')
              /\ match exit with
                 | Completed v' =>
                     j v + replies (results (captured s) k) = 10
                     /\ err v' = err v + silences (results (captured s) k)
                     /\ err v' <= 10 /\ j v' = 10 /\ maxima_ok v'
                 | Aborted v' =>
                     err v + silences (results (captured s) k) = 11
                     /\ j v + replies (results (captured s) k) < 10
                     /\ err v' = 11
                 end).
  { intros f use v s Hj He Q. exists (Completed v), s, 0%nat.
    split.
    - destruct f; cbn [measure]; rewrite Hj; reflexivity.
    - cbn. repeat split; try lia; assumption. }
  induction fuel as [|fuel IH]; intros use v s Hj He Hf Q.
  - apply Done; [lia | assumption | assumption].
  - destruct (Z.eq_dec (j v) 10) as [J | J]; [now apply Done|].
    cbn [measure]. destruct (j v <? 10) eqn:Lt;
      [|apply Z.ltb_ge in Lt; lia].
    unfold bind at 1. unfold gettimeofday at 1.
    unfold bind at 1. unfold sendto at 1. cbn [sends sendto_result].
    unfold bind at 1. unfold capture_call, bind, emit, next_frame.
    cbn [captured].
    destruct (captured s) as [|[res|] rest] eqn:Tape.
    + (* the capture is used up: a silence *)
      cbn -[measure maketime Z.add Z.sub Z.ltb].
      destruct (4 <? noresend v + 1);
        cbn -[measure maketime Z.add Z.sub Z.ltb];
        (destruct (10 <? err v + 1) eqn:Ab;
         [ eexists (Aborted _), _, 1%nat; split; [reflexivity|];
           apply Z.ltb_lt in Ab; cbn; lia
         | apply Z.ltb_ge in Ab;
           match goal with
           | |- context [measure fuel use ?v1 ?s1] =>
               destruct (IH use v1 s1) as (exit & s' & k & E & H);
               [cbn [j err]; lia | cbn [j err]; lia | cbn [j err]; lia
               | exact Q |]
           end;
           exists exit, s', (S k); split; [exact E|];
           cbn [captured results] in *;
           unfold replies, silences in *; cbn [filter length] in *;
           rewrite ?Nat2Z.inj_succ in *;
           destruct exit; cbn [j err] in H; intuition lia ]).
    + (* a reply *)
      cbn -[measure maketime compute_rtt take_sample extractack Z.add].
      match goal with
      | |- context [take_sample ?val ?v0] =>
          destruct (take_sample_counters val v0) as (Ej & En & Ee);
          pose proof (take_sample_maxima val v0 Q) as Q1;
          set (v1 := take_sample val v0) in *
      end.
      match goal with
      | |- context [measure fuel use ?v2 ?s2] =>
          destruct (IH use v2 s2) as (exit & s' & k & E & H);
          [cbn [j err] in *; lia | cbn [j err] in *; lia
          | cbn [j err] in *; lia | exact Q1 |]
      end.
      exists exit, s', (S k). split; [exact E|].
      cbn [captured results j err] in *.
      unfold replies, silences in *. cbn [filter length] in *.
      rewrite ?Nat2Z.inj_succ in *.
      destruct exit; intuition lia.
    + (* a timeout *)
      cbn -[measure maketime Z.add Z.sub Z.ltb].
      destruct (4 <? noresend v + 1);
        cbn -[measure maketime Z.add Z.sub Z.ltb];
        (destruct (10 <? err v + 1) eqn:Ab;
         [ eexists (Aborted _), _, 1%nat; split; [reflexivity|];
           apply Z.ltb_lt in Ab; cbn; lia
         | apply Z.ltb_ge in Ab;
           match goal with
           | |- context [measure fuel use ?v1 ?s1] =>
               destruct (IH use v1 s1) as (exit & s' & k & E & H);
               [cbn [j err]; lia | cbn [j err]; lia | cbn [j err]; lia
               | exact Q |]
           end;
           exists exit, s', (S k); split; [exact E|];
           cbn [captured results] in *;
           unfold replies, silences in *; cbn [filter length] in *;
           rewrite ?Nat2Z.inj_succ in *;
           destruct exit; cbn [j err] in H; intuition lia ]).
Qed.













(** ** Return value of [scan] *)

(** C4 (as amended).  [scan] returns -1 exactly when opening the raw send
    socket fails, and then does nothing else.  Once the socket is open it
    returns 0 if it returns at all, whatever the capture, the replies and
    the number of open ports found -- also when opening the receive filter
    failed, which is not checked; on the IPv6 path, which has no retry
    loop, it always returns. *)
Theorem scan_return_value fam ports rtt fuel s :
  (fst (scan fam ports rtt fuel s) = Some (-1) <-> rawsocket_result s < 0)
  /\ (rawsocket_result s < 0 -> scan fam ports rtt fuel s = (Some (-1), s))
  /\ (0 <= rawsocket_result s ->
      fst (scan fam ports rtt fuel s) = Some 0
      \/ fst (scan fam ports rtt fuel s) = None)
  /\ (0 <= rawsocket_result s -> fam = AF_INET6 ->
      fst (scan fam ports rtt fuel s) = Some 0).
Proof.
  assert (Open : 0 <= rawsocket_result s ->
            (fst (scan fam ports rtt fuel s) = Some 0
             \/ fst (scan fam ports rtt fuel s) = None)
            /\ (fam = AF_INET6 -> fst (scan fam ports rtt fuel s) = Some 0)).
  { intros H. destruct (scan fam ports rtt fuel s) as [r s'] eqn:Es.
    cbn [fst]. unfold scan in Es. unfold bind at 1 in Es.
    unfold rawsocket at 1 in Es.
    destruct (rawsocket_result s <? 0) eqn:E; [apply Z.ltb_lt in E; lia|].
    unfold bind at 1 in Es. unfold openbpf at 1 in Es.
    unfold bind at 1 in Es.
    destruct (scan_ports fam ports 0 (Z.of_nat (length ports)) [] rtt s)
      as [[l1 r1] s1].
    unfold bind at 1 in Es.
    destruct fam.
    - destruct (retry_loop fuel l1 r1 s1) as [[|] s2].
      + unfold bind, emit, ret in Es.
        destruct (65535 <=? Z.of_nat (length ports)); inversion Es;
          (split; [now left | discriminate]).
      + inversion Es. split; [now right | discriminate].
    - unfold bind, emit, ret in Es.
      destruct (65535 <=? Z.of_nat (length ports)); inversion Es; auto. }
  assert (Closed : rawsocket_result s < 0 ->
            scan fam ports rtt fuel s = (Some (-1), s)).
  { intros H. unfold scan. unfold bind at 1. unfold rawsocket at 1.
    destruct (rawsocket_result s <? 0) eqn:E; [reflexivity|].
    apply Z.ltb_ge in E. lia. }
  split; [|split; [exact Closed | split; intros H; now apply Open]].
  split.
  - intros R. destruct (Z_lt_le_dec (rawsocket_result s) 0) as [L | L];
      [exact L|].
    destruct (proj1 (Open L)) as [E | E]; rewrite E in R; discriminate.
  - intros L. now rewrite Closed.
Qed.

(** C7 (as amended).  Encoding a clock reading (seconds [sec],
    microseconds [usec] below one million) with [maketime] and decoding
    the result with [timeval] yields [sec mod 16] seconds and [usec]
    rounded down to a multiple of 16 microseconds when [sec mod 16] is at
    most 2, and the clamp value of 2 seconds and 0 microseconds
    otherwise. *)
Theorem codec_roundtrip_clamped sec usec :
  0 <= usec < 1000000 ->
  timeval (maketime (mk_tv sec usec))
  = if sec mod 16 <=? 2 then mk_tv (sec mod 16) (usec - usec mod 16)
    else mk_tv 2 0.
Proof.
  intros Hu. rewrite timeval_maketime by assumption.
  rewrite Z.leb_antisym. destruct (2 <? sec mod 16); cbn [negb].
  - reflexivity.
  - f_equal. pose proof (Z.div_mod usec 16). lia.
Qed.

(** ** Capture deadline *)





End Properties.

(** * Instances on Linux/x86-64 *)

Section Instances.
#[local] Existing Instance linux_x86_64.

Lemma codec_roundtrip_clamped_witness :
  0 <= 123456 < 1000000
  /\ timeval (maketime (mk_tv 1700000001 123456)) = mk_tv 1 123456.
Proof.
  split; [lia|].
  apply (codec_roundtrip_clamped 1700000001 123456); lia.
Defined.

(** C7 as stated fails on a reading of 5 s and 32 us: the decoder clamps
    it to 2 s and 0 us. *)
Lemma codec_roundtrip_counterexample :
  0 <= 32 < 1000000
  /\ timeval (maketime (mk_tv 5 32)) = mk_tv 2 0
  /\ timeval (maketime (mk_tv 5 32)) <> mk_tv (5 mod 16) (32 - 32 mod 16).
Proof.
  split; [lia|]. split; [vm_compute; reflexivity|].
  intros H; vm_compute in H; discriminate H.
Qed.



Lemma add_twice_fresh_port_witness :
  get_packet [mk_packet 22 7 0] 80 = None
  /\ add_packet (add_packet [mk_packet 22 7 0] 80 100) 80 200
     = [mk_packet 80 200 1; mk_packet 22 7 0].
Proof.
  split; [reflexivity|].
  apply (add_twice_fresh_port [mk_packet 22 7 0] 80 100 200). reflexivity.
Defined.

(** C10 as stated fails on a table that already holds the port: the entry
    ends with retry count 2. *)
Lemma add_twice_counterexample :
  80 <> 0
  /\ add_packet (add_packet [mk_packet 80 50 0] 80 100) 80 200
     = [mk_packet 80 200 2]
  /\ get_packet (add_packet (add_packet [mk_packet 80 50 0] 80 100) 80 200) 80
     <> Some (mk_packet 80 200 1).
Proof. split; [lia|]. split; [reflexivity | discriminate]. Qed.

(** C1.  The round-trip estimate does not stay above zero.  The probe to
    port 80 is stamped at second 15 of the 16-second window of the codec
    and its SYN|ACK is handled 100.1 ms later, in the next window: the
    decoded send time is then later than the current time, [compute_rtt]
    returns 0, and [sendpacket] stores the 0 in [*rtt] (the reply is
    reported and reset as usual). *)
Theorem rtt_estimate_drops_to_zero :
  echo (mk_tv 1700000015 900000)
  = ntohl (maketime (mk_tv 1700000015 900000)) + 1
  /\ effects (trace (snd (sendpacket 80 [] initial_rtt 1 wrap_world)))
     = [Sendto 80 (maketime (mk_tv 1700000015 900000)) TH_SYN 40;
        Bpf_next_tv (mk_tv 0 125000);
        Scanner_add_port 80;
        Sendto 80 (maketime (mk_tv 1700000015 900000) + 1) TH_RST 40;
        Bpf_next_tv (mk_tv 0 0)]
  /\ snd (fst (sendpacket 80 [] initial_rtt 1 wrap_world)) = 0
  /\ ~ (0 < ntohl (snd (fst (sendpacket 80 [] initial_rtt 1 wrap_world)))
        <= Z.shiftl 1 28).
Proof.
  split; [reflexivity|]. split; [vm_compute; reflexivity|].
  split; [vm_compute; reflexivity|]. vm_compute. intros [H _]. discriminate H.
Qed.

(** C3.  A failed [sendto] does not end the scan.  With every [sendto]
    failing, [sendpacket] closes the socket and the capture and returns
    [NULL] on the first probe; [scan] takes the [NULL] for an empty table,
    probes the two remaining ports (closing both handles again each time),
    closes them a fourth time and returns 0. *)
Theorem send_failure_does_not_stop_scan :
  effects (trace (snd (scan AF_INET [22; 80; 443] initial_rtt 8
                         send_fails_world)))
  = [Comm_send_status 0 3;
     Sendto 22 64 TH_SYN (-1); Close_soc; Bpf_close;
     Sendto 80 64 TH_SYN (-1); Close_soc; Bpf_close;
     Sendto 443 64 TH_SYN (-1); Close_soc; Bpf_close;
     Comm_send_status 3 3; Close_soc; Bpf_close]
  /\ fst (scan AF_INET [22; 80; 443] initial_rtt 8 send_fails_world) = Some 0
  /\ sendpacket 22 [] initial_rtt 0 send_fails_world
     = ([], initial_rtt,
        snd (sendpacket 22 [] initial_rtt 0 send_fails_world))
  /\ effects (trace (snd (sendpacket 22 [] initial_rtt 0 send_fails_world)))
     = [Sendto 22 64 TH_SYN (-1); Close_soc; Bpf_close].
Proof.
  split; [vm_compute; reflexivity|]. split; [vm_compute; reflexivity|].
  split; [reflexivity | vm_compute; reflexivity].
Qed.

Lemma scan_return_value_witness :
  (rawsocket_result (world [] [] [] (-1) 4) < 0
   /\ scan AF_INET [22; 80] initial_rtt 8 (world [] [] [] (-1) 4)
      = (Some (-1), world [] [] [] (-1) 4))
  /\ (0 <= rawsocket_result open_port_world
      /\ (fst (scan AF_INET [22; 80; 443] initial_rtt 8 open_port_world)
          = Some 0
          \/ fst (scan AF_INET [22; 80; 443] initial_rtt 8 open_port_world)
             = None))
  /\ (0 <= rawsocket_result ticking_world /\ AF_INET6 = AF_INET6
      /\ fst (scan AF_INET6 [22; 80] initial_rtt 8 ticking_world) = Some 0).
Proof.
  split; [|split].
  - split; [cbn; lia|].
    apply (scan_return_value AF_INET [22; 80] initial_rtt 8
             (world [] [] [] (-1) 4)). cbn; lia.
  - split; [cbn; lia|].
    apply (scan_return_value AF_INET [22; 80; 443] initial_rtt 8
             open_port_world).
    cbn; lia.
  - split; [cbn; lia|]. split; [reflexivity|].
    apply (scan_return_value AF_INET6 [22; 80] initial_rtt 8 ticking_world);
      [cbn; lia | reflexivity].
Defined.

(** Two IPv4 runs that come to their end, one finding no open port and
    one finding port 80: both return 0. *)
Lemma scan_completes_with_0 :
  fst (scan AF_INET [22; 80] initial_rtt 8 ticking_world) = Some 0
  /\ fst (scan AF_INET [22; 80; 443] initial_rtt 8 open_port_world) = Some 0
  /\ In (Scanner_add_port 80)
        (trace (snd (scan AF_INET [22; 80; 443] initial_rtt 8
                       open_port_world)))
  /\ ~ In (Scanner_add_port 80)
         (trace (snd (scan AF_INET [22; 80] initial_rtt 8 ticking_world))).
Proof.
  split; [vm_compute; reflexivity|]. split; [vm_compute; reflexivity|].
  split; vm_compute; intuition discriminate.
Qed.

(** C4 as stated fails when the socket opens and the receive filter does
    not: with an empty port list [scan] skips both loops and returns 0. *)
Lemma scan_return_value_counterexample :
  openbpf_result no_filter_world < 0
  /\ fst (scan AF_INET [] initial_rtt 0 no_filter_world) = Some 0
  /\ fst (scan AF_INET [] initial_rtt 0 no_filter_world) <> Some (-1)
  /\ effects (trace (snd (scan AF_INET [] initial_rtt 0 no_filter_world)))
     = [Comm_send_status 0 0; Close_soc; Bpf_close].
Proof.
  split; [cbn; lia|]. split; [reflexivity|].
  split; [discriminate | reflexivity].
Qed.

Lemma retries_bounded_without_duplicates_witness :
  let tr := trace (snd (scan AF_INET [22; 80] initial_rtt 20 ticking_world)) in
  let l := [mk_packet 80 16 0; mk_packet 22 112 2] in
  NoDup [22; 80]
  /\ Forall (fun p => 0 <= p < 65536) [22; 80]
  /\ trace ticking_world = []
  /\ tr = firstn 19 tr ++ Snapshot l :: skipn 20 tr
  /\ In (mk_packet 22 112 2) l
  /\ retries (mk_packet 22 112 2) <= NUM_RETRIES
  /\ sent (dport (mk_packet 22 112 2)) (skipn 20 tr).
Proof.
  cbv zeta.
  assert (N : NoDup [22; 80]).
  { repeat constructor; cbn; intuition lia. }
  assert (R : Forall (fun p => 0 <= p < 65536) [22; 80]).
  { repeat constructor; lia. }
  assert (E : trace (snd (scan AF_INET [22; 80] initial_rtt 20 ticking_world))
              = firstn 19 (trace (snd (scan AF_INET [22; 80] initial_rtt 20
                                         ticking_world)))
                ++ Snapshot [mk_packet 80 16 0; mk_packet 22 112 2]
                   :: skipn 20 (trace (snd (scan AF_INET [22; 80] initial_rtt
                                              20 ticking_world)))).
  { vm_compute. reflexivity. }
  assert (I : In (mk_packet 22 112 2)
                [mk_packet 80 16 0; mk_packet 22 112 2]).
  { right. left. reflexivity. }
  split; [exact N|]. split; [exact R|]. split; [reflexivity|].
  split; [exact E|]. split; [exact I|].
  exact (retries_bounded_without_duplicates AF_INET [22; 80] initial_rtt 20
           ticking_world _ _ _ _ N R eq_refl E I).
Defined.

(** C5 as stated fails on a port array that lists port 80 four times: the
    fourth probe leaves the entry with a retry count of 3. *)
Lemma retries_bounded_counterexample :
  Forall (fun p => 0 <= p < 65536) [80; 80; 80; 80]
  /\ In (Snapshot [mk_packet 80 64 3])
        (trace (snd (scan AF_INET [80; 80; 80; 80] initial_rtt 0
                       silent_world)))
  /\ ~ retries (mk_packet 80 64 3) <= NUM_RETRIES.
Proof.
  split; [repeat constructor; lia|].
  split; [vm_compute; left; reflexivity|].
  cbn. unfold NUM_RETRIES. lia.
Qed.



(** C9.  A frame whose TCP header extends past the captured bytes is
    not always ignored.  [sendpacket] hands the parsing functions the
    frame behind the datalink prefix ([res + skip]) together with the
    whole captured length [len], prefix included, so [extracttcp] accepts
    a frame that is up to the prefix length too short.  Of [cut_frame] 50
    bytes were captured, 14 of them the Ethernet prefix: it holds 36
    bytes, 4 less than its IP and TCP headers take, and yet [extracttcp]
    returns the TCP header, port 80 is reported open, a RST is sent and
    the entry for port 80 is unlinked.  A frame the test does reject
    ([short_frame]) leaves everything as it is. *)
Theorem truncated_frame_not_ignored :
  (length (pkt cut_frame) = 36%nat /\ len cut_frame - 14 = 36
   /\ Z.land (byte_at (pkt cut_frame) 0) 0xF = 5
   /\ len cut_frame - 14 < 4 * 5 + sizeof_tcphdr <= len cut_frame)
  /\ extracttcp cut_frame = Some 20
  /\ extractsport cut_frame AF_INET = 80
  /\ issynack cut_frame AF_INET = true
  /\ effects (trace (snd (sendpacket 0
                            [mk_packet 80 (maketime (mk_tv 1 0)) 0;
                             mk_packet 22 5 0]
                            initial_rtt 1 cut_frame_world)))
     = [Bpf_next_tv (mk_tv 0 125000); Scanner_add_port 80;
        Sendto 80 (maketime (mk_tv 1 0) + 1) TH_RST 40;
        Bpf_next_tv (mk_tv 0 0)]
  /\ fst (sendpacket 0 [mk_packet 80 (maketime (mk_tv 1 0)) 0;
                        mk_packet 22 5 0] initial_rtt 1 cut_frame_world)
     = ([mk_packet 22 5 0], htonl 100)
  /\ (extracttcp short_frame = None
      /\ reply 64 short_frame [mk_packet 80 7 0] initial_rtt silent_world
         = ([mk_packet 80 7 0], initial_rtt, silent_world)).
Proof.
  split.
  - split; [reflexivity|]. split; [reflexivity|]. split; [reflexivity|].
    vm_compute. split; [reflexivity|]. discriminate.
  - split; [reflexivity|]. split; [vm_compute; reflexivity|].
    split; [vm_compute; reflexivity|]. split; [vm_compute; reflexivity|].
    split; [vm_compute; reflexivity|].
    split; [reflexivity|].
    exact (proj1 (proj2 (proj2 malformed_frame_ignored)) short_frame 64
             [mk_packet 80 7 0] initial_rtt silent_world eq_refl eq_refl).
Qed.



End Instances.

(** * Further properties of the code *)

Section FurtherProperties.
Context {P : platform}.

(** ** Round-trip samples *)

Lemma ntohl_0 : ntohl 0 = 0.
Proof. unfold ntohl, htonl. destruct endian; reflexivity. Qed.

Lemma htonl_zero_iff x : 0 <= x < 4294967296 -> (htonl x = 0 <-> x = 0).
Proof.
  intros H. split; intros E.
  - rewrite <- (ntohl_htonl x H), E. apply ntohl_0.
  - subst. apply ntohl_0.
Qed.

Lemma ntohl_saturation : ntohl (Z.shiftl 1 28) <= 2 ^ 28.
Proof. unfold ntohl, htonl. destruct endian; vm_compute; discriminate. Qed.

(** X1.  [compute_rtt] in host order: the sample is 0 when the decoded
    send time is later than the clock reading, and otherwise the
    difference of the two, saturated at [2^28]; it is the value 0 exactly
    when the send time is not earlier than the reading. *)
Theorem compute_rtt_decoded tv then_ :
  ntohl (compute_rtt tv then_)
  = (if ntohl (maketime tv) <? ntohl then_ then 0
     else Z.min (ntohl (maketime tv) - ntohl then_) (2 ^ 28))
  /\ 0 <= ntohl (compute_rtt tv then_) <= 2 ^ 28
  /\ (compute_rtt tv then_ = 0 <-> ntohl (maketime tv) <= ntohl then_).
Proof.
  pose proof (ntohl_range (maketime tv)) as Ha.
  pose proof (ntohl_range then_) as Hb.
  unfold compute_rtt. cbv zeta.
  change (Z.shiftl 1 28) with (2 ^ 28).
  destruct (ntohl (maketime tv) <? ntohl then_) eqn:L.
  - apply Z.ltb_lt in L. rewrite ntohl_0.
    split; [reflexivity|]. split; [lia|]. split; [lia | reflexivity].
  - apply Z.ltb_ge in L.
    destruct (2 ^ 28 <=? ntohl (maketime tv) - ntohl then_) eqn:S.
    + apply Z.leb_le in S. rewrite ntohl_htonl by lia.
      split; [lia|]. split; [lia|].
      rewrite htonl_zero_iff by lia. lia.
    + apply Z.leb_gt in S. rewrite ntohl_htonl by lia.
      split; [lia|]. split; [lia|].
      rewrite htonl_zero_iff by lia. lia.
Qed.

(** The host-order stamp of a reading inside a second. *)
Lemma stamp_value sec usec :
  0 <= usec < 1000000 ->
  ntohl (maketime (mk_tv sec usec)) = (sec mod 16) * 2 ^ 28 + usec / 16
  /\ 0 <= usec / 16 < 62500.
Proof.
  intros H. rewrite ntohl_maketime. cbn [tv_sec tv_usec].
  assert (Q : 0 <= usec / 16 < 62500).
  { split; [apply Z.div_pos; lia | apply Z.div_lt_upper_bound; lia]. }
  rewrite (Z.mod_small (usec / 16)) by lia. auto.
Qed.

(** X2.  Within one second the decoded sample is the elapsed time: a
    probe stamped at [usec0] and answered at [usec] of the same second
    decodes, through [compute_rtt] and [timeval], to 0 seconds and the
    microseconds between the two 16-us ticks. *)
Theorem sample_within_a_second sec usec0 usec :
  0 <= usec0 -> usec0 <= usec -> usec < 1000000 ->
  timeval (compute_rtt (mk_tv sec usec) (maketime (mk_tv sec usec0)))
  = mk_tv 0 (16 * (usec / 16 - usec0 / 16)).
Proof.
  intros H0 H1 H2.
  destruct (stamp_value sec usec) as [Ea Qa]; [lia|].
  destruct (stamp_value sec usec0) as [Eb Qb]; [lia|].
  assert (Le : usec0 / 16 <= usec / 16) by (apply Z.div_le_mono; lia).
  unfold compute_rtt. cbv zeta. rewrite Ea, Eb.
  destruct (_ <? _) eqn:L; [apply Z.ltb_lt in L; lia|].
  change (Z.shiftl 1 28) with (2 ^ 28).
  destruct (2 ^ 28 <=? _) eqn:S; [apply Z.leb_le in S; lia|].
  replace (sec mod 16 * 2 ^ 28 + usec / 16
           - (sec mod 16 * 2 ^ 28 + usec0 / 16))
    with (usec / 16 - usec0 / 16) by lia.
  set (d := usec / 16 - usec0 / 16) in *.
  rewrite timeval_unfold. cbv zeta. rewrite ntohl_htonl by lia.
  rewrite (Z.div_small d), (Z.mod_small d) by lia.
  rewrite slong_small by lia. rewrite carry_usec_neg by lia.
  cbn [tv_sec]. change (2 <? 0) with false. cbv iota. f_equal. lia.
Qed.

(** A stamp later than the reading makes the unsigned difference huge. *)
Lemma ulong_negative d :
  ulong_bits = 64 -> 0 < d < 4294967296 -> 2 ^ 29 <= ulong (- d).
Proof.
  intros W H. unfold ulong. rewrite W.
  replace (- d) with (2 ^ 64 - d + -1 * 2 ^ 64) by lia.
  rewrite Z.mod_add, Z.mod_small by lia. lia.
Qed.

(** X3.  [packetdead] measures real time while the seconds counter has
    not wrapped: for a reading not earlier than the stamp, within one
    16-second window, a probe is dead exactly when two seconds or more
    lie between the two 16-us ticks; a probe judged at the reading it was
    stamped with is alive.  With a 64-bit [unsigned long], a stamp later
    than the reading (the window has wrapped) makes the probe dead at
    once. *)
Theorem packetdead_after_two_seconds sec0 usec0 sec usec rtt :
  0 <= usec0 < 1000000 -> 0 <= usec < 1000000 ->
  (sec0 mod 16 < sec mod 16
   \/ (sec0 mod 16 = sec mod 16 /\ usec0 / 16 <= usec / 16) ->
   (packetdead (mk_tv sec usec) (maketime (mk_tv sec0 usec0)) rtt = true
    <-> 2000000 <= (sec mod 16 - sec0 mod 16) * 1000000
                    + 16 * (usec / 16) - 16 * (usec0 / 16)))
  /\ packetdead (mk_tv sec usec) (maketime (mk_tv sec usec)) rtt = false
  /\ (ulong_bits = 64 ->
      ntohl (maketime (mk_tv sec usec)) < ntohl (maketime (mk_tv sec0 usec0)) ->
      packetdead (mk_tv sec usec) (maketime (mk_tv sec0 usec0)) rtt = true).
Proof.
  intros H0 H1.
  destruct (stamp_value sec usec H1) as [Ea Qa].
  destruct (stamp_value sec0 usec0 H0) as [Eb Qb].
  pose proof (Z.mod_pos_bound sec 16) as Ms.
  pose proof (Z.mod_pos_bound sec0 16) as Ms0.
  split; [|split].
  - intros Order. unfold packetdead. cbv zeta.
    change (Z.shiftl 2 28) with (2 ^ 29).
    rewrite Ea, Eb, ulong_small by lia.
    rewrite Z.leb_le. lia.
  - unfold packetdead. cbv zeta. rewrite Z.sub_diag.
    rewrite ulong_small by lia. reflexivity.
  - intros W L. unfold packetdead. cbv zeta.
    change (Z.shiftl 2 28) with (2 ^ 29). apply Z.leb_le.
    pose proof (ntohl_range (maketime (mk_tv sec usec))).
    pose proof (ntohl_range (maketime (mk_tv sec0 usec0))).
    replace (ntohl (maketime (mk_tv sec usec))
             - ntohl (maketime (mk_tv sec0 usec0)))
      with (- (ntohl (maketime (mk_tv sec0 usec0))
               - ntohl (maketime (mk_tv sec usec)))) by lia.
    apply ulong_negative; [exact W | lia].
Qed.

(** ** The estimate kept by the sending routine *)

Lemma reply_rtt_bounded ack res packets rtt s :
  ntohl rtt <= 2 ^ 28 ->
  ntohl (snd (fst (reply ack res packets rtt s))) <= 2 ^ 28.
Proof.
  intros H. unfold reply, bind.
  destruct (issynack res AF_INET);
    unfold emit, sendto, gettimeofday, ret; cbn [fst snd clock ticks].
  - match goal with
    | |- ntohl (if ?c then _ else _) <= _ => destruct c eqn:S
    end.
    + apply ntohl_saturation.
    + apply Z.leb_gt in S. change (Z.shiftl 1 28) with (2 ^ 28) in S. lia.
  - exact H.
Qed.

Lemma drain_rtt_bounded frames : forall ack rtt_tv packets rtt s,
  ntohl rtt <= 2 ^ 28 ->
  ntohl (snd (fst (drain frames ack rtt_tv packets rtt s))) <= 2 ^ 28.
Proof.
  induction frames as [|[res|] rest IH]; intros ack rtt_tv packets rtt s H.
  - exact H.
  - cbn [drain]. unfold bind at 1 2 3. cbn [emit set_captured].
    match goal with
    | |- context [reply ack res packets rtt ?s0] =>
        pose proof (reply_rtt_bounded ack res packets rtt s0 H) as B;
        destruct (reply ack res packets rtt s0) as [[p1 r1] s1]
    end.
    cbn [fst snd] in B. now apply IH.
  - exact H.
Qed.

(** X4.  The decoded round-trip estimate never exceeds the saturation
    value [2^28]: [sendpacket] and [v6_sendpacket] return an estimate
    within the bound when they are given one, whatever is captured. *)
Theorem sendpacket_keeps_rtt_bounded fam port packets rtt sniff s :
  ntohl rtt <= 2 ^ 28 ->
  ntohl (snd (fst (send fam port packets rtt sniff s))) <= 2 ^ 28.
Proof.
  intros H. destruct fam; cbn [send].
  - unfold sendpacket. unfold bind at 1.
    change (gettimeofday s) with (clock s (ticks s), advance s 1).
    cbv iota beta zeta. unfold bind at 1.
    destruct (probe port (maketime (clock s (ticks s))) packets (advance s 1))
      as [[failed packets1] s1].
    destruct failed; [exact H|].
    destruct (negb (sniff =? 0)); [|exact H].
    unfold bind, pending. now apply drain_rtt_bounded.
  - unfold v6_sendpacket. unfold bind at 1.
    change (gettimeofday s) with (clock s (ticks s), advance s 1).
    cbv iota beta zeta. unfold bind at 1.
    destruct (probe port (maketime (clock s (ticks s))) packets (advance s 1))
      as [[failed packets1] s1].
    destruct failed; [exact H|].
    destruct (negb (sniff =? 0)); [|exact H].
    unfold capture_call, bind, emit, next_frame, ret. cbn [captured].
    destruct (captured s1) as [|[res|] rest].
    + exact H.
    + destruct (issynack res AF_INET6); exact H.
    + exact H.
Qed.

(** ** The echoed stamp *)

Lemma htonl_uint32 x : htonl (uint32 x) = htonl x.
Proof.
  unfold htonl, uint32. now rewrite Z.mod_mod by lia.
Qed.

(** X5.  [extractack] recovers the stamp of the probe from the reply: on
    a frame whose TCP header is accepted and whose ACK field is the
    sequence number of the probe plus one (modulo [2^32]), it returns the
    value [ack] the probe carried, so that [compute_rtt] measures from the
    reading the probe was stamped with. *)
Theorem extractack_inverts_echo f fam tcp ack :
  tcp_of f fam = Some tcp -> 0 <= ack < 4294967296 ->
  th_ack_h f tcp = uint32 (ntohl ack + 1) ->
  extractack f fam = ack
  /\ forall tv, compute_rtt tv (extractack f fam) = compute_rtt tv ack.
Proof.
  intros T R E.
  assert (X : extractack f fam = ack).
  { unfold extractack. rewrite T, E.
    pose proof (ntohl_range ack) as N.
    rewrite <- htonl_uint32.
    assert (U : uint32 (uint32 (ntohl ack + 1) - 1) = ntohl ack).
    { unfold uint32.
      destruct (Z.eq_dec (ntohl ack) 4294967295) as [M | M].
      - rewrite M. reflexivity.
      - rewrite (Z.mod_small (ntohl ack + 1)) by lia.
        rewrite Z.mod_small by lia. lia. }
    rewrite U. exact (ntohl_htonl ack R). }
  split; [exact X|]. intros tv. now rewrite X.
Qed.

(** ** Lookup and removal *)

Lemma rm_packet_touch l port ack :
  rm_packet (touch_packet l port ack) port = rm_packet l port.
Proof.
  induction l as [|e l IH]; cbn; [reflexivity|].
  destruct (dport e =? port) eqn:E; cbn; rewrite E; [reflexivity|].
  now rewrite IH.
Qed.

Lemma get_packet_rm_other l port q :
  q <> port -> get_packet (rm_packet l port) q = get_packet l q.
Proof.
  intros N. induction l as [|e l IH]; cbn; [reflexivity|].
  destruct (dport e =? port) eqn:E.
  - apply Z.eqb_eq in E.
    destruct (dport e =? q) eqn:F; [apply Z.eqb_eq in F; lia | reflexivity].
  - cbn. destruct (dport e =? q); [reflexivity | exact IH].
Qed.

Lemma get_packet_split l port e :
  get_packet l port = Some e ->
  exists l1 l2, l = l1 ++ e :: l2 /\ get_packet l1 port = None
                /\ rm_packet l port = l1 ++ l2.
Proof.
  induction l as [|x l IH]; cbn; [discriminate|].
  destruct (dport x =? port) eqn:E.
  - intros [= ->]. now exists [], l.
  - intros G. destruct (IH G) as (l1 & l2 & -> & G1 & R).
    exists (x :: l1), l2. cbn. rewrite E, R. auto.
Qed.

Lemma get_packet_not_in l port :
  ~ In port (map dport l) -> get_packet l port = None.
Proof.
  intros N. destruct (get_packet l port) eqn:G; [|reflexivity].
  exfalso. eauto using get_packet_in_ports.
Qed.

(** X6.  [rm_packet] unlinks the first entry for the port and nothing
    else: an absent port leaves the list as it is; otherwise the entry
    [get_packet] finds is taken out of its place, the lookups of all other
    ports are unchanged, and, when no port has two entries, the port can
    no longer be found. *)
Theorem rm_packet_removes_first t p :
  (get_packet t p = None -> rm_packet t p = t)
  /\ (forall e, get_packet t p = Some e ->
        exists l1 l2, t = l1 ++ e :: l2 /\ get_packet l1 p = None
                      /\ rm_packet t p = l1 ++ l2)
  /\ (forall q, q <> p -> get_packet (rm_packet t p) q = get_packet t q)
  /\ (NoDup (map dport t) -> get_packet (rm_packet t p) p = None).
Proof.
  split; [apply rm_packet_absent|]. split; [apply get_packet_split|].
  split; [intros q; apply get_packet_rm_other|].
  intros N. destruct (get_packet t p) as [e|] eqn:G.
  - destruct (get_packet_split _ _ _ G) as (l1 & l2 & -> & G1 & ->).
    apply get_packet_not_in. rewrite map_app in *. cbn in N.
    apply NoDup_remove in N. destruct N as [_ N].
    destruct (get_packet_some_port _ _ _ G) as [<- _]. exact N.
  - now rewrite rm_packet_absent.
Qed.

(** X7.  Removing a port right after [add_packet] registered it undoes
    the registration: the result is the list with the port removed as it
    was before, which is the list itself when the port was new. *)
Theorem rm_after_add t p w :
  rm_packet (add_packet t p w) p = rm_packet t p
  /\ (get_packet t p = None -> rm_packet (add_packet t p w) p = t).
Proof.
  assert (E : rm_packet (add_packet t p w) p = rm_packet t p).
  { unfold add_packet. destruct (get_packet t p) eqn:G.
    - apply rm_packet_touch.
    - cbn. rewrite Z.eqb_refl. symmetry. now apply rm_packet_absent. }
  split; [exact E|]. intros G. rewrite E. now apply rm_packet_absent.
Qed.

(** X8.  One entry per port: a table in which no port has two entries
    stays so under [add_packet], [rm_packet] and [rm_dead_packets]. *)
Theorem table_keeps_ports_unique t :
  NoDup (map dport t) ->
  (forall p w, NoDup (map dport (add_packet t p w)))
  /\ (forall p, NoDup (map dport (rm_packet t p)))
  /\ (forall rtt s,
        NoDup (map dport (fst (fst (rm_dead_packets t rtt s))))).
Proof.
  intros N. split; [|split].
  - intros p w. unfold add_packet. destruct (get_packet t p) eqn:G.
    + now rewrite touch_packet_ports.
    + cbn. constructor; [|exact N].
      intros I. apply in_map_iff in I. destruct I as (x & Dx & Ix).
      pose proof (get_packet_NoDup t x N Ix) as Gx.
      rewrite Dx in Gx. congruence.
  - intros p. eapply sublist_NoDup; [|exact N].
    apply sublist_map, rm_packet_sublist.
  - intros rtt s.
    destruct (rm_dead_packets t rtt s) as [[l r] s'] eqn:E.
    apply rm_dead_packets_from_post in E. destruct E as (Sub & _).
    eapply sublist_NoDup; [|exact N]. now apply sublist_map.
Qed.

(** ** Internet checksum *)

Lemma load16_range b0 b1 :
  is_byte b0 -> is_byte b1 -> 0 <= load16 b0 b1 <= 65535.
Proof. unfold is_byte, load16. destruct endian; lia. Qed.

Lemma load16_store16 c :
  0 <= c < 65536 ->
  store16 c = [hd 0 (store16 c); hd 0 (tl (store16 c))]
  /\ load16 (hd 0 (store16 c)) (hd 0 (tl (store16 c))) = c.
Proof.
  intros H. unfold store16, load16.
  assert (E : c / 256 mod 256 = c / 256).
  { apply Z.mod_small. split; [apply Z.div_pos; lia|].
    apply Z.div_lt_upper_bound; lia. }
  pose proof (Z.div_mod c 256).
  destruct endian; cbn [hd tl]; (split; [reflexivity|]); rewrite E; lia.
Qed.

Lemma store16_bytes c : Forall is_byte (store16 c).
Proof.
  unfold store16, is_byte.
  pose proof (Z.mod_pos_bound c 256).
  pose proof (Z.mod_pos_bound (c / 256) 256).
  destruct endian; repeat constructor; lia.
Qed.

Lemma store32_bytes c : Forall is_byte (store32 c).
Proof.
  unfold store32, is_byte.
  pose proof (Z.mod_pos_bound c 256).
  pose proof (Z.mod_pos_bound (c / 256) 256).
  pose proof (Z.mod_pos_bound (c / 65536) 256).
  pose proof (Z.mod_pos_bound (c / 16777216) 256).
  destruct endian; repeat constructor; lia.
Qed.

Lemma wsum_bounds p :
  Forall is_byte p -> 0 <= wsum p <= 65535 * Z.of_nat (length p).
Proof.
  induction p as [|b0|b0 b1 rest IH] using list_pair_ind; intros F.
  - cbn. lia.
  - inversion F as [|? ? B0 F1]; subst. cbn [wsum length].
    assert (Z0 : is_byte 0) by (unfold is_byte; lia).
    pose proof (load16_range b0 0 B0 Z0). lia.
  - inversion F as [|? ? B0 F1]; subst. inversion F1 as [|? ? B1 F2]; subst.
    cbn [wsum length]. pose proof (load16_range b0 b1 B0 B1).
    specialize (IH F2). lia.
Qed.

Lemma wsum_app a b :
  Nat.even (length a) = true -> wsum (a ++ b) = wsum a + wsum b.
Proof.
  induction a as [|b0|b0 b1 rest IH] using list_pair_ind; intros E.
  - reflexivity.
  - discriminate.
  - cbn [app wsum]. cbn [length Nat.even] in E. rewrite IH by exact E. lia.
Qed.

Lemma wsum_store16 c : 0 <= c < 65536 -> wsum (store16 c) = c.
Proof.
  intros H. destruct (load16_store16 c H) as [E L].
  rewrite E. cbn [wsum]. rewrite Z.add_0_r. exact L.
Qed.

(** The loop and the odd byte add up the words of the first [n] bytes,
    whatever follows them in the buffer. *)
Lemma cksum_words_sum p : forall tail sum,
  Forall is_byte p -> 0 <= sum -> sum + wsum p < 4294967296 ->
  let '(sum', p', n') := cksum_words (p ++ tail) (Z.of_nat (length p)) sum in
  (if n' =? 1 then ulong (sum' + load16 (hd 0 p') 0) else sum')
  = sum + wsum p.
Proof.
  induction p as [|b0|b0 b1 rest IH] using list_pair_ind;
    intros tail sum F H0 H1.
  - cbn [app length Z.of_nat wsum].
    destruct tail as [|t0 [|t1 tail]]; cbn; lia.
  - inversion F as [|? ? B0 F1]; subst. cbn [wsum] in H1.
    assert (Z0 : is_byte 0) by (unfold is_byte; lia).
    pose proof (load16_range b0 0 B0 Z0).
    cbn [app length].
    destruct tail as [|t1 tail];
      [change (cksum_words [b0] (Z.of_nat 1) sum) with (sum, [b0], 1)
      |change (cksum_words (b0 :: t1 :: tail) (Z.of_nat 1) sum)
         with (sum, b0 :: t1 :: tail, 1)];
      cbv beta iota; change (1 =? 1) with true; cbv beta iota;
      cbn [hd wsum];
      rewrite ulong_small by lia; reflexivity.
  - inversion F as [|? ? B0 F1]; subst. inversion F1 as [|? ? B1 F2]; subst.
    cbn [wsum] in H1. pose proof (load16_range b0 b1 B0 B1).
    pose proof (wsum_bounds rest F2).
    cbn [app length cksum_words wsum].
    assert (L : (1 <? Z.of_nat (S (S (length rest)))) = true)
      by (apply Z.ltb_lt; lia).
    rewrite L. rewrite ulong_small by lia.
    replace (Z.of_nat (S (S (length rest))) - 2)
      with (Z.of_nat (length rest)) by lia.
    specialize (IH tail (sum + load16 b0 b1) F2).
    destruct (cksum_words (rest ++ tail) (Z.of_nat (length rest))
                (sum + load16 b0 b1)) as [[s' p'] n'].
    rewrite IH by lia. lia.
Qed.

(** Folding a 32-bit sum: the result is the complement of a residue of
    the sum modulo 65535 that is 0 only for the sum 0. *)
Lemma fold_residue S0 :
  0 <= S0 < 4294967296 ->
  exists r k,
    ushort (Z.lnot (ulong (ulong (Z.shiftr S0 16 + Z.land S0 0xffff)
                           + Z.shiftr (ulong (Z.shiftr S0 16
                                              + Z.land S0 0xffff)) 16)))
    = 65535 - r
    /\ 0 <= r <= 65535 /\ 0 <= k /\ S0 = r + 65535 * k /\ (r = 0 -> S0 = 0).
Proof.
  intros H.
  assert (LO : Z.land S0 0xffff = S0 mod 65536)
    by (change 0xffff with (Z.ones 16); apply Z.land_ones; lia).
  rewrite LO, !Z.shiftr_div_pow2 by lia.
  change (2 ^ 16) with 65536.
  pose proof (Z.div_mod S0 65536) as D.
  pose proof (Z.mod_pos_bound S0 65536) as M.
  assert (A : 0 <= S0 / 65536 < 65536).
  { split; [apply Z.div_pos; lia | apply Z.div_lt_upper_bound; lia]. }
  set (a := S0 / 65536) in *. set (b := S0 mod 65536) in *.
  rewrite (ulong_small (a + b)) by lia.
  destruct (Z_lt_le_dec (a + b) 65536) as [Lt | Ge].
  - rewrite (Z.div_small (a + b)) by lia.
    rewrite ulong_small by lia. rewrite Z.add_0_r.
    exists (a + b), a. unfold ushort, Z.lnot.
    replace (Z.pred (- (a + b))) with (65535 - (a + b) + -1 * 65536)
      by lia.
    rewrite Z.mod_add, Z.mod_small by lia. lia.
  - assert (Q : (a + b) / 65536 = 1).
    { symmetry. apply (Z.div_unique (a + b) 65536 1 (a + b - 65536)); lia. }
    rewrite Q, ulong_small by lia.
    exists (a + b - 65535), (a + 1). unfold ushort, Z.lnot.
    replace (Z.pred (- (a + b + 1)))
      with (65535 - (a + b - 65535) + -2 * 65536) by lia.
    rewrite Z.mod_add, Z.mod_small by lia. lia.
Qed.

Lemma in_cksum_fold p tail :
  Forall is_byte p -> wsum p < 4294967296 ->
  in_cksum (p ++ tail) (Z.of_nat (length p))
  = ushort (Z.lnot (ulong (ulong (Z.shiftr (wsum p) 16
                                  + Z.land (wsum p) 0xffff)
                           + Z.shiftr (ulong (Z.shiftr (wsum p) 16
                                              + Z.land (wsum p) 0xffff))
                               16))).
Proof.
  intros F B. unfold in_cksum.
  pose proof (cksum_words_sum p tail 0 F) as C.
  destruct (cksum_words (p ++ tail) (Z.of_nat (length p)) 0)
    as [[s' p'] n'].
  rewrite C by lia. reflexivity.
Qed.

Lemma in_cksum_whole p :
  Forall is_byte p -> wsum p < 4294967296 ->
  in_cksum p (Z.of_nat (length p))
  = ushort (Z.lnot (ulong (ulong (Z.shiftr (wsum p) 16
                                  + Z.land (wsum p) 0xffff)
                           + Z.shiftr (ulong (Z.shiftr (wsum p) 16
                                              + Z.land (wsum p) 0xffff))
                               16))).
Proof.
  intros F B. pose proof (in_cksum_fold p [] F B) as E.
  rewrite app_nil_r in E. exact E.
Qed.

(** X9.  [in_cksum] returns a 16-bit value that depends on the first [n]
    bytes of the buffer only, and sums an odd last byte as if a zero byte
    followed it (buffers of up to 65535 bytes). *)
Theorem in_cksum_reads_n_bytes p tail :
  Forall is_byte p -> Z.of_nat (length p) <= 65535 ->
  0 <= in_cksum (p ++ tail) (Z.of_nat (length p)) < 65536
  /\ in_cksum (p ++ tail) (Z.of_nat (length p))
     = in_cksum p (Z.of_nat (length p))
  /\ (Nat.odd (length p) = true ->
      in_cksum p (Z.of_nat (length p))
      = in_cksum (p ++ [0]) (Z.of_nat (length (p ++ [0])))).
Proof.
  intros F L. pose proof (wsum_bounds p F) as B.
  assert (B32 : wsum p < 4294967296) by nia.
  split; [|split].
  - unfold in_cksum.
    destruct (cksum_words (p ++ tail) (Z.of_nat (length p)) 0)
      as [[s' p'] n'].
    unfold ushort. apply Z.mod_pos_bound. lia.
  - rewrite in_cksum_fold, in_cksum_whole by assumption. reflexivity.
  - intros O.
    assert (F0 : Forall is_byte (p ++ [0])).
    { apply Forall_app. split; [exact F|].
      repeat constructor; unfold is_byte; lia. }
    assert (W : wsum (p ++ [0]) = wsum p).
    { clear - O. induction p as [|b0|b0 b1 rest IH] using list_pair_ind.
      - discriminate.
      - cbn [app wsum]. lia.
      - cbn [app wsum]. cbn [length Nat.odd] in O.
        change (Nat.odd (S (S (length rest)))) with (Nat.odd (length rest))
          in O.
        now rewrite IH. }
    rewrite (in_cksum_whole p), (in_cksum_whole (p ++ [0]));
      rewrite ?W; auto.
Qed.

Lemma checksum_field_verifies pre post n :
  Forall is_byte pre -> Forall is_byte post ->
  Nat.even (length pre) = true ->
  n = Z.of_nat (length pre + 2 + length post) -> n <= 65535 ->
  in_cksum (pre ++ store16 (in_cksum (pre ++ store16 0 ++ post) n) ++ post) n
  = 0.
Proof.
  intros Fa Fb Ev Hn Len.
  assert (L2 : forall c, length (store16 c) = 2%nat).
  { intros c. unfold store16. destruct endian; reflexivity. }
  assert (Ln : forall c, n = Z.of_nat (length (pre ++ store16 c ++ post))).
  { intros c. rewrite !length_app, L2. lia. }
  assert (Fc : forall c, Forall is_byte (pre ++ store16 c ++ post)).
  { intros c. apply Forall_app. split; [exact Fa|].
    apply Forall_app. split; [apply store16_bytes | exact Fb]. }
  assert (Ws : forall c, 0 <= c < 65536 ->
             wsum (pre ++ store16 c ++ post) = wsum pre + c + wsum post).
  { intros c Hc. rewrite wsum_app by exact Ev.
    rewrite wsum_app by (rewrite L2; reflexivity).
    rewrite wsum_store16 by exact Hc. lia. }
  pose proof (wsum_bounds pre Fa) as Ba.
  pose proof (wsum_bounds post Fb) as Bb.
  set (S0 := wsum pre + wsum post).
  assert (B0 : 0 <= S0 < 4294967296 - 65536) by (unfold S0; nia).
  (* the checksum with the field zeroed *)
  assert (E0 : exists r k,
             in_cksum (pre ++ store16 0 ++ post) n = 65535 - r
             /\ 0 <= r <= 65535 /\ 0 <= k /\ S0 = r + 65535 * k
             /\ (r = 0 -> S0 = 0)).
  { rewrite (Ln 0).
    rewrite in_cksum_whole; [|apply Fc|rewrite Ws; [|lia]; fold S0; lia].
    rewrite Ws by lia. replace (wsum pre + 0 + wsum post) with S0
      by (unfold S0; lia).
    apply fold_residue. lia. }
  destruct E0 as (r & k & -> & Hr & Hk & HS & Hz).
  set (c := 65535 - r).
  rewrite (Ln c).
  rewrite in_cksum_whole;
    [|apply Fc|rewrite Ws; [|unfold c; lia]; fold S0; unfold c; lia].
  rewrite Ws by (unfold c; lia).
  replace (wsum pre + c + wsum post) with (S0 + c) by (unfold S0; lia).
  destruct (fold_residue (S0 + c)) as (r1 & k1 & -> & Hr1 & Hk1 & HS1 & Hz1);
    [unfold c; lia|].
  assert (r1 = 65535); [|lia].
  unfold c in *.
  assert (M : r1 = 65535 * (k + 1 - k1)) by lia.
  assert (k + 1 - k1 = 0 \/ k + 1 - k1 = 1) by nia.
  destruct H as [Z0 | Z1]; [|lia].
  assert (r1 = 0) by lia. specialize (Hz1 H). lia.
Qed.

(** X10.  A buffer verifies once its checksum is stored in it: when the
    two bytes of the checksum field (at an even offset) hold the value
    [in_cksum] returns for the buffer with the field zeroed, [in_cksum]
    of the buffer is 0 (buffers of up to 65535 bytes). *)
Theorem in_cksum_verifies pre post :
  Forall is_byte pre -> Forall is_byte post ->
  Nat.even (length pre) = true ->
  Z.of_nat (length pre + 2 + length post) <= 65535 ->
  let n := Z.of_nat (length pre + 2 + length post) in
  in_cksum (pre ++ store16 (in_cksum (pre ++ store16 0 ++ post) n) ++ post) n
  = 0.
Proof.
  intros Fa Fb Ev Len n.
  now apply checksum_field_verifies.
Qed.

(** ** The probe [mktcp] builds *)

Lemma length_store16 c : length (store16 c) = 2%nat.
Proof. unfold store16. destruct endian; reflexivity. Qed.

Lemma length_store32 c : length (store32 c) = 4%nat.
Proof. unfold store32. destruct endian; reflexivity. Qed.

Lemma length_ip_header id src dst sum :
  length (ip_header id src dst sum) = 20%nat.
Proof.
  unfold ip_header.
  rewrite !length_app, !length_store16, !length_store32. reflexivity.
Qed.

Lemma length_tcp_header sport dport seq ackno flag win sum :
  length (tcp_header sport dport seq ackno flag win sum) = 20%nat.
Proof.
  unfold tcp_header.
  rewrite !length_app, !length_store16, !length_store32. reflexivity.
Qed.

Lemma uchar_byte x : is_byte (uchar x).
Proof. unfold is_byte, uchar. apply Z.mod_pos_bound. lia. Qed.

Lemma in_cksum_prefix p tail n :
  Forall is_byte p -> n = Z.of_nat (length p) -> n <= 65535 ->
  in_cksum (p ++ tail) n = in_cksum p n.
Proof.
  intros F -> L. pose proof (wsum_bounds p F) as B.
  assert (B32 : wsum p < 4294967296) by nia.
  rewrite in_cksum_fold, in_cksum_whole by assumption. reflexivity.
Qed.

Ltac bytes :=
  repeat first
    [ apply Forall_nil
    | apply Forall_app; split
    | apply store16_bytes
    | apply store32_bytes
    | apply Forall_cons; [first [apply uchar_byte | unfold is_byte; cbv; (split; congruence)]|] ].

Lemma ip_header_bytes id src dst sum : Forall is_byte (ip_header id src dst sum).
Proof. unfold ip_header. bytes. Qed.

Lemma ip_header_verifies id src dst :
  in_cksum (ip_header id src dst
              (in_cksum (ip_header id src dst 0) sizeof_ip)) sizeof_ip = 0.
Proof.
  set (pre := [4 * 16 + 5; 0] ++ store16 (ushort (sizeof_ip + sizeof_tcphdr))
              ++ store16 (ushort id) ++ store16 0 ++ [64; IPPROTO_TCP]).
  set (post := store32 src ++ store32 dst).
  assert (E : forall c, ip_header id src dst c = pre ++ store16 c ++ post).
  { intros c. unfold ip_header, pre, post. now rewrite <- !app_assoc. }
  rewrite (E 0), E.
  apply checksum_field_verifies.
  - unfold pre. bytes.
  - unfold post. bytes.
  - unfold pre. rewrite !length_app, !length_store16. reflexivity.
  - unfold pre, post.
    rewrite !length_app, !length_store16, !length_store32. reflexivity.
  - unfold sizeof_ip. lia.
Qed.

Lemma tcp_header_verifies src dst sport dport seq ackno flag win :
  in_cksum (pseudo_header src dst
            ++ tcp_header sport dport seq ackno flag win
                 (in_cksum (pseudo_header src dst
                            ++ tcp_header sport dport seq ackno flag win 0)
                    (12 + sizeof_tcphdr)))
    (12 + sizeof_tcphdr) = 0.
Proof.
  set (pre := pseudo_header src dst
              ++ store16 (htons sport) ++ store16 (htons dport)
              ++ store32 (uint32 seq) ++ store32 ackno
              ++ [5 * 16 + 0; uchar flag] ++ store16 win).
  set (post := store16 0).
  assert (E : forall c, pseudo_header src dst
                        ++ tcp_header sport dport seq ackno flag win c
                        = pre ++ store16 c ++ post).
  { intros c. unfold tcp_header, pre, post. now rewrite <- !app_assoc. }
  rewrite (E 0), E.
  apply checksum_field_verifies.
  - unfold pre, pseudo_header. bytes.
  - unfold post. bytes.
  - unfold pre, pseudo_header.
    rewrite !length_app, !length_store16, !length_store32. reflexivity.
  - unfold pre, post, pseudo_header.
    rewrite !length_app, !length_store16, !length_store32. reflexivity.
  - unfold sizeof_tcphdr. lia.
Qed.

(** X11.  The packet [mktcp] returns has 40 bytes and carries checksums
    that verify: [in_cksum] over its IP header is 0, and so is [in_cksum]
    over the pseudo header followed by its TCP header. *)
Theorem mktcp_checksums_verify id src sport dst dport th_ack flag :
  let probe := mktcp id src sport dst dport th_ack flag in
  length probe = 40%nat
  /\ in_cksum probe sizeof_ip = 0
  /\ in_cksum (pseudo_header src dst ++ skipn 20 probe) (12 + sizeof_tcphdr)
     = 0.
Proof.
  intros probe. unfold probe, mktcp. split; [|split].
  - rewrite length_app, length_ip_header, length_tcp_header. reflexivity.
  - rewrite in_cksum_prefix.
    + apply ip_header_verifies.
    + apply ip_header_bytes.
    + rewrite length_ip_header. reflexivity.
    + unfold sizeof_ip. lia.
  - rewrite skipn_app, length_ip_header.
    rewrite skipn_all2 by (rewrite length_ip_header; lia).
    cbn [Nat.sub skipn app].
    apply tcp_header_verifies.
Qed.

Lemma swab_bytes x :
  0 <= x < 65536 ->
  let h := (x mod 256) * 256 + x / 256 in
  (h mod 256) * 256 + h / 256 mod 256 = x.
Proof.
  intros H h.
  assert (A : 0 <= x / 256 < 256).
  { split; [apply Z.div_pos; lia | apply Z.div_lt_upper_bound; lia]. }
  pose proof (Z.mod_pos_bound x 256) as B.
  pose proof (Z.div_mod x 256) as D.
  assert (M : h mod 256 = x / 256).
  { symmetry. apply (Z.mod_unique h 256 (x mod 256)); unfold h; lia. }
  assert (Q : h / 256 = x mod 256).
  { symmetry. apply (Z.div_unique h 256 (x mod 256) (x / 256)); unfold h; lia. }
  rewrite M, Q, Z.mod_mod by lia. lia.
Qed.

Lemma be_bytes_value v :
  0 <= v < 4294967296 ->
  (v / 16777216 mod 256) * 16777216 + (v / 65536 mod 256) * 65536
  + (v / 256 mod 256) * 256 + v mod 256 = v.
Proof.
  intros H.
  pose proof (Z.div_mod v 256) as D0.
  pose proof (Z.div_mod (v / 256) 256) as D1.
  pose proof (Z.div_mod (v / 65536) 256) as D2.
  assert (E1 : v / 256 / 256 = v / 65536)
    by (rewrite Z.div_div by lia; reflexivity).
  assert (E2 : v / 65536 / 256 = v / 16777216)
    by (rewrite Z.div_div by lia; reflexivity).
  assert (A : 0 <= v / 16777216 < 256).
  { split; [apply Z.div_pos; lia | apply Z.div_lt_upper_bound; lia]. }
  rewrite (Z.mod_small (v / 16777216)) by lia.
  rewrite E1 in D1. rewrite E2 in D2. lia.
Qed.

(** X12.  What [mktcp] builds, the parsing functions read back: the TCP
    header is found at offset 20, the source port is the [sport] argument
    as an [unsigned short], the flags are the [flag] argument, the frame
    counts as a SYN|ACK only for the flag byte 0x12, the acknowledgement
    number is 0, and the sequence number on the wire is [ntohl] of the
    [th_ack] argument. *)
Theorem mktcp_parsed_back id src sport dst dport th_ack flag :
  let f := mk_frame (mktcp id src sport dst dport th_ack flag) 40 in
  extracttcp f = Some 20
  /\ extractsport f AF_INET = ushort sport
  /\ th_flags f 20 = uchar flag
  /\ issynack f AF_INET = (uchar flag =? Z.lor TH_SYN TH_ACK)
  /\ th_ack_h f 20 = 0
  /\ th_seq_h f 20 = ntohl th_ack.
Proof.
  intros f.
  assert (T : extracttcp f = Some 20).
  { unfold extracttcp, f, mktcp, ip_header. cbn [pkt len app byte_at].
    unfold byte_at. cbn [Z.to_nat nth].
    change (Z.land (4 * 16 + 5) 15) with 5.
    change (5 * 4 + sizeof_tcphdr) with 40.
    rewrite Z.ltb_irrefl. reflexivity. }
  assert (B : forall k, (k < 20)%nat ->
              byte_at (pkt f) (20 + Z.of_nat k)
              = nth k (tcp_header sport dport th_ack 0 flag 4096
                         (in_cksum (pseudo_header src dst
                                    ++ tcp_header sport dport th_ack 0 flag
                                         4096 0) (12 + sizeof_tcphdr))) 0).
  { intros k Hk. unfold byte_at, f, mktcp. cbn [pkt].
    rewrite app_nth2 by (rewrite length_ip_header; lia).
    rewrite length_ip_header. f_equal. lia. }
  assert (S0 : th_sport_h f 20 = ushort sport).
  { unfold th_sport_h.
    change 20 with (20 + Z.of_nat 0) at 1.
    change (20 + 1) with (20 + Z.of_nat 1).
    rewrite !B by lia.
    unfold tcp_header, store16, htons.
    pose proof (Z.mod_pos_bound sport 65536) as R. fold (ushort sport) in R.
    destruct endian; cbn [app nth].
    - apply swab_bytes. lia.
    - rewrite (Z.mod_small (ushort sport / 256)).
      + pose proof (Z.div_mod (ushort sport) 256). lia.
      + split; [apply Z.div_pos; lia | apply Z.div_lt_upper_bound; lia]. }
  assert (F0 : th_flags f 20 = uchar flag).
  { unfold th_flags.
    change (20 + 13) with (20 + Z.of_nat 13).
    rewrite !B by lia.
    unfold tcp_header, store16, store32. destruct endian; reflexivity. }
  split; [exact T|]. split; [|split; [exact F0|split; [|split]]].
  - unfold extractsport, tcp_of. rewrite T, S0.
    unfold ushort. rewrite Z.mod_mod by lia. reflexivity.
  - unfold issynack, tcp_of. rewrite T, F0. reflexivity.
  - unfold th_ack_h.
    change (20 + 8) with (20 + Z.of_nat 8).
    change (20 + 9) with (20 + Z.of_nat 9).
    change (20 + 10) with (20 + Z.of_nat 10).
    change (20 + 11) with (20 + Z.of_nat 11).
    rewrite !B by lia.
    unfold tcp_header, store16, store32. destruct endian; reflexivity.
  - unfold th_seq_h.
    change (20 + 4) with (20 + Z.of_nat 4).
    change (20 + 5) with (20 + Z.of_nat 5).
    change (20 + 6) with (20 + Z.of_nat 6).
    change (20 + 7) with (20 + Z.of_nat 7).
    rewrite !B by lia.
    unfold tcp_header, store16, store32, ntohl, htonl, bswap32.
    destruct endian; cbn [app nth].
    + reflexivity.
    + apply be_bytes_value. apply uint32_range.
Qed.

(** X22.  What [mktcpv6] builds, read back behind a 40-byte IPv6 header:
    the source port is the [sport] argument as an [unsigned short], the
    frame counts as a SYN|ACK only for the flag byte 0x12, the sequence
    number on the wire is [ntohl] of the [th_ack] argument and the
    acknowledgement number is the random number; the checksum field holds
    the constant 2 in host order, whatever the header carries. *)
Theorem mktcpv6_parsed_back h caplen rnd sport dport th_ack flag :
  length h = 40%nat ->
  let f := mk_frame (h ++ mktcpv6 rnd sport dport th_ack flag) caplen in
  tcp_of f AF_INET6 = Some 40
  /\ extractsport f AF_INET6 = ushort sport
  /\ issynack f AF_INET6 = (uchar flag =? Z.lor TH_SYN TH_ACK)
  /\ th_seq_h f 40 = ntohl th_ack
  /\ th_ack_h f 40 = uint32 rnd
  /\ firstn 2 (skipn 16 (mktcpv6 rnd sport dport th_ack flag)) = store16 2.
Proof.
  intros Lh f.
  assert (B : forall k, (k < 20)%nat ->
              byte_at (pkt f) (40 + Z.of_nat k)
              = nth k (mktcpv6 rnd sport dport th_ack flag) 0).
  { intros k Hk. unfold byte_at, f. cbn [pkt].
    rewrite app_nth2 by lia. rewrite Lh. f_equal. lia. }
  assert (S0 : th_sport_h f 40 = ushort sport).
  { unfold th_sport_h.
    change 40 with (40 + Z.of_nat 0) at 1.
    change (40 + 1) with (40 + Z.of_nat 1).
    rewrite !B by lia.
    unfold mktcpv6, tcp_header, store16, htons.
    pose proof (Z.mod_pos_bound sport 65536) as R. fold (ushort sport) in R.
    destruct endian; cbn [app nth].
    - apply swab_bytes. lia.
    - rewrite (Z.mod_small (ushort sport / 256)).
      + pose proof (Z.div_mod (ushort sport) 256). lia.
      + split; [apply Z.div_pos; lia | apply Z.div_lt_upper_bound; lia]. }
  assert (F0 : th_flags f 40 = uchar flag).
  { unfold th_flags.
    change (40 + 13) with (40 + Z.of_nat 13).
    rewrite !B by lia.
    unfold mktcpv6, tcp_header, store16, store32.
    destruct endian; reflexivity. }
  split; [reflexivity|]. split; [|split; [|split; [|split]]].
  - unfold extractsport, tcp_of, v6_extracttcp. rewrite S0.
    unfold ushort. rewrite Z.mod_mod by lia. reflexivity.
  - unfold issynack, tcp_of, v6_extracttcp. rewrite F0. reflexivity.
  - unfold th_seq_h.
    change (40 + 4) with (40 + Z.of_nat 4).
    change (40 + 5) with (40 + Z.of_nat 5).
    change (40 + 6) with (40 + Z.of_nat 6).
    change (40 + 7) with (40 + Z.of_nat 7).
    rewrite !B by lia.
    unfold mktcpv6, tcp_header, store16, store32, ntohl, htonl, bswap32.
    destruct endian; cbn [app nth].
    + reflexivity.
    + apply be_bytes_value. apply uint32_range.
  - unfold th_ack_h.
    change (40 + 8) with (40 + Z.of_nat 8).
    change (40 + 9) with (40 + Z.of_nat 9).
    change (40 + 10) with (40 + Z.of_nat 10).
    change (40 + 11) with (40 + Z.of_nat 11).
    rewrite !B by lia.
    pose proof (uint32_range rnd) as R.
    unfold mktcpv6, tcp_header, store16, store32, htonl.
    destruct endian; cbn [app nth].
    + change ((bswap32 (uint32 rnd) mod 256) * 16777216
              + (bswap32 (uint32 rnd) / 256 mod 256) * 65536
              + (bswap32 (uint32 rnd) / 65536 mod 256) * 256
              + bswap32 (uint32 rnd) / 16777216 mod 256)
        with (bswap32 (bswap32 (uint32 rnd))).
      now apply bswap32_involutive.
    + now apply be_bytes_value.
  - unfold mktcpv6, tcp_header, store16, store32.
    destruct endian; reflexivity.
Qed.

Lemma from_synack_mono fam used used' p :
  incl used used' -> from_synack fam used p -> from_synack fam used' p.
Proof. intros I (f & H & K). exists f. auto. Qed.

Lemma reply_event_mono fam used used' e :
  incl used used' -> reply_event fam used e -> reply_event fam used' e.
Proof.
  intros I. destruct e; cbn; auto.
  - intros [F H]. eauto using from_synack_mono.
  - eauto using from_synack_mono.
Qed.

(** The events of [reply], and what it leaves alone. *)
Lemma reply_events ack res packets rtt s packets' rtt' s' :
  reply ack res packets rtt s = (packets', rtt', s') ->
  exists new,
    trace s' = new ++ trace s
    /\ Forall (reply_event AF_INET [Some res]) new
    /\ captured s' = captured s
    /\ sendto_result s' = sendto_result s.
Proof.
  unfold reply, bind. destruct (issynack res AF_INET) eqn:Sy; cbn;
    intros E; inversion E; subst; clear E.
  - eexists [_; _]. cbn. split; [reflexivity|].
    assert (F : from_synack AF_INET [Some res] (extractsport res AF_INET))
      by (exists res; cbn; auto).
    repeat constructor; assumption.
  - exists []. cbn. auto.
Qed.

Lemma drain_events frames : forall ack rtt_tv packets rtt s packets' rtt' s',
  drain frames ack rtt_tv packets rtt s = (packets', rtt', s') ->
  captured s = frames ->
  exists new used,
    trace s' = new ++ trace s
    /\ captured s = used ++ captured s'
    /\ Forall (reply_event AF_INET used) new
    /\ sendto_result s' = sendto_result s.
Proof.
  induction frames as [|[res|] rest IH];
    intros ack rtt_tv packets rtt s packets' rtt' s' E C.
  - cbn in E. inversion E; subst; clear E. exists [Bpf_next_tv rtt_tv], [].
    cbn. split; [reflexivity|]. split; [reflexivity|].
    split; [repeat constructor | reflexivity].
  - cbn [drain] in E. unfold bind at 1 2 3 in E. cbn [emit set_captured] in E.
    match type of E with
    | context [reply ack res packets rtt ?s0] =>
        destruct (reply ack res packets rtt s0) as [[p1 r1] s1] eqn:E1
    end.
    apply reply_events in E1. destruct E1 as (new1 & T1 & F1 & C1 & R1).
    cbn [trace captured sendto_result] in T1, C1, R1.
    apply IH in E; [|exact C1].
    destruct E as (new2 & used2 & T2 & C2 & F2 & R2).
    exists (new2 ++ new1 ++ [Bpf_next_tv rtt_tv]), (Some res :: used2).
    split; [rewrite T2, T1, <- !app_assoc; reflexivity|].
    split; [rewrite C; cbn [app]; f_equal; rewrite <- C2; symmetry; exact C1|].
    split; [|congruence].
    apply Forall_app. split.
    + eapply Forall_impl; [|exact F2]. intros e.
      apply reply_event_mono. intros x. cbn. auto.
    + apply Forall_app. split; [|repeat constructor].
      eapply Forall_impl; [|exact F1]. intros e.
      apply reply_event_mono. intros x [<- | []]. now left.
  - cbn in E. inversion E; subst; clear E.
    exists [Bpf_next_tv rtt_tv], [None]. cbn. rewrite C.
    split; [reflexivity|]. split; [reflexivity|].
    split; [repeat constructor | reflexivity].
Qed.

Lemma probe_events_spec port ack packets s failed packets1 s1 :
  probe port ack packets s = (failed, packets1, s1) ->
  trace s1 = probe_events port ack (sendto_result s (sends s)) ++ trace s
  /\ captured s1 = captured s
  /\ sendto_result s1 = sendto_result s
  /\ failed = negb (port =? 0) && (sendto_result s (sends s) <? 0).
Proof.
  unfold probe, probe_events. destruct (port =? 0); cbn [negb andb].
  - intros E; inversion E; subst; clear E. auto.
  - unfold bind, sendto.
    destruct (sendto_result s (sends s) <? 0); cbn;
      intros E; inversion E; subst; clear E; auto.
Qed.

Lemma send_events fam port packets rtt sniff s packets' rtt' s' :
  send fam port packets rtt sniff s = (packets', rtt', s') ->
  exists tail used,
    trace s'
    = tail ++ probe_events port (maketime (clock s (ticks s)))
                (sendto_result s (sends s)) ++ trace s
    /\ captured s = used ++ captured s'
    /\ Forall (reply_event fam used) tail
    /\ sendto_result s' = sendto_result s.
Proof.
  destruct fam; cbn [send].
  - unfold sendpacket. unfold bind at 1.
    change (gettimeofday s) with (clock s (ticks s), advance s 1).
    cbv iota beta zeta. unfold bind at 1.
    destruct (probe port (maketime (clock s (ticks s))) packets (advance s 1))
      as [[failed packets1] s1] eqn:E1.
    apply probe_events_spec in E1.
    cbn [advance trace captured sendto_result sends] in E1.
    destruct E1 as (T1 & C1 & R1 & _).
    destruct failed.
    + intros E; inversion E; subst; clear E.
      exists [], []. cbn [app]. auto.
    + destruct (negb (sniff =? 0)).
      * unfold bind, pending. intros E.
        apply drain_events in E; [|reflexivity].
        destruct E as (new & used & T & C & F & R).
        exists new, used. rewrite T, T1, <- C1, C.
        repeat split; auto. congruence.
      * intros E; inversion E; subst; clear E.
        exists [], []. cbn [app]. auto.
  - unfold v6_sendpacket. unfold bind at 1.
    change (gettimeofday s) with (clock s (ticks s), advance s 1).
    cbv iota beta zeta. unfold bind at 1.
    destruct (probe port (maketime (clock s (ticks s))) packets (advance s 1))
      as [[failed packets1] s1] eqn:E1.
    apply probe_events_spec in E1.
    cbn [advance trace captured sendto_result sends] in E1.
    destruct E1 as (T1 & C1 & R1 & _).
    destruct failed.
    + intros E; inversion E; subst; clear E.
      exists [], []. cbn [app]. auto.
    + destruct (negb (sniff =? 0)).
      * unfold capture_call, bind, emit, next_frame, ret. cbn [captured].
        rewrite <- C1.
        destruct (captured s1) as [|[res|] rest].
        -- cbn. intros E; inversion E; subst; clear E.
           exists [Bpf_next], []. cbn. rewrite T1.
           split; [reflexivity|]. split; [reflexivity|].
           split; [repeat constructor | exact R1].
        -- destruct (issynack res AF_INET6) eqn:Sy; cbn;
             intros E; inversion E; subst; clear E.
           ++ eexists [_; _; _], [Some res]. cbn. rewrite T1.
              split; [reflexivity|]. split; [reflexivity|].
              assert (F : from_synack AF_INET6 [Some res]
                            (extractsport res AF_INET6))
                by (exists res; cbn; auto).
              split; [|exact R1]. repeat constructor; assumption.
           ++ exists [Bpf_next], [Some res]. cbn. rewrite T1.
              split; [reflexivity|]. split; [reflexivity|].
              split; [repeat constructor | exact R1].
        -- cbn. intros E; inversion E; subst; clear E.
           exists [Bpf_next], [None]. cbn. rewrite T1.
           split; [reflexivity|]. split; [reflexivity|].
           split; [repeat constructor | exact R1].
      * intros E; inversion E; subst; clear E.
        exists [], []. cbn [app]. auto.
Qed.

Lemma assign_exact {A} (m : M (list packet * A)) s packets' a s' :
  assign m s = (packets', a, s') ->
  exists s1, m s = (packets', a, s1)
             /\ s' = snd (emit (Snapshot packets') s1).
Proof.
  unfold assign, bind, emit, ret. destruct (m s) as [[l x] s1]. cbn.
  intros E; inversion E; subst; clear E. eauto.
Qed.

(** ** An induction principle for [scan] *)

Section ScanRule.

Variable fam : family.
(** [J rem packets s]: the main loop has still to send to [rem], the
    variable [packets] holds [packets], the environment is [s]. *)
Variable J : list Z -> list packet -> state -> Prop.
(** What the sweep promises of the retry port it hands out. *)
Variable OK : Z -> list packet -> Prop.

Hypothesis J_emit : forall rem packets s e,
  match e with Comm_send_status _ _ | Snapshot _ => True | _ => False end ->
  J rem packets s -> J rem packets (snd (emit e s)).
Hypothesis J_main : forall p0 rest packets rtt sniff s packets' rtt' s',
  send fam p0 packets rtt sniff s = (packets', rtt', s') ->
  J (p0 :: rest) packets s -> J rest packets' s'.
Hypothesis J_retry : forall port packets rtt sniff s packets' rtt' s',
  fam = AF_INET ->
  sendpacket port packets rtt sniff s = (packets', rtt', s') ->
  J [] packets s -> OK port packets -> J [] packets' s'.
Hypothesis J_sweep : forall packets rtt s packets' retry s',
  rm_dead_packets packets rtt s = (packets', retry, s') ->
  J [] packets s -> J [] packets' s' /\ OK retry packets'.

Lemma rule_main p0 rest packets rtt sniff s packets' rtt' s' :
  assign (send fam p0 packets rtt sniff) s = (packets', rtt', s') ->
  J (p0 :: rest) packets s -> J rest packets' s'.
Proof.
  intros E H. apply assign_exact in E. destruct E as (s1 & E & ->).
  apply J_emit; [exact I|]. eauto.
Qed.

Lemma rule_retry port packets rtt sniff s packets' rtt' s' :
  fam = AF_INET ->
  assign (sendpacket port packets rtt sniff) s = (packets', rtt', s') ->
  J [] packets s -> OK port packets -> J [] packets' s'.
Proof.
  intros F E H K. apply assign_exact in E. destruct E as (s1 & E & ->).
  apply J_emit; [exact I|]. eauto.
Qed.

Lemma rule_sweep packets rtt s packets' retry s' :
  assign (rm_dead_packets packets rtt) s = (packets', retry, s') ->
  J [] packets s -> J [] packets' s' /\ OK retry packets'.
Proof.
  intros E H. apply assign_exact in E. destruct E as (s1 & E & ->).
  destruct (J_sweep _ _ _ _ _ _ E H) as [H1 K]. split; [|exact K].
  apply J_emit; [exact I | exact H1].
Qed.

Lemma rule_status rem packets s i num u s0 :
  (if Z.rem i 100 =? 0 then emit (Comm_send_status i num) else ret tt) s
  = (u, s0) ->
  J rem packets s -> J rem packets s0.
Proof.
  destruct (Z.rem i 100 =? 0); intros E H.
  - replace s0 with (snd (emit (Comm_send_status i num) s))
      by (rewrite E; reflexivity).
    apply J_emit; [exact I | exact H].
  - inversion E; subst. exact H.
Qed.

Lemma rule_scan_ports ports :
  forall i num packets rtt s packets' rtt' s',
  scan_ports fam ports i num packets rtt s = (packets', rtt', s') ->
  J ports packets s -> J [] packets' s'.
Proof.
  induction ports as [|p0|p0 p1 rest IH] using list_pair_ind;
    intros i num packets rtt s packets' rtt' s' E H.
  - cbn in E. inversion E; subst. exact H.
  - cbn [scan_ports] in E. unfold bind at 1 in E.
    destruct ((if Z.rem i 100 =? 0 then emit (Comm_send_status i num)
               else ret tt) s) as [u s0] eqn:E0.
    unfold bind at 1 in E.
    destruct (assign (send fam p0 packets rtt 0) s0) as [[l1 r1] s1] eqn:E1.
    cbn in E. inversion E; subst.
    eapply rule_main; [exact E1|]. eapply rule_status; eassumption.
  - cbn [scan_ports] in E. unfold bind at 1 in E.
    destruct ((if Z.rem i 100 =? 0 then emit (Comm_send_status i num)
               else ret tt) s) as [u s0] eqn:E0.
    unfold bind at 1 in E.
    destruct (assign (send fam p0 packets rtt 0) s0) as [[l1 r1] s1] eqn:E1.
    unfold bind at 1 in E.
    destruct (assign (send fam p1 l1 r1 1) s1) as [[l2 r2] s2] eqn:E2.
    apply (IH _ _ _ _ _ _ _ _ E).
    eapply rule_main; [exact E2|].
    eapply rule_main; [exact E1|]. eapply rule_status; eassumption.
Qed.

Lemma rule_resend left :
  fam = AF_INET ->
  forall retry packets rtt s packets' rtt' retry' s',
  resend left retry packets rtt s = (packets', rtt', retry', s') ->
  J [] packets s -> OK retry packets ->
  J [] packets' s' /\ OK retry' packets'.
Proof.
  intros F. induction left as [|left IH];
    intros retry packets rtt s packets' rtt' retry' s' E H K.
  - cbn in E. inversion E; subst. auto.
  - cbn [resend] in E. destruct (retry =? 0).
    + inversion E; subst. auto.
    + unfold bind at 1 in E.
      destruct (assign (sendpacket retry packets rtt 0) s)
        as [[l1 r1] s1] eqn:E1.
      unfold bind at 1 in E.
      destruct (assign (rm_dead_packets l1 r1) s1) as [[l2 y2] s2] eqn:E2.
      pose proof (rule_retry _ _ _ _ _ _ _ _ F E1 H K) as H1.
      destruct (rule_sweep _ _ _ _ _ _ E2 H1) as [H2 K2].
      eauto.
Qed.

Lemma rule_retry_loop fuel :
  fam = AF_INET ->
  forall packets rtt s finished s',
  retry_loop fuel packets rtt s = (finished, s') ->
  J [] packets s -> exists packets', J [] packets' s'.
Proof.
  intros F. induction fuel as [|fuel IH]; intros packets rtt s finished s' E H.
  - destruct packets; cbn in E; inversion E; subst; eauto.
  - destruct packets as [|e packets]; [inversion E; subst; eauto|].
    cbn [retry_loop] in E. unfold bind at 1 in E.
    destruct (assign (rm_dead_packets (e :: packets) rtt) s)
      as [[l1 y1] s1] eqn:E1.
    unfold bind at 1 in E.
    destruct (resend 2 y1 l1 rtt s1) as [[[l2 r2] y2] s2] eqn:E2.
    unfold bind at 1 in E.
    destruct (assign (sendpacket y2 l2 r2 1) s2) as [[l3 r3] s3] eqn:E3.
    destruct (rule_sweep _ _ _ _ _ _ E1 H) as [H1 K1].
    destruct (rule_resend _ F _ _ _ _ _ _ _ _ E2 H1 K1) as [H2 K2].
    pose proof (rule_retry _ _ _ _ _ _ _ _ F E3 H2 K2) as H3.
    eauto.
Qed.

(** A run of [scan] with the socket open: the loops take [J] from the
    whole port array and the empty table to the end of the main loop; a
    run that returns adds the events of [scan_end]. *)
Lemma scan_rule ports rtt fuel s r s' :
  scan fam ports rtt fuel s = (r, s') ->
  0 <= rawsocket_result s -> J ports [] s ->
  exists packets s1,
    J [] packets s1
    /\ ((r = None /\ s' = s1)
        \/ (r = Some 0
            /\ trace s' = scan_end (Z.of_nat (length ports)) ++ trace s1
            /\ captured s' = captured s1
            /\ sendto_result s' = sendto_result s1
            /\ sends s' = sends s1)).
Proof.
  intros E O H. unfold scan in E. unfold bind at 1 in E.
  unfold rawsocket at 1 in E.
  destruct (rawsocket_result s <? 0) eqn:O'; [apply Z.ltb_lt in O'; lia|].
  unfold bind at 1 in E. unfold openbpf at 1 in E. unfold bind at 1 in E.
  destruct (scan_ports fam ports 0 (Z.of_nat (length ports)) [] rtt s)
    as [[l1 r1] s1] eqn:E1.
  apply rule_scan_ports in E1; [|exact H].
  unfold bind at 1 in E.
  destruct ((match fam with
             | AF_INET => retry_loop fuel l1 r1
             | AF_INET6 => ret true
             end) s1) as [finished s2] eqn:E2.
  assert (H2 : exists packets, J [] packets s2).
  { assert (F : fam = AF_INET \/ fam = AF_INET6) by (destruct fam; auto).
    destruct F as [F | F]; rewrite F in E2.
    - eapply rule_retry_loop; eauto.
    - inversion E2; subst. eauto. }
  destruct H2 as [packets H2]. exists packets, s2. split; [exact H2|].
  destruct finished.
  - right. unfold bind, emit, scan_end in *. cbn in E.
    destruct (65535 <=? Z.of_nat (length ports)); cbn in E;
      inversion E; subst; clear E; cbn; auto.
  - left. inversion E; subst. auto.
Qed.

End ScanRule.

(** ** Where the probes go *)

Lemma send_table fam port packets rtt sniff s packets' rtt' s' :
  send fam port packets rtt sniff s = (packets', rtt', s') ->
  sublist packets'
    (if port =? 0 then packets
     else add_packet packets (ushort port) (maketime (clock s (ticks s)))).
Proof.
  intros E. destruct fam;
    [apply sendpacket_post in E | apply v6_sendpacket_post in E]; tauto.
Qed.

Lemma probe_events_sent port ack res :
  port <> 0 -> In (Sendto (ushort port) ack TH_SYN res) (probe_events port ack res).
Proof.
  intros N. unfold probe_events.
  destruct (port =? 0) eqn:Z0; [apply Z.eqb_eq in Z0; lia|].
  destruct (res <? 0); cbn; auto.
Qed.

Lemma send_run_inv ports fam tape rem rem' port packets rtt sniff s
  packets' rtt' s' :
  send fam port packets rtt sniff s = (packets', rtt', s') ->
  Forall (fun p => 0 <= p < 65536) ports ->
  incl rem' rem -> (forall p, In p rem -> p = port \/ In p rem') ->
  listed ports port packets ->
  run_inv ports fam tape rem packets s ->
  run_inv ports fam tape rem' packets' s'.
Proof.
  intros E R Sub Cov L (I0 & T0 & (used0 & U0) & F0 & C0).
  pose proof (send_table _ _ _ _ _ _ _ _ _ E) as St.
  apply send_events in E. destruct E as (tail & used & T & C & F & _).
  assert (Hp : port <> 0 -> ushort port = port /\ In port ports).
  { intros N. destruct L as [-> | [Ip _]]; [lia|]. split; [|exact Ip].
    rewrite Forall_forall in R. apply ushort_small, R, Ip. }
  unfold run_inv. split; [|split; [|split; [|split]]].
  - intros p Ip. apply I0, Sub, Ip.
  - intros p Ip.
    apply (sublist_In _ _ _ (sublist_map dport _ _ St)) in Ip.
    destruct (port =? 0) eqn:Z0; [now apply T0|].
    apply Z.eqb_neq in Z0. destruct (Hp Z0) as [Eu Ip0]. rewrite Eu in Ip.
    apply add_packet_ports in Ip. destruct Ip as [-> | Ip]; auto.
  - exists (used0 ++ used). rewrite U0, C, app_assoc. reflexivity.
  - rewrite T. apply Forall_app. split; [|apply Forall_app; split].
    + eapply Forall_impl; [|exact F]. intros e He.
      assert (M : forall p, from_synack fam used p -> from_synack fam tape p).
      { intros p. apply from_synack_mono. rewrite U0, C.
        intros x Ix. apply in_or_app. right. apply in_or_app. now left. }
      destruct e; cbn in *; try tauto.
      * right. destruct He. auto.
      * auto.
    + unfold probe_events. destruct (port =? 0) eqn:Z0; [constructor|].
      apply Z.eqb_neq in Z0. destruct (Hp Z0) as [Eu Ip0]. rewrite Eu.
      destruct (_ <? 0); repeat constructor; cbn; auto.
    + exact F0.
  - intros p Ip Np. destruct (C0 p Ip Np) as [Ir | (seq & r & Is)].
    + destruct (Cov p Ir) as [-> | Ir']; [|now left]. right.
      destruct (Hp Np) as [Eu _].
      eexists _, _. rewrite T. apply in_or_app. right. apply in_or_app. left.
      rewrite <- Eu at 1. now apply probe_events_sent.
    + right. exists seq, r. rewrite T. apply in_or_app. right.
      apply in_or_app. now right.
Qed.

Lemma sweep_state packets rtt s packets' retry s' :
  rm_dead_packets packets rtt s = (packets', retry, s') ->
  sublist packets' packets
  /\ s' = advance s (length packets)
  /\ retry_ok retry packets'.
Proof.
  intros E. pose proof E as E'. unfold rm_dead_packets in E.
  apply rm_dead_packets_from_post in E. destruct E as (Sub & _ & K).
  unfold rm_dead_packets in E'. rewrite rm_dead_packets_from_spec in E'.
  inversion E'. split; [|split].
  - rewrite H0. exact Sub.
  - reflexivity.
  - rewrite H0, H1. destruct K as [-> | K]; [now left | now right].
Qed.

Lemma sweep_run_inv ports fam tape packets rtt s packets' retry s' :
  rm_dead_packets packets rtt s = (packets', retry, s') ->
  run_inv ports fam tape [] packets s ->
  run_inv ports fam tape [] packets' s' /\ listed ports retry packets'.
Proof.
  intros E (I0 & T0 & U0 & F0 & C0).
  apply sweep_state in E. destruct E as (Sub & -> & K).
  assert (T1 : forall p, In p (map dport packets') -> In p ports /\ p <> 0).
  { intros p Ip. apply T0.
    revert Ip. apply sublist_In, sublist_map, Sub. }
  split.
  - unfold run_inv. cbn [advance captured trace]. auto.
  - destruct K as [-> | (e & Ie & <- & _)]; [now left|]. right.
    apply T1, in_map, Ie.
Qed.

Lemma emit_run_inv ports fam tape rem packets s e :
  match e with Comm_send_status _ _ | Snapshot _ => True | _ => False end ->
  run_inv ports fam tape rem packets s ->
  run_inv ports fam tape rem packets (snd (emit e s)).
Proof.
  intros He (I0 & T0 & U0 & F0 & C0). unfold run_inv. cbn.
  split; [exact I0|]. split; [exact T0|]. split; [exact U0|]. split.
  - constructor; [|exact F0]. destruct e; cbn; tauto.
  - intros p Ip Np. destruct (C0 p Ip Np) as [Ir | (seq & r & Is)]; eauto.
Qed.

(** The events of a run of [scan] that started with an empty trace: those
    of the loops, [rest], and on return of 0 those of [scan_end]. *)
Lemma scan_run fam ports rtt fuel s :
  Forall (fun p => 0 <= p < 65536) ports -> trace s = [] ->
  exists rest,
    Forall (scan_event ports fam (captured s)) rest
    /\ (0 <= rawsocket_result s ->
        forall p, In p ports -> p <> 0 ->
                  exists seq r, In (Sendto p seq TH_SYN r) rest)
    /\ ((fst (scan fam ports rtt fuel s) = Some 0
         /\ trace (snd (scan fam ports rtt fuel s))
            = scan_end (Z.of_nat (length ports)) ++ rest)
        \/ (fst (scan fam ports rtt fuel s) <> Some 0
            /\ trace (snd (scan fam ports rtt fuel s)) = rest)).
Proof.
  intros R T.
  destruct (Z_lt_le_dec (rawsocket_result s) 0) as [Neg | Pos].
  - exists []. split; [constructor|]. split; [lia|]. right.
    unfold scan, bind, rawsocket.
    apply Z.ltb_lt in Neg. rewrite Neg. cbn. split; [discriminate | exact T].
  - destruct (scan fam ports rtt fuel s) as [r s'] eqn:E.
    apply (scan_rule fam (run_inv ports fam (captured s)) (listed ports))
      in E; [| | | | |exact Pos|].
    + destruct E as (packets & s1 & (I0 & T0 & U0 & F0 & C0) & Fin).
      exists (trace s1). split; [exact F0|]. split.
      * intros _ p Ip Np. destruct (C0 p Ip Np) as [[] | H]. exact H.
      * cbn [fst snd].
        destruct Fin as [[-> ->] | (-> & Tr & _)];
          [right; split; [discriminate | reflexivity] | left; auto].
    + intros. now apply emit_run_inv.
    + intros p0 rest packets rtt0 sniff s0 packets' rtt' s0' E0 H.
      eapply send_run_inv; [exact E0 | exact R | | | | exact H].
      * intros x. cbn. auto.
      * intros x [<- | Ix]; auto.
      * destruct (Z.eq_dec p0 0) as [-> | N]; [now left|]. right.
        split; [|exact N]. destruct H as [I0 _]. apply I0. now left.
    + intros port packets rtt0 sniff s0 packets' rtt' s0' F0 E0 H K.
      apply (send_run_inv ports fam (captured s) [] [] port packets rtt0
               sniff s0 packets' rtt' s0'); auto.
      * rewrite F0. exact E0.
      * intros x Ix. exact Ix.
    + intros. eapply sweep_run_inv; eassumption.
    + unfold run_inv. rewrite T.
      split; [intros x Ix; exact Ix|]. split; [intros p []|].
      split; [exists []; reflexivity|]. split; [constructor | auto].
Qed.

(** ** How often a port is probed *)

Lemma syn_count_app p a b :
  syn_count p (a ++ b) = (syn_count p a + syn_count p b)%nat.
Proof. unfold syn_count. now rewrite filter_app, length_app. Qed.

Lemma syn_count_replies fam used tail p :
  Forall (reply_event fam used) tail -> syn_count p tail = 0%nat.
Proof.
  induction 1 as [|e tail He F IH]; [reflexivity|].
  unfold syn_count in *. cbn [filter].
  destruct e; cbn in *; try tauto.
  destruct He as [-> _]. now rewrite andb_false_r.
Qed.

Lemma syn_count_probe port ack res q :
  0 <= port < 65536 ->
  syn_count q (probe_events port ack res)
  = if negb (port =? 0) && (port =? q) then 1%nat else 0%nat.
Proof.
  intros R. unfold probe_events. rewrite (ushort_small port R).
  destruct (port =? 0); [reflexivity|]. cbn [negb andb].
  unfold syn_count.
  destruct (res <? 0); cbn [filter is_syn]; rewrite Z.eqb_refl, andb_true_r;
    destruct (port =? q); reflexivity.
Qed.

Lemma get_packet_none_fresh l port :
  get_packet l port = None -> ~ In port (map dport l).
Proof.
  induction l as [|x l IH]; cbn; [tauto|].
  destruct (dport x =? port) eqn:E; [discriminate|].
  apply Z.eqb_neq in E. intros G [H | H]; [lia | now apply IH].
Qed.

Lemma touch_packet_In l port ack e' :
  NoDup (map dport l) -> In e' (touch_packet l port ack) ->
  (In e' l /\ dport e' <> port)
  \/ (exists e, get_packet l port = Some e
                /\ e' = mk_packet (dport e) ack (retries e + 1)).
Proof.
  induction l as [|x l IH]; cbn [touch_packet get_packet map]; [intros _ []|].
  intros N. inversion N as [|? ? Nx N']; subst.
  destruct (dport x =? port) eqn:E.
  - apply Z.eqb_eq in E. intros [<- | I]; [right; eauto|]. left.
    split; [now right|]. intros D. apply Nx. rewrite E, <- D. now apply in_map.
  - apply Z.eqb_neq in E. intros [<- | I]; [left; split; [now left | exact E]|].
    destruct (IH N' I) as [[I' D] | H]; [left; split; [now right | exact D]|].
    now right.
Qed.

Lemma add_packet_In l port ack e' :
  NoDup (map dport l) -> In e' (add_packet l port ack) ->
  (In e' l /\ dport e' <> port)
  \/ (dport e' = port
      /\ match get_packet l port with
         | Some e => retries e' = retries e + 1
         | None => retries e' = 0
         end).
Proof.
  intros N. unfold add_packet.
  destruct (get_packet l port) as [e|] eqn:G.
  - intros I. destruct (touch_packet_In _ _ _ _ N I) as [H | (e0 & G0 & ->)];
      [now left|].
    right. rewrite G in G0. inversion G0; subst. cbn.
    split; [|reflexivity]. now destruct (get_packet_some_port _ _ _ G).
  - intros [<- | I]; [right; cbn; auto|]. left. split; [exact I|].
    intros D. apply (get_packet_none_fresh _ _ G). rewrite <- D.
    now apply in_map.
Qed.

Lemma add_packet_NoDup l port ack :
  NoDup (map dport l) -> NoDup (map dport (add_packet l port ack)).
Proof.
  intros N. unfold add_packet. destruct (get_packet l port) eqn:G.
  - now rewrite touch_packet_ports.
  - cbn. constructor; [now apply get_packet_none_fresh | exact N].
Qed.

Lemma count_ok_sublist l l' tr :
  sublist l l' -> count_ok l' tr -> count_ok l tr.
Proof.
  intros S (N & E & B). split; [|split; [|exact B]].
  - eapply sublist_NoDup; [apply sublist_map, S | exact N].
  - intros e I. apply E. eapply sublist_In; eassumption.
Qed.

Lemma send_count fam port packets rtt sniff s packets' rtt' s' :
  send fam port packets rtt sniff s = (packets', rtt', s') ->
  0 <= port < 65536 ->
  count_ok packets (trace s) ->
  (port = 0
   \/ match get_packet packets port with
      | Some e => retries e < NUM_RETRIES
      | None => syn_count port (trace s) = 0%nat
      end) ->
  count_ok packets' (trace s')
  /\ (forall q, q <> port -> syn_count q (trace s') = syn_count q (trace s))
  /\ (forall q, In q (map dport packets') ->
                q = port \/ In q (map dport packets)).
Proof.
  intros E R (N & En & B) Hp.
  pose proof (send_table _ _ _ _ _ _ _ _ _ E) as St.
  apply send_events in E. destruct E as (tail & used & T & _ & F & _).
  assert (Cnt : forall q,
            syn_count q (trace s')
            = Nat.add (if negb (port =? 0) && (port =? q)
                       then 1%nat else 0%nat)
                (syn_count q (trace s))).
  { intros q. rewrite T, !syn_count_app, (syn_count_replies _ _ _ _ F).
    now rewrite syn_count_probe. }
  assert (Oth : forall q, q <> port ->
                          syn_count q (trace s') = syn_count q (trace s)).
  { intros q Nq. rewrite Cnt.
    destruct (port =? q) eqn:Eq; [apply Z.eqb_eq in Eq; lia|].
    now rewrite andb_false_r. }
  split; [|split; [exact Oth|]].
  - rewrite (ushort_small port R) in St.
    eapply count_ok_sublist; [exact St|].
    destruct (port =? 0) eqn:Z0.
    + split; [exact N|]. split.
      * intros e I. rewrite Cnt. cbn. now apply En.
      * intros p. rewrite Cnt. cbn. apply B.
    + assert (Own : syn_count port (trace s')
                    = S (syn_count port (trace s)))
        by (rewrite Cnt, Z.eqb_refl; reflexivity).
      destruct Hp as [-> | Hp]; [discriminate|].
      set (ack := maketime (clock s (ticks s))) in *.
      assert (New : forall e', In e' (add_packet packets port ack) ->
                0 <= dport e' < 65536
                /\ retries e' <= NUM_RETRIES
                /\ Z.of_nat (syn_count (dport e') (trace s'))
                   = retries e' + 1).
      { intros e' I.
        destruct (add_packet_In _ _ _ _ N I) as [[I' D] | [D Hr]].
        - rewrite (Oth _ D). now apply En.
        - rewrite D, Own. split; [exact R|].
          destruct (get_packet packets port) as [e|] eqn:G.
          + destruct (get_packet_some_port _ _ _ G) as [De Ie].
            destruct (En e Ie) as (_ & _ & Ce). rewrite De in Ce. lia.
          + rewrite Hp. unfold NUM_RETRIES. lia. }
      split; [now apply add_packet_NoDup|]. split; [exact New|].
      intros p. destruct (Z.eq_dec p port) as [-> | Np].
      * destruct (get_packet packets port) as [e|] eqn:G.
        -- destruct (get_packet_some_port _ _ _ G) as [De Ie].
           destruct (En e Ie) as (_ & _ & Ce). rewrite De in Ce.
           rewrite Own. lia.
        -- rewrite Own, Hp. unfold NUM_RETRIES. lia.
      * rewrite (Oth _ Np). apply B.
  - intros q Iq.
    apply (sublist_In _ _ _ (sublist_map dport _ _ St)) in Iq.
    destruct (port =? 0); [now right|].
    rewrite (ushort_small port R) in Iq. now apply add_packet_ports in Iq.
Qed.

(** X16.  When no port is listed twice, no port has a SYN handed to
    [sendto] more than [NUM_RETRIES + 1] = 3 times in a run: once by the
    main loop and at most twice by the retry loop. *)
Theorem at_most_three_syns_per_port fam ports rtt fuel s :
  NoDup ports -> Forall (fun p => 0 <= p < 65536) ports -> trace s = [] ->
  forall p,
    Z.of_nat (syn_count p (trace (snd (scan fam ports rtt fuel s))))
    <= NUM_RETRIES + 1.
Proof.
  intros N R T p.
  destruct (Z_lt_le_dec (rawsocket_result s) 0) as [Neg | Pos].
  - unfold scan, bind, rawsocket.
    apply Z.ltb_lt in Neg. rewrite Neg. cbn. rewrite T. cbn.
    unfold NUM_RETRIES. lia.
  - destruct (scan fam ports rtt fuel s) as [r s'] eqn:E.
    apply (scan_rule fam count_inv retry_ok) in E; [| | | | |exact Pos|].
    + destruct E as (packets & s1 & (_ & _ & _ & _ & _ & B) & Fin).
      cbn [snd]. destruct Fin as [[_ ->] | (_ & -> & _)]; [apply B|].
      rewrite syn_count_app.
      replace (syn_count p (scan_end (Z.of_nat (length ports)))) with 0%nat;
        [apply B|].
      unfold scan_end. now destruct (65535 <=? _).
    + intros rem packets s0 e He (N0 & R0 & Fr & (Nd & En & B)).
      assert (Cnt : forall q, syn_count q (trace (snd (emit e s0)))
                              = syn_count q (trace s0))
        by (intros q; destruct e; cbn in *; tauto).
      split; [exact N0|]. split; [exact R0|]. split.
      * intros q I. rewrite Cnt. now apply Fr.
      * split; [exact Nd|].
        split; [intros x I; rewrite Cnt; now apply En|].
        intros q. rewrite Cnt. apply B.
    + intros p0 rest packets rtt0 sniff s0 packets' rtt' s0' E0
        (N0 & R0 & Fr & C).
      inversion N0 as [|? ? N1 N2]; subst.
      inversion R0 as [|? ? R1 R2]; subst.
      destruct (Fr p0 (or_introl eq_refl)) as [Fp Cp].
      destruct (send_count _ _ _ _ _ _ _ _ _ E0 R1 C) as (C' & Oth & W).
      { right. now rewrite (get_packet_not_in _ _ Fp). }
      split; [exact N2|]. split; [exact R2|]. split; [|exact C'].
      intros q Iq. assert (Nq : q <> p0) by (intros ->; contradiction).
      destruct (Fr q (or_intror Iq)) as [Fq Cq].
      split; [|now rewrite (Oth _ Nq)].
      intros I. destruct (W _ I) as [-> | I']; contradiction.
    + intros port packets rtt0 sniff s0 packets' rtt' s0' F0 E0
        (N0 & R0 & Fr & C) K.
      assert (Ep : send fam port packets rtt0 sniff s0 = (packets', rtt', s0'))
        by (rewrite F0; exact E0).
      assert (Hp : 0 <= port < 65536
                   /\ (port = 0
                       \/ match get_packet packets port with
                          | Some e => retries e < NUM_RETRIES
                          | None => syn_count port (trace s0) = 0%nat
                          end)).
      { destruct K as [-> | (e & Ie & <- & Le)]; [split; [lia | now left]|].
        destruct C as (Nd & En & _). split; [now apply En|]. right.
        now rewrite (get_packet_NoDup _ _ Nd Ie). }
      destruct Hp as [Rp Hp].
      destruct (send_count _ _ _ _ _ _ _ _ _ Ep Rp C Hp) as (C' & _ & _).
      split; [constructor|]. split; [constructor|].
      split; [intros q []|exact C'].
    + intros packets rtt0 s0 packets' retry s0' E0 (N0 & R0 & Fr & C).
      apply sweep_state in E0. destruct E0 as (Sub & -> & K).
      split; [|exact K]. cbn [advance]. unfold count_inv. cbn [trace].
      split; [exact N0|]. split; [exact R0|]. split; [intros q []|].
      eapply count_ok_sublist; eassumption.
    + split; [exact N|]. split; [exact R|]. rewrite T. split.
      * intros q _. split; [intros [] | reflexivity].
      * split; [constructor|]. split; [intros e []|].
        intros q. cbn. unfold NUM_RETRIES. lia.
Qed.

(** ** The handles *)

Lemma scan_open fam ports rtt fuel s :
  (forall k, 0 <= sendto_result s k) -> trace s = [] ->
  0 <= rawsocket_result s ->
  exists rest,
    Forall (fun e => is_close e = false) rest
    /\ ((fst (scan fam ports rtt fuel s) = Some 0
         /\ trace (snd (scan fam ports rtt fuel s))
            = scan_end (Z.of_nat (length ports)) ++ rest)
        \/ (fst (scan fam ports rtt fuel s) = None
            /\ trace (snd (scan fam ports rtt fuel s)) = rest)).
Proof.
  intros Ok T Pos.
  destruct (scan fam ports rtt fuel s) as [r s'] eqn:E.
  apply (scan_rule fam open_inv (fun _ _ => True)) in E;
    [| | | | |exact Pos|].
  - destruct E as (packets & s1 & (_ & F) & Fin).
    exists (trace s1). split; [exact F|]. cbn [fst snd].
    destruct Fin as [[-> ->] | (-> & Tr & _)]; auto.
  - intros rem packets s0 e He [O F]. split; [exact O|]. cbn.
    constructor; [|exact F]. destruct e; cbn in *; tauto.
  - intros p0 rest packets rtt0 sniff s0 packets' rtt' s0' E0 [O F].
    apply send_events in E0. destruct E0 as (tail & used & T0 & _ & F0 & R0).
    split; [now rewrite R0|]. rewrite T0.
    apply Forall_app. split; [|apply Forall_app; split; [|exact F]].
    + eapply Forall_impl; [|exact F0]. intros e. destruct e; cbn; tauto.
    + unfold probe_events. destruct (p0 =? 0); [constructor|].
      specialize (O (sends s0)). apply Z.ltb_ge in O. rewrite O.
      repeat constructor.
  - intros port packets rtt0 sniff s0 packets' rtt' s0' Fm E0 [O F] _.
    assert (Ep : send AF_INET port packets rtt0 sniff s0 = (packets', rtt', s0'))
      by exact E0.
    apply send_events in Ep. destruct Ep as (tail & used & T0 & _ & F0 & R0).
    split; [now rewrite R0|]. rewrite T0.
    apply Forall_app. split; [|apply Forall_app; split; [|exact F]].
    + eapply Forall_impl; [|exact F0]. intros e. destruct e; cbn; tauto.
    + unfold probe_events. destruct (port =? 0); [constructor|].
      specialize (O (sends s0)). apply Z.ltb_ge in O. rewrite O.
      repeat constructor.
  - intros packets rtt0 s0 packets' retry s0' E0 [O F].
    apply sweep_state in E0. destruct E0 as (_ & -> & _).
    split; [|exact I]. split; assumption.
  - split; [exact Ok|]. rewrite T. constructor.
Qed.

(** ** Round-trip discovery, as a whole *)

Lemma saturation_positive : 0 < htonl (Z.shiftl 1 28).
Proof.
  pose proof (htonl_range (Z.shiftl 1 28)) as R.
  assert (N : htonl (Z.shiftl 1 28) <> 0).
  { change (Z.shiftl 1 28) with 268435456.
    intros E.
    assert (B : 0 <= 268435456 < 4294967296) by lia.
    apply (proj1 (htonl_zero_iff 268435456 B)) in E. discriminate E. }
  lia.
Qed.

Lemma find_beacons_found ports : forall use s,
  (length use < 3)%nat ->
  match fst (find_beacons ports use s) with
  | Some use' =>
      exists found, use' = use ++ found /\ sublist found ports
                    /\ (length use' <= 3)%nat
                    /\ (found = [] -> use' = use)
  | None => exists k, sendto_result s k < 0
  end.
Proof.
  induction ports as [|p rest IH]; intros use s L.
  - cbn. exists []. rewrite app_nil_r.
    split; [reflexivity|]. split; [apply sublist_nil|]. split; [lia | auto].
  - cbn [find_beacons]. unfold bind at 1.
    change (gettimeofday s) with (clock s (ticks s), advance s 1).
    cbv iota beta zeta. unfold bind at 1. unfold sendto at 1.
    cbv iota beta zeta. cbn [advance sendto_result sends].
    destruct (sendto_result s (sends s) <? 0) eqn:F.
    + cbn. exists (sends s). now apply Z.ltb_lt in F.
    + unfold bind at 1.
      match goal with
      | |- context [capture_call ?d ?s0] =>
          destruct (capture_call d s0) as [res s1] eqn:E1
      end.
      assert (R1 : sendto_result s1 = sendto_result s).
      { unfold capture_call, bind, emit, next_frame, ret in E1.
        cbn [captured advance] in E1.
        destruct (captured s) as [|[f|] tape]; cbn in E1;
          inversion E1; reflexivity. }
      destruct res as [f|].
      * destruct (3 <=? Z.of_nat (length (use ++ [p]))) eqn:Full.
        -- cbn. exists [p]. split; [reflexivity|].
           split; [apply sublist_keep, sublist_nil_l|].
           rewrite length_app in *. cbn [length] in *.
           split; [lia | discriminate].
        -- apply Z.leb_gt in Full.
           specialize (IH (use ++ [p]) s1).
           destruct (fst (find_beacons rest (use ++ [p]) s1)) as [use'|].
           ++ destruct IH as (found & -> & Sub & Len & _); [lia|].
              exists (p :: found). rewrite <- app_assoc.
              split; [reflexivity|]. split; [now apply sublist_keep|].
              split; [now rewrite <- app_assoc in Len | discriminate].
           ++ rewrite <- R1. apply IH. lia.
      * specialize (IH use s1 L).
        destruct (fst (find_beacons rest use s1)) as [use'|].
        -- destruct IH as (found & -> & Sub & Len & Em).
           exists found. split; [reflexivity|].
           split; [now apply sublist_skip | auto].
        -- rewrite <- R1. exact IH.
Qed.

(** X19.  The beacon search of [find_rtt] returns at most three ports,
    taken in order from its port list, unless a [sendto] fails. *)
Theorem find_beacons_result ports s :
  match fst (find_beacons ports [] s) with
  | Some use => sublist use ports /\ (length use <= 3)%nat
  | None => exists k, sendto_result s k < 0
  end.
Proof.
  pose proof (find_beacons_found ports [] s) as H. cbn [length] in H.
  destruct (fst (find_beacons ports [] s)) as [use|]; [|apply H; lia].
  destruct H as (found & -> & Sub & Len & _); [lia|]. auto.
Qed.

(** X20.  [find_rtt] always returns, with -1, 0 or 1: with -1 it leaves
    [*rtt] alone, with 0 it stores the saturation value, and with 1 it
    stores a value that is not 0. *)
Theorem find_rtt_always_returns rtt s :
  exists code rtt' s',
    find_rtt rtt s = (Some (code, rtt'), s')
    /\ ((code = -1 /\ rtt' = rtt)
        \/ (code = 0 /\ rtt' = htonl (Z.shiftl 1 28))
        \/ (code = 1 /\ 0 < rtt')).
Proof.
  unfold find_rtt. unfold bind at 1. unfold rawsocket at 1.
  cbv beta iota.
  destruct (rawsocket_result s <? 0);
    [eexists _, _, _; split; [reflexivity | left; auto]|].
  unfold bind at 1. unfold openbpf at 1. cbv beta iota.
  destruct (openbpf_result s <? 0);
    [eexists _, _, _; split; [reflexivity | left; auto]|].
  unfold bind at 1.
  destruct (find_beacons beacons [] s) as [[use|] s1];
    [|eexists _, _, _; split; [reflexivity | left; auto]].
  destruct use as [|u use];
    [eexists _, _, _; split; [reflexivity | right; left; auto]|].
  unfold bind at 1.
  destruct (measure_outcome measure_rounds (u :: use) (mk_vars 0 0 0 0 0 0) s1)
    as (exit & s2 & k & E & H).
  - cbn; lia.
  - cbn; lia.
  - cbn; lia.
  - left. cbn. lia.
  - rewrite E. destruct exit as [v | v].
    + eexists _, _, _. split; [reflexivity | right; left; auto].
    + destruct H as (_ & _ & _ & _ & Mx).
      unfold finish, bind, emit, ret. cbn.
      eexists _, _, _. split; [reflexivity|]. right. right.
      split; [reflexivity|].
      destruct (max v =? 0) eqn:Z0; [apply saturation_positive|].
      apply Z.eqb_neq in Z0. unfold maxima_ok in Mx. lia.
Qed.

(** ** The plugin entry point *)

(** X21.  [plugin_run_synscan] does nothing on the local host; on another
    host it ignores the result of [scan]: when the raw socket cannot be
    opened it still returns after marking the host as scanned
    ([Host/scanned], [Host/scanners/synscan]), no probe having been
    sent. *)
Theorem host_marked_scanned_without_socket fam ports fuel s :
  rawsocket_result s < 0 ->
  plugin_run_synscan true fam ports fuel s = (Some tt, s)
  /\ fst (plugin_run_synscan false fam ports fuel s) = Some tt
  /\ trace (snd (plugin_run_synscan false fam ports fuel s))
     = [Plug_set_key "Host/scanners/synscan"; Plug_set_key "Host/scanned"]
       ++ trace s
  /\ sends (snd (plugin_run_synscan false fam ports fuel s)) = sends s.
Proof.
  intros Neg. apply Z.ltb_lt in Neg.
  split; [reflexivity|].
  unfold plugin_run_synscan, scan, bind, rawsocket. rewrite Neg. cbn. auto.
Qed.


(** ** What a run of [scan] does, whatever the network answers *)

(** X13.  [scan] hands a SYN to [sendto] only for ports of its port
    array, and never for port 0: the retries go to ports of table entries,
    which are listed ones. *)
Theorem syn_probes_go_to_listed_ports fam ports rtt fuel s port seq r :
  Forall (fun p => 0 <= p < 65536) ports -> trace s = [] ->
  In (Sendto port seq TH_SYN r) (trace (snd (scan fam ports rtt fuel s))) ->
  In port ports /\ port <> 0.
Proof.
  intros R T H.
  destruct (scan_run fam ports rtt fuel s R T) as (rest & F & _ & Fin).
  assert (Hr : In (Sendto port seq TH_SYN r) rest).
  { destruct Fin as [[_ Tr] | [_ Tr]]; rewrite Tr in H; [|exact H].
    apply in_app_or in H. destruct H as [H | H]; [|exact H].
    unfold scan_end in H. exfalso.
    destruct (65535 <=? _); cbn in H; intuition discriminate. }
  rewrite Forall_forall in F. specialize (F _ Hr). cbn in F.
  destruct F as [(_ & I1 & I2) | [D _]]; [auto | discriminate D].
Qed.

(** X14.  Once the raw socket is open, [scan] hands a SYN to [sendto] for
    every nonzero port of its port array, whatever the earlier [sendto]
    calls returned and however the run goes on. *)
Theorem every_listed_port_is_probed fam ports rtt fuel s p :
  Forall (fun p => 0 <= p < 65536) ports -> trace s = [] ->
  0 <= rawsocket_result s -> In p ports -> p <> 0 ->
  exists seq r,
    In (Sendto p seq TH_SYN r) (trace (snd (scan fam ports rtt fuel s))).
Proof.
  intros R T O Ip Np.
  destruct (scan_run fam ports rtt fuel s R T) as (rest & _ & C & Fin).
  destruct (C O p Ip Np) as (seq & r & H). exists seq, r.
  destruct Fin as [[_ ->] | [_ ->]]; [|exact H].
  apply in_or_app. now right.
Qed.

(** X15.  A port is reported open ([scanner_add_port]) or reset (a RST
    handed to [sendto]) only when the capture delivered a frame with the
    flags SYN|ACK whose source port it is -- whether or not a probe was
    sent to that port. *)
Theorem reported_ports_come_from_synacks fam ports rtt fuel s p :
  Forall (fun p => 0 <= p < 65536) ports -> trace s = [] ->
  In (Scanner_add_port p) (trace (snd (scan fam ports rtt fuel s)))
  \/ (exists seq r,
        In (Sendto p seq TH_RST r) (trace (snd (scan fam ports rtt fuel s)))) ->
  from_synack fam (captured s) p.
Proof.
  intros R T H.
  destruct (scan_run fam ports rtt fuel s R T) as (rest & F & _ & Fin).
  rewrite Forall_forall in F.
  assert (Hr : forall e, In e (trace (snd (scan fam ports rtt fuel s))) ->
                 match e with
                 | Scanner_add_port _ | Sendto _ _ _ _ => In e rest
                 | _ => True
                 end).
  { intros e He. destruct Fin as [[_ Tr] | [_ Tr]]; rewrite Tr in He.
    - apply in_app_or in He. destruct He as [He | He]; [|now destruct e].
      unfold scan_end in He.
      destruct (65535 <=? _); cbn in He;
        destruct e; auto; intuition discriminate.
    - now destruct e. }
  destruct H as [H | (seq & r & H)].
  - apply Hr, F in H. exact H.
  - apply Hr, F in H. cbn in H.
    destruct H as [[D _] | [_ H]]; [discriminate D | exact H].
Qed.

(** X17.  The key [Host/full_scan] is set exactly by the runs that come
    to their end (return 0) on a port array of at least 65535 entries. *)
Theorem full_scan_key_iff fam ports rtt fuel s :
  Forall (fun p => 0 <= p < 65536) ports -> trace s = [] ->
  (In (Plug_set_key "Host/full_scan")
      (trace (snd (scan fam ports rtt fuel s)))
   <-> fst (scan fam ports rtt fuel s) = Some 0
       /\ 65535 <= Z.of_nat (length ports)).
Proof.
  intros R T.
  destruct (scan_run fam ports rtt fuel s R T) as (rest & F & _ & Fin).
  assert (Nr : ~ In (Plug_set_key "Host/full_scan") rest).
  { intros H. rewrite Forall_forall in F. exact (F _ H). }
  destruct Fin as [[Er Tr] | [Er Tr]]; rewrite Tr.
  - unfold scan_end.
    destruct (65535 <=? Z.of_nat (length ports)) eqn:L.
    + apply Z.leb_le in L. split; [auto|]. intros _. now left.
    + apply Z.leb_gt in L. split; [|lia]. intros H.
      cbn in H. intuition discriminate.
  - split; [intros H; contradiction | intros [H _]; contradiction].
Qed.

(** X18.  When no [sendto] fails, a run that comes to its end closes the
    socket and the capture exactly once each, after the last probe: the
    events of the loops hold no close. *)
Theorem handles_closed_once fam ports rtt fuel s :
  (forall k, 0 <= sendto_result s k) -> trace s = [] ->
  fst (scan fam ports rtt fuel s) = Some 0 ->
  exists rest,
    trace (snd (scan fam ports rtt fuel s))
    = scan_end (Z.of_nat (length ports)) ++ rest
    /\ Forall (fun e => is_close e = false) rest.
Proof.
  intros Ok T E.
  destruct (Z_lt_le_dec (rawsocket_result s) 0) as [Neg | Pos].
  - exfalso. revert E. unfold scan, bind, rawsocket.
    apply Z.ltb_lt in Neg. rewrite Neg. discriminate.
  - destruct (scan_open fam ports rtt fuel s Ok T Pos)
      as (rest & F & [[_ Tr] | [En _]]); [eauto | congruence].
Qed.



(** ** The table after the sending routine *)

Lemma reply_table ack res packets rtt s :
  fst (fst (reply ack res packets rtt s))
  = rm_packet packets (extractsport res AF_INET).
Proof.
  unfold reply, bind. destruct (issynack res AF_INET); reflexivity.
Qed.

Lemma drain_table frames : forall ack rtt_tv packets rtt s,
  fst (fst (drain frames ack rtt_tv packets rtt s))
  = fold_left rm_packet
      (map (fun f => extractsport f AF_INET) (leading frames)) packets.
Proof.
  induction frames as [|[res|] rest IH]; intros ack rtt_tv packets rtt s.
  - reflexivity.
  - cbn [drain leading map fold_left]. unfold bind at 1 2 3.
    cbn [emit set_captured].
    match goal with
    | |- context [reply ack res packets rtt ?s0] =>
        pose proof (reply_table ack res packets rtt s0) as R;
        destruct (reply ack res packets rtt s0) as [[p1 r1] s1]
    end.
    cbn [fst] in R. rewrite IH, R. reflexivity.
  - reflexivity.
Qed.

(** X23.  With its probe sent and [sniff] set, [sendpacket] handles the
    captured frames up to the first timeout and unlinks the source port of
    each of them from the table, whatever its flags: the table returned is
    the one it was given, with the probed port registered and those ports
    removed in turn. *)
Theorem sendpacket_table port packets rtt sniff s :
  0 <= sendto_result s (sends s) -> sniff <> 0 ->
  fst (fst (sendpacket port packets rtt sniff s))
  = fold_left rm_packet
      (map (fun f => extractsport f AF_INET) (leading (captured s)))
      (if port =? 0 then packets
       else add_packet packets (ushort port) (maketime (clock s (ticks s)))).
Proof.
  intros Ok Sn. unfold sendpacket. unfold bind at 1.
  change (gettimeofday s) with (clock s (ticks s), advance s 1).
  cbv iota beta zeta. unfold bind at 1.
  destruct (probe port (maketime (clock s (ticks s))) packets (advance s 1))
    as [[failed packets1] s1] eqn:E1.
  pose proof (probe_events_spec _ _ _ _ _ _ _ E1) as (_ & C1 & _ & Fl).
  apply probe_post in E1. destruct E1 as [_ H1].
  cbn [advance sendto_result sends captured] in Fl, C1.
  apply Z.ltb_ge in Ok. rewrite Ok, andb_false_r in Fl. subst failed.
  destruct (H1 eq_refl) as [-> _].
  apply Z.eqb_neq in Sn. rewrite Sn. cbn [negb].
  unfold bind, pending. rewrite C1. apply drain_table.
Qed.

(** ** The retry loop waits *)

Lemma sweep_all_alive l : forall rtt retry s,
  (forall k e, In e l -> packetdead (clock s k) (when e) rtt = false) ->
  rm_dead_packets_from l rtt retry s = (l, retry, advance s (length l)).
Proof.
  induction l as [|e l IH]; intros rtt retry s A.
  - cbn. now rewrite advance_0.
  - cbn [rm_dead_packets_from length]. unfold bind at 1.
    change (gettimeofday s) with (clock s (ticks s), advance s 1).
    cbv iota beta. rewrite (A _ e (or_introl eq_refl)).
    unfold bind. rewrite IH, advance_advance; [reflexivity|].
    intros k x Ix. cbn. apply A. now right.
Qed.

Lemma sendpacket_idle packets rtt s :
  captured s = [] ->
  exists s', sendpacket 0 packets rtt 1 s = (packets, rtt, s')
             /\ clock s' = clock s /\ captured s' = []
             /\ sends s' = sends s.
Proof.
  intros C. unfold sendpacket, bind, gettimeofday, probe, pending, ret.
  cbn. rewrite C. cbn. eexists. split; [reflexivity|]. cbn. auto.
Qed.

Lemma retry_loop_idle fuel : forall packets rtt s,
  packets <> [] -> captured s = [] ->
  (forall k e, In e packets -> packetdead (clock s k) (when e) rtt = false) ->
  exists s', retry_loop fuel packets rtt s = (false, s')
             /\ sends s' = sends s.
Proof.
  induction fuel as [|fuel IH]; intros packets rtt s Ne C A.
  - destruct packets; [contradiction|]. exists s. split; reflexivity.
  - destruct packets as [|e packets]; [contradiction|].
    cbn [retry_loop]. unfold bind at 1.
    destruct (assign (rm_dead_packets (e :: packets) rtt) s)
      as [[l1 y1] s1] eqn:E1.
    apply assign_exact in E1. destruct E1 as (s0 & E0 & ->).
    unfold rm_dead_packets in E0. rewrite (sweep_all_alive _ _ _ _ A) in E0.
    inversion E0; subst; clear E0.
    unfold bind at 1. cbn [resend]. change (0 =? 0) with true.
    cbv iota. unfold ret at 1. cbv iota beta. unfold bind at 1.
    match goal with
    | |- context [assign _ ?x] => set (s2 := x)
    end.
    destruct (sendpacket_idle (e :: packets) rtt s2)
      as (s4 & E4 & K & C4 & S4); [exact C|].
    destruct (assign (sendpacket 0 (e :: packets) rtt 1) s2)
      as [[l3 r3] s3] eqn:E3.
    apply assign_exact in E3. destruct E3 as (s5 & E5 & ->).
    rewrite E4 in E5. inversion E5; subst l3 r3 s5; clear E5.
    destruct (IH (e :: packets) rtt (snd (emit (Snapshot (e :: packets)) s4))
                Ne) as (s' & E' & S').
    + exact C4.
    + intros k x Ix. cbn [emit snd clock]. rewrite K. now apply A.
    + exists s'. split; [exact E'|]. rewrite S'. cbn [emit snd sends].
      exact S4.
Qed.

(** X24.  The retry loop has no bound of its own: while the capture is
    silent and no entry is dead at any reading of the clock, a pass sends
    nothing and leaves the table as it is, so that no number of passes
    ends the loop. *)
Theorem retry_loop_waits fuel packets rtt s :
  packets <> [] -> captured s = [] ->
  (forall k e, In e packets -> packetdead (clock s k) (when e) rtt = false) ->
  fst (retry_loop fuel packets rtt s) = false
  /\ sends (snd (retry_loop fuel packets rtt s)) = sends s.
Proof.
  intros Ne C A.
  destruct (retry_loop_idle fuel packets rtt s Ne C A) as (s' & -> & S).
  auto.
Qed.

(** ** The handles of [find_rtt] *)







End FurtherProperties.

(** * Further instances on Linux/x86-64 *)

Section FurtherInstances.
#[local] Existing Instance linux_x86_64.

Ltac pick := repeat first [left; reflexivity | right].

Lemma sample_within_a_second_witness :
  0 <= 100 /\ 100 <= 5000 /\ 5000 < 1000000
  /\ timeval (compute_rtt (mk_tv 1700000001 5000)
                (maketime (mk_tv 1700000001 100)))
     = mk_tv 0 (16 * (5000 / 16 - 100 / 16)).
Proof.
  split; [lia|]. split; [lia|]. split; [lia|].
  apply (sample_within_a_second 1700000001 100 5000); lia.
Defined.

Lemma packetdead_after_two_seconds_witness :
  0 <= 0 < 1000000
  /\ (100 mod 16 < 103 mod 16
      \/ (100 mod 16 = 103 mod 16 /\ 0 / 16 <= 0 / 16))
  /\ 2000000 <= (103 mod 16 - 100 mod 16) * 1000000
                 + 16 * (0 / 16) - 16 * (0 / 16)
  /\ packetdead (mk_tv 103 0) (maketime (mk_tv 100 0)) initial_rtt = true.
Proof.
  assert (H : 0 <= 0 < 1000000) by lia.
  assert (O : 100 mod 16 < 103 mod 16
              \/ (100 mod 16 = 103 mod 16 /\ 0 / 16 <= 0 / 16))
    by (left; reflexivity).
  assert (D : 2000000 <= (103 mod 16 - 100 mod 16) * 1000000
                         + 16 * (0 / 16) - 16 * (0 / 16))
    by (vm_compute; discriminate).
  split; [exact H|]. split; [exact O|]. split; [exact D|].
  exact (proj2 (proj1 (packetdead_after_two_seconds 100 0 103 0 initial_rtt
                         H H) O) D).
Defined.

Lemma sendpacket_keeps_rtt_bounded_witness :
  ntohl initial_rtt <= 2 ^ 28
  /\ ntohl (snd (fst (send AF_INET 80 [] initial_rtt 1 wrap_world))) <= 2 ^ 28.
Proof.
  assert (H : ntohl initial_rtt <= 2 ^ 28) by (vm_compute; discriminate).
  split; [exact H|].
  exact (sendpacket_keeps_rtt_bounded AF_INET 80 [] initial_rtt 1 wrap_world H).
Defined.

Lemma extractack_inverts_echo_witness :
  let f := tcp_frame 5 80 (echo (mk_tv 100 0)) (Z.lor TH_SYN TH_ACK) 54 in
  tcp_of f AF_INET = Some 20
  /\ 0 <= maketime (mk_tv 100 0) < 4294967296
  /\ th_ack_h f 20 = uint32 (ntohl (maketime (mk_tv 100 0)) + 1)
  /\ extractack f AF_INET = maketime (mk_tv 100 0).
Proof.
  cbv zeta.
  assert (T : tcp_of (tcp_frame 5 80 (echo (mk_tv 100 0))
                        (Z.lor TH_SYN TH_ACK) 54) AF_INET = Some 20)
    by reflexivity.
  assert (R : 0 <= maketime (mk_tv 100 0) < 4294967296)
    by (vm_compute; split; [discriminate | reflexivity]).
  assert (E : th_ack_h (tcp_frame 5 80 (echo (mk_tv 100 0))
                          (Z.lor TH_SYN TH_ACK) 54) 20
              = uint32 (ntohl (maketime (mk_tv 100 0)) + 1))
    by (vm_compute; reflexivity).
  split; [exact T|]. split; [exact R|]. split; [exact E|].
  exact (proj1 (extractack_inverts_echo _ AF_INET 20 (maketime (mk_tv 100 0))
                  T R E)).
Defined.

Lemma rm_packet_removes_first_witness :
  NoDup (map dport [mk_packet 22 7 0; mk_packet 80 9 1])
  /\ get_packet (rm_packet [mk_packet 22 7 0; mk_packet 80 9 1] 80) 80 = None.
Proof.
  assert (N : NoDup (map dport [mk_packet 22 7 0; mk_packet 80 9 1])).
  { repeat constructor; cbn; intuition lia. }
  split; [exact N|].
  exact (proj2 (proj2 (proj2 (rm_packet_removes_first
                                [mk_packet 22 7 0; mk_packet 80 9 1] 80))) N).
Defined.

Lemma rm_after_add_witness :
  get_packet [mk_packet 22 7 0] 80 = None
  /\ rm_packet (add_packet [mk_packet 22 7 0] 80 100) 80 = [mk_packet 22 7 0].
Proof.
  split; [reflexivity|].
  apply (rm_after_add [mk_packet 22 7 0] 80 100). reflexivity.
Defined.

Lemma table_keeps_ports_unique_witness :
  NoDup (map dport [mk_packet 22 7 0; mk_packet 80 9 1])
  /\ NoDup (map dport (add_packet [mk_packet 22 7 0; mk_packet 80 9 1] 443 5))
  /\ NoDup (map dport (add_packet [mk_packet 22 7 0; mk_packet 80 9 1] 80 5)).
Proof.
  assert (N : NoDup (map dport [mk_packet 22 7 0; mk_packet 80 9 1])).
  { repeat constructor; cbn; intuition lia. }
  split; [exact N|].
  split; apply (table_keeps_ports_unique _ N).
Defined.

Lemma in_cksum_reads_n_bytes_witness :
  Forall is_byte [69; 0; 40] /\ Z.of_nat (length [69; 0; 40]) <= 65535
  /\ in_cksum ([69; 0; 40] ++ [7; 9]) 3 = in_cksum [69; 0; 40] 3
  /\ in_cksum [69; 0; 40] 3 = in_cksum [69; 0; 40; 0] 4.
Proof.
  assert (F : Forall is_byte [69; 0; 40])
    by (repeat constructor; unfold is_byte; lia).
  assert (L : Z.of_nat (length [69; 0; 40]) <= 65535) by (cbn; lia).
  split; [exact F|]. split; [exact L|]. split.
  - exact (proj1 (proj2 (in_cksum_reads_n_bytes [69; 0; 40] [7; 9] F L))).
  - exact (proj2 (proj2 (in_cksum_reads_n_bytes [69; 0; 40] [7; 9] F L))
             eq_refl).
Defined.

Lemma in_cksum_verifies_witness :
  Forall is_byte [69; 0] /\ Forall is_byte [1; 2; 3; 4]
  /\ Nat.even (length [69; 0]) = true
  /\ Z.of_nat (length [69; 0] + 2 + length [1; 2; 3; 4]) <= 65535
  /\ in_cksum ([69; 0]
               ++ store16 (in_cksum ([69; 0] ++ store16 0 ++ [1; 2; 3; 4]) 8)
               ++ [1; 2; 3; 4]) 8 = 0.
Proof.
  assert (F1 : Forall is_byte [69; 0])
    by (repeat constructor; unfold is_byte; lia).
  assert (F2 : Forall is_byte [1; 2; 3; 4])
    by (repeat constructor; unfold is_byte; lia).
  assert (L : Z.of_nat (length [69; 0] + 2 + length [1; 2; 3; 4]) <= 65535)
    by (cbn; lia).
  split; [exact F1|]. split; [exact F2|]. split; [reflexivity|].
  split; [exact L|].
  exact (in_cksum_verifies [69; 0] [1; 2; 3; 4] F1 F2 eq_refl L).
Defined.

Lemma mktcpv6_parsed_back_witness :
  let f := mk_frame (repeat 0 40 ++ mktcpv6 7 4441 80 64 TH_SYN) 60 in
  length (repeat 0 40) = 40%nat
  /\ extractsport f AF_INET6 = ushort 4441
  /\ issynack f AF_INET6 = false
  /\ th_seq_h f 40 = ntohl 64.
Proof.
  cbv zeta.
  assert (L : length (repeat 0 40) = 40%nat) by reflexivity.
  split; [exact L|].
  pose proof (mktcpv6_parsed_back (repeat 0 40) 60 7 4441 80 64 TH_SYN L)
    as (_ & S & Y & Q & _).
  split; [exact S|]. split; [exact Y | exact Q].
Defined.

(** The SYN|ACK of [open_port_world] comes from port 80, which the port
    array [22; 443] does not list: the port is reported and reset, and no
    SYN goes to it. *)
Lemma syn_probes_go_to_listed_ports_witness :
  let tr := trace (snd (scan AF_INET [22; 443] initial_rtt 8 open_port_world)) in
  Forall (fun p => 0 <= p < 65536) [22; 443]
  /\ trace open_port_world = []
  /\ In (Sendto 443 16 TH_SYN 40) tr
  /\ In 443 [22; 443] /\ 443 <> 0.
Proof.
  cbv zeta.
  assert (R : Forall (fun p => 0 <= p < 65536) [22; 443])
    by (repeat constructor; lia).
  assert (I : In (Sendto 443 16 TH_SYN 40)
                (trace (snd (scan AF_INET [22; 443] initial_rtt 8
                               open_port_world))))
    by (vm_compute; pick).
  split; [exact R|]. split; [reflexivity|]. split; [exact I|].
  exact (syn_probes_go_to_listed_ports AF_INET [22; 443] initial_rtt 8
           open_port_world 443 16 40 R eq_refl I).
Defined.

Lemma every_listed_port_is_probed_witness :
  Forall (fun p => 0 <= p < 65536) [22; 80; 443]
  /\ trace send_fails_world = []
  /\ 0 <= rawsocket_result send_fails_world
  /\ In 443 [22; 80; 443] /\ 443 <> 0
  /\ exists seq r,
       In (Sendto 443 seq TH_SYN r)
          (trace (snd (scan AF_INET [22; 80; 443] initial_rtt 8
                         send_fails_world))).
Proof.
  assert (R : Forall (fun p => 0 <= p < 65536) [22; 80; 443])
    by (repeat constructor; lia).
  assert (O : 0 <= rawsocket_result send_fails_world) by (cbn; lia).
  assert (I : In 443 [22; 80; 443]) by (cbn; auto).
  assert (N : 443 <> 0) by lia.
  split; [exact R|]. split; [reflexivity|]. split; [exact O|].
  split; [exact I|]. split; [exact N|].
  exact (every_listed_port_is_probed AF_INET [22; 80; 443] initial_rtt 8
           send_fails_world 443 R eq_refl O I N).
Defined.

Lemma reported_ports_come_from_synacks_witness :
  let tr := trace (snd (scan AF_INET [22; 443] initial_rtt 8 open_port_world)) in
  Forall (fun p => 0 <= p < 65536) [22; 443]
  /\ trace open_port_world = []
  /\ In (Scanner_add_port 80) tr
  /\ ~ In 80 [22; 443]
  /\ from_synack AF_INET (captured open_port_world) 80.
Proof.
  cbv zeta.
  assert (R : Forall (fun p => 0 <= p < 65536) [22; 443])
    by (repeat constructor; lia).
  assert (I : In (Scanner_add_port 80)
                (trace (snd (scan AF_INET [22; 443] initial_rtt 8
                               open_port_world))))
    by (vm_compute; pick).
  split; [exact R|]. split; [reflexivity|]. split; [exact I|].
  split; [cbn; intuition lia|].
  exact (reported_ports_come_from_synacks AF_INET [22; 443] initial_rtt 8
           open_port_world 80 R eq_refl (or_introl I)).
Defined.

(** The bound is reached: on a silent target port 22 is probed once by
    the main loop and twice by the retry loop. *)
Lemma at_most_three_syns_per_port_witness :
  let tr := trace (snd (scan AF_INET [22; 80] initial_rtt 20 ticking_world)) in
  NoDup [22; 80]
  /\ Forall (fun p => 0 <= p < 65536) [22; 80]
  /\ trace ticking_world = []
  /\ syn_count 22 tr = 3%nat
  /\ Z.of_nat (syn_count 22 tr) <= NUM_RETRIES + 1.
Proof.
  cbv zeta.
  assert (N : NoDup [22; 80]) by (repeat constructor; cbn; intuition lia).
  assert (R : Forall (fun p => 0 <= p < 65536) [22; 80])
    by (repeat constructor; lia).
  split; [exact N|]. split; [exact R|]. split; [reflexivity|].
  split; [vm_compute; reflexivity|].
  exact (at_most_three_syns_per_port AF_INET [22; 80] initial_rtt 20
           ticking_world N R eq_refl 22).
Defined.

Lemma full_scan_key_iff_witness :
  Forall (fun p => 0 <= p < 65536) [22; 80]
  /\ trace ticking_world = []
  /\ fst (scan AF_INET [22; 80] initial_rtt 20 ticking_world) = Some 0
  /\ ~ In (Plug_set_key "Host/full_scan")
         (trace (snd (scan AF_INET [22; 80] initial_rtt 20 ticking_world))).
Proof.
  assert (R : Forall (fun p => 0 <= p < 65536) [22; 80])
    by (repeat constructor; lia).
  split; [exact R|]. split; [reflexivity|].
  split; [vm_compute; reflexivity|]. intros H.
  pose proof (proj2 (proj1 (full_scan_key_iff AF_INET [22; 80] initial_rtt 20
                              ticking_world R eq_refl) H)) as K.
  revert K. clear H. cbn [length Z.of_nat Pos.of_succ_nat Pos.succ]. lia.
Defined.

Lemma handles_closed_once_witness :
  (forall k, 0 <= sendto_result ticking_world k)
  /\ trace ticking_world = []
  /\ fst (scan AF_INET [22; 80] initial_rtt 20 ticking_world) = Some 0
  /\ exists rest,
       trace (snd (scan AF_INET [22; 80] initial_rtt 20 ticking_world))
       = scan_end 2 ++ rest
       /\ Forall (fun e => is_close e = false) rest.
Proof.
  assert (O : forall k, 0 <= sendto_result ticking_world k)
    by (intros k; cbn; lia).
  assert (E : fst (scan AF_INET [22; 80] initial_rtt 20 ticking_world)
              = Some 0) by (vm_compute; reflexivity).
  split; [exact O|]. split; [reflexivity|]. split; [exact E|].
  exact (handles_closed_once AF_INET [22; 80] initial_rtt 20 ticking_world
           O eq_refl E).
Defined.

Lemma host_marked_scanned_without_socket_witness :
  rawsocket_result (world [] [] [] (-1) 4) < 0
  /\ trace (snd (plugin_run_synscan false AF_INET [22; 80] 8
                   (world [] [] [] (-1) 4)))
     = [Plug_set_key "Host/scanners/synscan"; Plug_set_key "Host/scanned"]
  /\ sends (snd (plugin_run_synscan false AF_INET [22; 80] 8
                   (world [] [] [] (-1) 4))) = 0%nat.
Proof.
  assert (H : rawsocket_result (world [] [] [] (-1) 4) < 0) by (cbn; lia).
  split; [exact H|].
  pose proof (host_marked_scanned_without_socket AF_INET [22; 80] 8
                (world [] [] [] (-1) 4) H) as (_ & _ & T & S).
  split; [exact T | exact S].
Defined.

(** The SYN|ACK from port 80 takes the entry for port 80 out of the table;
    the frame behind the timeout is left in the capture. *)
Lemma sendpacket_table_witness :
  let w := world [mk_tv 1 0] []
             [synack 80 (mk_tv 1 0); None; synack 22 (mk_tv 1 0)] 3 4 in
  0 <= sendto_result w (sends w) /\ 1 <> 0
  /\ fst (fst (sendpacket 80 [mk_packet 22 5 0] initial_rtt 1 w))
     = fold_left rm_packet
         (map (fun f => extractsport f AF_INET) (leading (captured w)))
         (add_packet [mk_packet 22 5 0] (ushort 80) (maketime (mk_tv 1 0)))
  /\ fst (fst (sendpacket 80 [mk_packet 22 5 0] initial_rtt 1 w))
     = [mk_packet 22 5 0].
Proof.
  cbv zeta.
  assert (O : 0 <= sendto_result
                     (world [mk_tv 1 0] []
                        [synack 80 (mk_tv 1 0); None; synack 22 (mk_tv 1 0)]
                        3 4)
                     (sends (world [mk_tv 1 0] []
                               [synack 80 (mk_tv 1 0); None;
                                synack 22 (mk_tv 1 0)] 3 4)))
    by (cbn; lia).
  assert (N : 1 <> 0) by lia.
  split; [exact O|]. split; [exact N|]. split; [|vm_compute; reflexivity].
  exact (sendpacket_table 80 [mk_packet 22 5 0] initial_rtt 1 _ O N).
Defined.

Lemma retry_loop_waits_witness :
  [mk_packet 80 (maketime (mk_tv 100 0)) 0] <> []
  /\ captured silent_world = []
  /\ fst (retry_loop 50 [mk_packet 80 (maketime (mk_tv 100 0)) 0]
            initial_rtt silent_world) = false.
Proof.
  assert (N : [mk_packet 80 (maketime (mk_tv 100 0)) 0] <> [])
    by discriminate.
  assert (A : forall k e,
            In e [mk_packet 80 (maketime (mk_tv 100 0)) 0] ->
            packetdead (clock silent_world k) (when e) initial_rtt = false).
  { intros k e [<- | []]. destruct k as [|[|k]]; reflexivity. }
  split; [exact N|]. split; [reflexivity|].
  exact (proj1 (retry_loop_waits 50 _ initial_rtt silent_world N eq_refl A)).
Defined.


End FurtherInstances.
